(** * Muffasa: a shallow embedding of the lexer, parser and interpreter

    The development follows [Muffasa.py] (classes [Lexer], [Parser],
    [Interpreter]) and the part of [mathforlanguage.py] the interpreter
    calls ([mathforlenguage], [StringBeans], [Arrays], [Shmuple]).

    Conventions.
    - Python [str] is [string]; source text is taken to be ASCII, and a
      character outside ASCII that the lexer would have to classify yields
      [Unmodelled] (Python classifies it with the Unicode tables).
    - Python [int] is [Z]; [bool] is [bool]; [float] is an IEEE binary64
      value ([PrimFloat.float]).
    - A raised exception is [Raise e].  The only handler of the source, in
      [Shmuple.getitem], raises [IndexError] again, so [Raise] propagates
      through every bind.
    - Loops that need not terminate take a [fuel] argument and answer
      [OutOfFuel] when it is spent.
    - [Unmodelled] marks behaviour of the Python runtime that lies outside
      this embedding (float arithmetic, methods of built-in types, [repr]).
    - Console output ([print]) is not part of the state. *)

From Stdlib Require Import ZArith String Ascii List Floats.
From stdpp Require Import gmap strings list.

Open Scope string_scope.
Open Scope list_scope.
Open Scope nat_scope.

(** ** Outcomes *)

Inductive exn :=
| RuntimeError | NameError | TypeError | ValueError | KeyError
| IndexError | AttributeError | ZeroDivisionError.

Inductive outcome (A : Type) :=
| Ok (a : A)
| Raise (e : exn)
| OutOfFuel
| Unmodelled.
Arguments Ok {A} a.
Arguments Raise {A} e.
Arguments OutOfFuel {A}.
Arguments Unmodelled {A}.

#[global] Instance outcome_ret : MRet outcome := λ A a, Ok a.
#[global] Instance outcome_bind : MBind outcome := λ A B f m,
  match m with
  | Ok a => f a
  | Raise e => Raise e
  | OutOfFuel => OutOfFuel
  | Unmodelled => Unmodelled
  end.

#[global] Instance outcome_fmap : FMap outcome := λ A B f m,
  match m with
  | Ok a => Ok (f a)
  | Raise e => Raise e
  | OutOfFuel => OutOfFuel
  | Unmodelled => Unmodelled
  end.

(** ** Python string helpers *)

Module Py.

Definition code_of (c : ascii) : nat := nat_of_ascii c.

Definition is_ascii (c : ascii) : bool := code_of c <? 128.

(** [str.isdigit], [str.isalpha], [str.isalnum], [str.isspace] on one ASCII
    character. *)
Definition isdigit (c : ascii) : bool :=
  (48 <=? code_of c) && (code_of c <=? 57).

Definition isalpha (c : ascii) : bool :=
  ((65 <=? code_of c) && (code_of c <=? 90))
  || ((97 <=? code_of c) && (code_of c <=? 122)).

Definition isalnum (c : ascii) : bool := isalpha c || isdigit c.

Definition isspace (c : ascii) : bool :=
  ((9 <=? code_of c) && (code_of c <=? 13))
  || ((28 <=? code_of c) && (code_of c <=? 32)).

(** The double-quote character. *)
Definition dquote : ascii := ascii_of_nat 34.

(** [c in s] for a one-character [c]. *)
Fixpoint char_in (c : ascii) (s : string) : bool :=
  match s with
  | EmptyString => false
  | String d s' => Ascii.eqb c d || char_in c s'
  end.

(** [x in l] for a list (or set) of strings. *)
Definition str_in (x : string) (l : list string) : bool :=
  existsb (String.eqb x) l.

(** [s[start:stop]] for [0 <= start], [0 <= stop]. *)
Definition slice (s : string) (start stop : nat) : string :=
  substring start (stop - start) s.

(** [s[pos:]]. *)
Fixpoint drop (pos : nat) (s : string) : string :=
  match pos, s with
  | 0, _ => s
  | S p, String _ s' => drop p s'
  | S _, EmptyString => EmptyString
  end.

End Py.

(** ** Lexer *)

Definition token : Type := string * string.

Module Lexer.

(** The loop [while (char := self.get_next_char()) is not None and p(char)]
    read from position [pos], where [rest] is [code[pos:]]: the position
    the loop leaves, before the [self.position -= 1] that follows it.
    [get_next_char] does not advance at the end of the text. *)
Fixpoint scan_while (p : ascii -> bool) (rest : string) (pos : nat)
  : outcome nat :=
  match rest with
  | EmptyString => Ok pos
  | String c rest' =>
      if negb (Py.is_ascii c) then Unmodelled
      else if p c then scan_while p rest' (S pos)
      else Ok (S pos)
  end.

(** The loop [while (char := self.get_next_char()) != QUOTE] of a string
    literal ([QUOTE] is the double-quote character): the position after the
    closing quote, or the error raised at the end of the text. *)
Fixpoint scan_string (rest : string) (pos : nat) : outcome nat :=
  match rest with
  | EmptyString => Raise RuntimeError
  | String c rest' =>
      if Ascii.eqb c Py.dquote then Ok (S pos) else scan_string rest' (S pos)
  end.

Definition keyword_token (value : string) : token :=
  if Py.str_in value ["squareRoot"; "min"; "max"] then ("FUNC", value)
  else if Py.str_in value ["True"; "False"] then ("BOOL", value)
  else if String.eqb value "if" then ("IF", value)
  else if String.eqb value "else" then ("ELSE", value)
  else if Py.str_in value ["while"; "for"] then ("LOOP", value)
  else if String.eqb value "break" then ("Terminate", value)
  else if String.eqb value "continue" then ("Continue", value)
  else if Py.str_in value ["Shmuple"; "StringBeans"; "Arrays"]
       then ("Class", value)
  else ("ID", value).

(** [self.get_next_char() == c], with the position it leaves. *)
Definition next_is (code : string) (pos : nat) (c : ascii) : bool * nat :=
  match String.get pos code with
  | Some d => (Ascii.eqb d c, S pos)
  | None => (false, pos)
  end.

(** The test of the number rule, [char.isdigit() or (char == '-' and
    self.position < len(self.code) and
    self.code[self.position].isdigit())]. *)
Definition starts_number (code : string) (char : ascii) (pos : nat)
  : outcome bool :=
  if Py.isdigit char then Ok true
  else if Ascii.eqb char "-" && (pos <? String.length code) then
    match String.get pos code with
    | Some d => if Py.is_ascii d then Ok (Py.isdigit d) else Unmodelled
    | None => Ok false
    end
  else Ok false.

(** The body of the main loop of [tokenize] for the character [char] just
    read; [pos] is [self.position] after that read. *)
Definition tokenize_char (code : string) (char : ascii) (pos : nat)
    (tokens : list token) : outcome (nat * list token) :=
  if negb (Py.is_ascii char) then Unmodelled
  else if Py.isspace char then Ok (pos, tokens)
  else if Py.isalpha char then
    let start := pos - 1 in
    p ← scan_while (λ c, Py.isalnum c || Ascii.eqb c "_")
          (Py.drop pos code) pos;
    let pos' := p - 1 in
    Ok (pos', tokens ++ [keyword_token (Py.slice code start pos')])
  else starts_number code char pos ≫= λ number : bool,
  if number then
    let start := pos - 1 in
    p ← scan_while (λ c, Py.isdigit c || Ascii.eqb c ".")
          (Py.drop pos code) pos;
    let pos' := p - 1 in
    Ok (pos', tokens ++ [("NUMBER", Py.slice code start pos')])
  else if Ascii.eqb char Py.dquote then
    let start := pos in
    p ← scan_string (Py.drop pos code) pos;
    Ok (p, tokens ++ [("CHAR", Py.slice code start p)])
  else if Py.char_in char "+-*/=<>!&|(){}^;,~" then
    if Ascii.eqb char "^" then Ok (pos, tokens ++ [("OP", "^")])
    else if Ascii.eqb char "=" then
      let '(b, p) := next_is code pos "=" in
      if b then Ok (p, tokens ++ [("OP", "==")])
      else Ok (p - 1, tokens ++ [("ASSIGN", "=")])
    else if Ascii.eqb char "!" then
      let '(b, p) := next_is code pos "=" in
      if b then Ok (p, tokens ++ [("OP", "!=")]) else Raise RuntimeError
    else if Ascii.eqb char "&" then
      let '(b, p) := next_is code pos "&" in
      if b then Ok (p, tokens ++ [("OP", "&&")]) else Raise RuntimeError
    else if Ascii.eqb char "|" then
      let '(b, p) := next_is code pos "|" in
      if b then Ok (p, tokens ++ [("OP", "||")]) else Raise RuntimeError
    else if Py.char_in char "+-*/" then
      Ok (pos, tokens ++ [("OP", String char EmptyString)])
    else if Py.char_in char "<>" then
      Ok (pos, tokens ++ [("OP", String char EmptyString)])
    else if Py.char_in char "(){}" then
      Ok (pos, tokens ++ [("OP", String char EmptyString)])
    else if Ascii.eqb char "," then Ok (pos, tokens ++ [("COMMA", ",")])
    else if Ascii.eqb char "~" then Ok (pos, tokens ++ [("END", "~")])
    else if Ascii.eqb char ";" then Ok (pos, tokens ++ [("SEMICOLON", ";")])
    else Raise RuntimeError
  else if Ascii.eqb char "." then Ok (pos, tokens ++ [("DOT", ".")])
  else Raise RuntimeError.

(** The main loop of [tokenize], from [self.position = pos]. *)
Fixpoint tokenize_loop (fuel : nat) (code : string) (pos : nat)
    (tokens : list token) : outcome (list token) :=
  match fuel with
  | 0 => OutOfFuel
  | S fuel' =>
      match String.get pos code with
      | None => Ok tokens
      | Some char =>
          '(pos', tokens') ← tokenize_char code char (S pos) tokens;
          tokenize_loop fuel' code pos' tokens'
      end
  end.

Definition tokenize (fuel : nat) (code : string) : outcome (list token) :=
  tokenize_loop fuel code 0 [].

End Lexer.

(** ** Abstract syntax

    The parser builds Python tuples whose first component is a tag; one
    constructor stands for each shape.  [BINOP op l r] is the tuple
    [(op, l, r)] of [parse_expression] and [parse_term], whose tag is the
    operator text itself.  [PyNone] is the [None] that [parse_statement]
    returns for a [LOOP] token that is neither [while] nor [for]. *)

#[warnings="-register-all"]
Inductive node :=
| PyNone
| NUMBER (text : string)
| BOOL (text : string)
| ID (name : string)
| CHAR (text : string)
| BINOP (op : string) (left right : node)
| CALL (func_name : string) (args : list node)
| METHOD_CALL (obj_name method_name : string) (args : list node)
| CLASS_INST (class_name : string) (args : list node)
| COMMENT (text : string)
| BREAK
| CONTINUE
| ASSIGN (var_name : string) (expr : node)
| IF (condition : node) (if_body : list node)
| IF_ELSE (condition : node) (if_body else_body : list node)
| WHILE (condition : node) (body : list node)
| FOR (init condition increment : node) (body : list node).

(** ** Parser *)

Module Parser.

Definition upper_ops : list string :=
  ["+"; "-"; "<"; ">"; "=="; "!="; "&&"; "||"].
Definition lower_ops : list string := ["*"; "/"; "^"].
Definition terminators : list string := ["END"; "SEMICOLON"].

Section WithTokens.

Variable tokens : list token.

Definition current_token (pos : nat) : option token := tokens !! pos.

(** [self.current_token()[i]] where the source does not test for [None]
    first: subscripting [None] raises [TypeError]. *)
Definition current_token_strict (pos : nat) : outcome token :=
  match current_token pos with
  | Some t => Ok t
  | None => Raise TypeError
  end.

Definition consume (expected_type : string) (pos : nat)
  : outcome (string * nat) :=
  match current_token pos with
  | Some (kind, text) =>
      if String.eqb kind expected_type then Ok (text, S pos)
      else Raise RuntimeError
  | None => Raise RuntimeError
  end.

(** [self.current_token() and
    self.current_token()[0] in ['END', 'SEMICOLON']] *)
Definition at_terminator (pos : nat) : bool :=
  match current_token pos with
  | Some (kind, _) => Py.str_in kind terminators
  | None => false
  end.

(** [self.current_token() and self.current_token()[0] == kind] *)
Definition at_kind (kind : string) (pos : nat) : bool :=
  match current_token pos with
  | Some (kind', _) => String.eqb kind' kind
  | None => false
  end.

(** The terminator a statement requires. *)
Definition end_of_statement (pos : nat) : outcome nat :=
  if at_terminator pos then Ok (S pos) else Raise RuntimeError.

(** The terminator [break] and [continue] take when it is there. *)
Definition optional_terminator (pos : nat) : nat :=
  if at_terminator pos then S pos else pos.

(** [self.current_token() and self.current_token()[0] == 'OP' and
    self.current_token()[1] in ops] *)
Definition at_op_in (ops : list string) (pos : nat) : bool :=
  match current_token pos with
  | Some (kind, text) => String.eqb kind "OP" && Py.str_in text ops
  | None => false
  end.

(** [self.current_token() and not (self.current_token()[0] == 'OP' and
    self.current_token()[1] == '}')] *)
Definition in_block (pos : nat) : bool :=
  match current_token pos with
  | Some (kind, text) => negb (String.eqb kind "OP" && String.eqb text "}")
  | None => false
  end.

(** The test of the argument loops: [parse_function_call] guards it with
    [self.current_token() and ...], the two other callers do not. *)
Definition at_comma (guarded : bool) (pos : nat) : outcome bool :=
  match current_token pos with
  | Some (kind, _) => Ok (String.eqb kind "COMMA")
  | None => if guarded then Ok false else Raise TypeError
  end.

(** [self.current_token()[0] != 'OP' or self.current_token()[1] != ')'] *)
Definition not_at_close (pos : nat) : outcome bool :=
  '(kind, text) ← current_token_strict pos;
  Ok (negb (String.eqb kind "OP") || negb (String.eqb text ")")).

Fixpoint parse_expression (fuel : nat) (pos : nat) : outcome (node * nat) :=
  match fuel with
  | 0 => OutOfFuel
  | S fuel =>
      '(left_, pos) ← parse_term fuel pos;
      expression_loop fuel left_ pos
  end

(** The [while] loop of [parse_expression]. *)
with expression_loop (fuel : nat) (left_ : node) (pos : nat)
  : outcome (node * nat) :=
  match fuel with
  | 0 => OutOfFuel
  | S fuel =>
      if at_op_in upper_ops pos then
        '(op, pos) ← consume "OP" pos;
        '(right_, pos) ← parse_term fuel pos;
        expression_loop fuel (BINOP op left_ right_) pos
      else Ok (left_, pos)
  end

with parse_term (fuel : nat) (pos : nat) : outcome (node * nat) :=
  match fuel with
  | 0 => OutOfFuel
  | S fuel =>
      '(left_, pos) ← parse_factor fuel pos;
      term_loop fuel left_ pos
  end

(** The [while] loop of [parse_term]. *)
with term_loop (fuel : nat) (left_ : node) (pos : nat)
  : outcome (node * nat) :=
  match fuel with
  | 0 => OutOfFuel
  | S fuel =>
      if at_op_in lower_ops pos then
        '(op, pos) ← consume "OP" pos;
        '(right_, pos) ← parse_factor fuel pos;
        term_loop fuel (BINOP op left_ right_) pos
      else Ok (left_, pos)
  end

with parse_factor (fuel : nat) (pos : nat) : outcome (node * nat) :=
  match fuel with
  | 0 => OutOfFuel
  | S fuel =>
      '(kind, text) ← current_token_strict pos;
      if String.eqb kind "NUMBER" then
        '(v, pos) ← consume "NUMBER" pos; Ok (NUMBER v, pos)
      else if String.eqb kind "BOOL" then
        '(v, pos) ← consume "BOOL" pos; Ok (BOOL v, pos)
      else if String.eqb kind "ID" then parse_id_or_call fuel pos
      else if String.eqb kind "OP" && String.eqb text "(" then
        '(_, pos) ← consume "OP" pos;
        '(expr, pos) ← parse_expression fuel pos;
        '(_, pos) ← consume "OP" pos;
        Ok (expr, pos)
      else if String.eqb kind "Class" then parse_class_instantiation fuel pos
      else if String.eqb kind "CHAR" then
        '(v, pos) ← consume "CHAR" pos; Ok (CHAR v, pos)
      else if String.eqb kind "FUNC" then parse_function_call fuel pos
      else Raise RuntimeError
  end

with parse_id_or_call (fuel : nat) (pos : nat) : outcome (node * nat) :=
  match fuel with
  | 0 => OutOfFuel
  | S fuel =>
      '(var_name, pos) ← consume "ID" pos;
      '(kind, text) ← current_token_strict pos;
      if String.eqb kind "OP" && String.eqb text "(" then
        parse_function_call fuel pos
      else if String.eqb kind "DOT" then parse_method_call fuel var_name pos
      else Ok (ID var_name, pos)
  end

(** The argument list shared by the three call forms, from the token after
    the opening parenthesis up to the token before the closing one. *)
with parse_args (fuel : nat) (guarded : bool) (pos : nat)
  : outcome (list node * nat) :=
  match fuel with
  | 0 => OutOfFuel
  | S fuel =>
      not_at_close pos ≫= λ b : bool,
      if b then
        '(arg, pos) ← parse_expression fuel pos;
        more_args fuel guarded [arg] pos
      else Ok ([], pos)
  end

(** The [while] loop over [COMMA] tokens. *)
with more_args (fuel : nat) (guarded : bool) (args : list node) (pos : nat)
  : outcome (list node * nat) :=
  match fuel with
  | 0 => OutOfFuel
  | S fuel =>
      at_comma guarded pos ≫= λ b : bool,
      if b then
        '(_, pos) ← consume "COMMA" pos;
        '(arg, pos) ← parse_expression fuel pos;
        more_args fuel guarded (args ++ [arg]) pos
      else Ok (args, pos)
  end

with parse_function_call (fuel : nat) (pos : nat) : outcome (node * nat) :=
  match fuel with
  | 0 => OutOfFuel
  | S fuel =>
      '(func_name, pos) ← consume "FUNC" pos;
      '(_, pos) ← consume "OP" pos;
      '(args, pos) ← parse_args fuel true pos;
      '(_, pos) ← consume "OP" pos;
      Ok (CALL func_name args, pos)
  end

with parse_method_call (fuel : nat) (obj_name : string) (pos : nat)
  : outcome (node * nat) :=
  match fuel with
  | 0 => OutOfFuel
  | S fuel =>
      '(_, pos) ← consume "DOT" pos;
      '(method_name, pos) ← consume "ID" pos;
      '(_, pos) ← consume "OP" pos;
      '(args, pos) ← parse_args fuel false pos;
      '(_, pos) ← consume "OP" pos;
      Ok (METHOD_CALL obj_name method_name args, pos)
  end

with parse_class_instantiation (fuel : nat) (pos : nat)
  : outcome (node * nat) :=
  match fuel with
  | 0 => OutOfFuel
  | S fuel =>
      '(class_name, pos) ← consume "Class" pos;
      '(_, pos) ← consume "OP" pos;
      '(args, pos) ← parse_args fuel false pos;
      '(_, pos) ← consume "OP" pos;
      Ok (CLASS_INST class_name args, pos)
  end.

Fixpoint parse_statement (fuel : nat) (pos : nat) : outcome (node * nat) :=
  match fuel with
  | 0 => OutOfFuel
  | S fuel =>
      '(kind, text) ← current_token_strict pos;
      if String.eqb kind "CHAR" then
        '(_, pos) ← consume "CHAR" pos;
        Ok (COMMENT text, pos)
      else if String.eqb kind "Terminate" then
        '(_, pos) ← consume "Terminate" pos;
        Ok (BREAK, optional_terminator pos)
      else if String.eqb kind "Continue" then
        '(_, pos) ← consume "Continue" pos;
        Ok (CONTINUE, optional_terminator pos)
      else if String.eqb kind "ID" then
        '(var_name, pos) ← consume "ID" pos;
        '(kind', _) ← current_token_strict pos;
        if String.eqb kind' "ASSIGN" then
          '(_, pos) ← consume "ASSIGN" pos;
          '(expr, pos) ← parse_expression fuel pos;
          pos ← end_of_statement pos;
          Ok (ASSIGN var_name expr, pos)
        else if String.eqb kind' "DOT" then
          '(method_call, pos) ← parse_method_call fuel var_name pos;
          pos ← end_of_statement pos;
          Ok (method_call, pos)
        else
          '(expr, pos) ← parse_expression fuel pos;
          pos ← end_of_statement pos;
          Ok (expr, pos)
      else if String.eqb kind "IF" then parse_if_statement fuel pos
      else if String.eqb kind "LOOP" then
        if String.eqb text "while" then parse_while_statement fuel pos
        else if String.eqb text "for" then parse_for_statement fuel pos
        else Ok (PyNone, pos)
      else
        '(expr, pos) ← parse_expression fuel pos;
        pos ← end_of_statement pos;
        Ok (expr, pos)
  end

(** The statements of a block, up to its closing brace.  [keep_none] is
    false for a [while] body, which drops a [None] statement. *)
with parse_block (fuel : nat) (keep_none : bool) (body : list node)
    (pos : nat) : outcome (list node * nat) :=
  match fuel with
  | 0 => OutOfFuel
  | S fuel =>
      if in_block pos then
        '(stmt, pos) ← parse_statement fuel pos;
        match stmt with
        | PyNone =>
            parse_block fuel keep_none
              (if keep_none then body ++ [stmt] else body) pos
        | _ => parse_block fuel keep_none (body ++ [stmt]) pos
        end
      else Ok (body, pos)
  end

with parse_if_statement (fuel : nat) (pos : nat) : outcome (node * nat) :=
  match fuel with
  | 0 => OutOfFuel
  | S fuel =>
      '(_, pos) ← consume "IF" pos;
      '(_, pos) ← consume "OP" pos;
      '(condition, pos) ← parse_expression fuel pos;
      '(_, pos) ← consume "OP" pos;
      '(_, pos) ← consume "OP" pos;
      '(if_body, pos) ← parse_block fuel true [] pos;
      '(_, pos) ← consume "OP" pos;
      if at_kind "ELSE" pos then
        '(_, pos) ← consume "ELSE" pos;
        '(_, pos) ← consume "OP" pos;
        '(else_body, pos) ← parse_block fuel true [] pos;
        '(_, pos) ← consume "OP" pos;
        Ok (IF_ELSE condition if_body else_body, pos)
      else Ok (IF condition if_body, pos)
  end

with parse_while_statement (fuel : nat) (pos : nat) : outcome (node * nat) :=
  match fuel with
  | 0 => OutOfFuel
  | S fuel =>
      '(_, pos) ← consume "LOOP" pos;
      '(_, pos) ← consume "OP" pos;
      '(condition, pos) ← parse_expression fuel pos;
      '(_, pos) ← consume "OP" pos;
      '(_, pos) ← consume "OP" pos;
      '(while_body, pos) ← parse_block fuel false [] pos;
      '(_, pos) ← consume "OP" pos;
      Ok (WHILE condition while_body, pos)
  end

with parse_for_statement (fuel : nat) (pos : nat) : outcome (node * nat) :=
  match fuel with
  | 0 => OutOfFuel
  | S fuel =>
      '(_, pos) ← consume "LOOP" pos;
      '(_, pos) ← consume "OP" pos;
      '(init_var, pos) ← consume "ID" pos;
      '(_, pos) ← consume "ASSIGN" pos;
      '(init_expr, pos) ← parse_expression fuel pos;
      '(_, pos) ← consume "SEMICOLON" pos;
      '(condition, pos) ← parse_expression fuel pos;
      '(_, pos) ← consume "SEMICOLON" pos;
      '(incr_var, pos) ← consume "ID" pos;
      '(_, pos) ← consume "ASSIGN" pos;
      '(incr_expr, pos) ← parse_expression fuel pos;
      '(_, pos) ← consume "OP" pos;
      '(_, pos) ← consume "OP" pos;
      '(for_body, pos) ← parse_block fuel true [] pos;
      '(_, pos) ← consume "OP" pos;
      Ok (FOR (ASSIGN init_var init_expr) condition
              (ASSIGN incr_var incr_expr) for_body, pos)
  end.

(** The loop of [parse]. *)
Fixpoint parse_loop (fuel : nat) (ast : list node) (pos : nat)
  : outcome (list node) :=
  match fuel with
  | 0 => OutOfFuel
  | S fuel =>
      if pos <? length tokens then
        '(stmt, pos) ← parse_statement fuel pos;
        parse_loop fuel (ast ++ [stmt]) pos
      else Ok ast
  end.

Definition parse (fuel : nat) : outcome (list node) := parse_loop fuel [] 0.

End WithTokens.

End Parser.

(** ** Values and objects *)

(** A Python value the interpreter can hold.  [VRef l] is an instance of
    one of the three classes of [mathforlanguage.py], stored at address [l]
    of the heap; [VTuple t] is an AST tuple, which [evaluate_expression]
    hands back unchanged for the tags it does not evaluate. *)
Inductive value :=
| VNone
| VBool (b : bool)
| VInt (z : Z)
| VFloat (f : float)
| VStr (s : string)
| VRef (l : nat)
| VTuple (t : node).

Inductive object :=
| Shmuple (myTuple : list value)
| Arrays (size : Z) (array : list value)
| StringBeans (string_ : value).

Module PyVal.

(** [int] and its subclass [bool] as integers. *)
Definition as_int (v : value) : option Z :=
  match v with
  | VInt z => Some z
  | VBool b => Some (if b then 1 else 0)%Z
  | _ => None
  end.

Definition is_number (v : value) : bool :=
  match v with
  | VInt _ | VBool _ | VFloat _ => true
  | _ => false
  end.

(** Truth value of [v] in [if v:], [while v:], [bool(v)], [not v].  The
    three classes define neither [__bool__] nor [__len__], and an AST tuple
    is never empty. *)
Definition truthy (v : value) : bool :=
  match v with
  | VNone => false
  | VBool b => b
  | VInt z => negb (z =? 0)%Z
  | VFloat f => negb (PrimFloat.eqb f 0%float)
  | VStr s => negb (String.eqb s "")
  | VRef _ => true
  | VTuple _ => true
  end.

(** Integer arithmetic [x op y]; with a [float] operand the result is a
    float, which is not computed here. *)
Definition arith (f : Z -> Z -> outcome value) (x y : value) : outcome value :=
  match as_int x, as_int y with
  | Some a, Some b => f a b
  | _, _ => if is_number x && is_number y then Unmodelled else Raise TypeError
  end.

(** [s * n] for a string [s]. *)
Fixpoint repeat_string (s : string) (n : nat) : string :=
  match n with
  | 0 => ""
  | S n' => s +:+ repeat_string s n'
  end.

Definition add (x y : value) : outcome value :=
  match x, y with
  | VStr a, VStr b => Ok (VStr (a +:+ b))
  | VTuple _, VTuple _ => Unmodelled
  | _, _ => arith (λ a b, Ok (VInt (a + b))) x y
  end.

Definition sub (x y : value) : outcome value :=
  arith (λ a b, Ok (VInt (a - b))) x y.

Definition mul (x y : value) : outcome value :=
  match x, y with
  | VStr a, (VInt _ | VBool _) =>
      Ok (VStr (repeat_string a (Z.to_nat (default 0%Z (as_int y)))))
  | (VInt _ | VBool _), VStr b =>
      Ok (VStr (repeat_string b (Z.to_nat (default 0%Z (as_int x)))))
  | VTuple _, (VInt _ | VBool _) | (VInt _ | VBool _), VTuple _ => Unmodelled
  | _, _ => arith (λ a b, Ok (VInt (a * b))) x y
  end.

(** [x / y]: true division, whose quotient is a float. *)
Definition truediv (x y : value) : outcome value :=
  arith (λ a b, if (b =? 0)%Z then Raise ZeroDivisionError else Unmodelled)
    x y.

(** [x ** y]: an integer for a non-negative integer exponent. *)
Definition pow (x y : value) : outcome value :=
  arith (λ a b,
           if (0 <=? b)%Z then Ok (VInt (a ^ b))
           else if (a =? 0)%Z then Raise ZeroDivisionError
           else Unmodelled) x y.

(** The three-way comparison of a float with an integer.  Python decides
    it on the exact values, without rounding the integer: a finite float is
    [m * 2 ^ e] for two integers.  A NaN compares with nothing. *)
Definition float_compare_int (f : float) (z : Z) : option comparison :=
  match Prim2SF f with
  | S754_nan => None
  | S754_infinity s => Some (if s then Lt else Gt)
  | S754_zero _ => Some (0 ?= z)%Z
  | S754_finite s m e =>
      let v := if s then Z.neg m else Z.pos m in
      Some (if (0 <=? e)%Z then (v * 2 ^ e ?= z)%Z
            else (v ?= z * 2 ^ (- e))%Z)
  end.

(** The ordering comparisons [<], [>], [>=]; [test] reads the three-way
    comparison of the operands, and every comparison with a NaN is false. *)
Definition order (test : comparison -> bool) (x y : value) : outcome bool :=
  match x, y with
  | VStr a, VStr b => Ok (test (String.compare a b))
  | VFloat f, VFloat g =>
      Ok (match PrimFloat.compare f g with
          | FEq => test Eq
          | FLt => test Lt
          | FGt => test Gt
          | FNotComparable => false
          end)
  | VTuple _, VTuple _ => Unmodelled
  | VFloat f, _ =>
      match as_int y with
      | Some b => Ok (match float_compare_int f b with
                      | Some c => test c
                      | None => false
                      end)
      | None => Raise TypeError
      end
  | _, VFloat g =>
      match as_int x with
      | Some a => Ok (match float_compare_int g a with
                      | Some c => test (CompOpp c)
                      | None => false
                      end)
      | None => Raise TypeError
      end
  | _, _ =>
      match as_int x, as_int y with
      | Some a, Some b => Ok (test (a ?= b)%Z)
      | _, _ => Raise TypeError
      end
  end.

Definition lt : value -> value -> outcome bool :=
  order (λ c, match c with Lt => true | _ => false end).
Definition gt : value -> value -> outcome bool :=
  order (λ c, match c with Gt => true | _ => false end).
Definition ge : value -> value -> outcome bool :=
  order (λ c, match c with Lt => false | _ => true end).

(** [x == y].  The three classes inherit [object.__eq__], which compares
    identities; a float and an integer are equal when their exact values
    are.  Comparing two AST tuples is not computed here. *)
Definition float_eq_int (f : float) (z : Z) : bool :=
  match float_compare_int f z with
  | Some Eq => true
  | _ => false
  end.

Definition eq (x y : value) : outcome bool :=
  match x, y with
  | VNone, VNone => Ok true
  | VStr a, VStr b => Ok (String.eqb a b)
  | VRef l, VRef l' => Ok (l =? l')
  | VFloat f, VFloat g => Ok (PrimFloat.eqb f g)
  | VTuple _, VTuple _ => Unmodelled
  | VFloat f, _ =>
      Ok (match as_int y with Some b => float_eq_int f b | None => false end)
  | _, VFloat g =>
      Ok (match as_int x with Some a => float_eq_int g a | None => false end)
  | _, _ =>
      match as_int x, as_int y with
      | Some a, Some b => Ok (a =? b)%Z
      | _, _ => Ok false
      end
  end.

(** [v == s] for a string [s], as in [result == 'BREAK']: only a [str] is
    equal to a [str]. *)
Definition is_str (s : string) (v : value) : bool :=
  match v with
  | VStr s' => String.eqb s' s
  | _ => false
  end.

(** [s.lower()] on ASCII letters. *)
Definition lower_char (c : ascii) : ascii :=
  if (65 <=? Py.code_of c) && (Py.code_of c <=? 90)
  then ascii_of_nat (Py.code_of c + 32) else c.

Fixpoint lower (s : string) : string :=
  match s with
  | EmptyString => EmptyString
  | String c s' => String (lower_char c) (lower s')
  end.

Fixpoint drop_quotes (l : list ascii) : list ascii :=
  match l with
  | c :: l' => if Ascii.eqb c Py.dquote then drop_quotes l' else l
  | [] => []
  end.

(** [s.strip(QUOTE)]: the double quotes at both ends removed. *)
Definition strip_quotes (s : string) : string :=
  string_of_list_ascii
    (rev (drop_quotes (rev (drop_quotes (list_ascii_of_string s))))).

(** *** [int(text)] for a string

    Python strips white space at both ends, reads an optional sign and then
    decimal digits, single underscores being allowed between digits; any
    other character makes it raise [ValueError].  A character outside ASCII
    may count as a digit or as white space, which the Unicode tables decide:
    when the text holds one and no ASCII character that is refused anyway,
    the result is [Unmodelled].  (The limit on the number of digits of the
    newer interpreters is left out.) *)

Definition int_char_ok (c : ascii) : bool :=
  Py.isdigit c || Py.isspace c || Py.char_in c "+-_".

Fixpoint drop_space (l : list ascii) : list ascii :=
  match l with
  | c :: l' => if Py.isspace c then drop_space l' else l
  | [] => []
  end.

Definition digit_value (c : ascii) : Z := Z.of_nat (Py.code_of c - 48).

(** Digits after the first one: [("_"? digit)*]. *)
Fixpoint more_digits (acc : Z) (l : list ascii) : option Z :=
  match l with
  | [] => Some acc
  | c :: l' =>
      if Py.isdigit c then more_digits (acc * 10 + digit_value c) l'
      else if Ascii.eqb c "_" then
        match l' with
        | d :: l'' =>
            if Py.isdigit d then more_digits (acc * 10 + digit_value d) l''
            else None
        | [] => None
        end
      else None
  end.

Definition digits (l : list ascii) : option Z :=
  match l with
  | c :: l' => if Py.isdigit c then more_digits (digit_value c) l' else None
  | [] => None
  end.

Definition signed_digits (l : list ascii) : option Z :=
  match l with
  | c :: l' =>
      if Ascii.eqb c "-" then Z.opp <$> digits l'
      else if Ascii.eqb c "+" then digits l'
      else digits l
  | [] => None
  end.

Definition int_of_string (text : string) : outcome Z :=
  let chars := list_ascii_of_string text in
  if existsb (λ c, Py.is_ascii c && negb (int_char_ok c)) chars
  then Raise ValueError
  else if negb (forallb Py.is_ascii chars) then Unmodelled
  else match signed_digits (rev (drop_space (rev (drop_space chars)))) with
       | Some z => Ok z
       | None => Raise ValueError
       end.

End PyVal.

(** ** The classes of [mathforlanguage.py]

    The methods are those of the source.  [display], and [sortuple] on a
    tuple that holds something else than integers, rest on [repr] and on the
    ordering of mixed values, and are left [Unmodelled]; [display] changes
    no object. *)

Module Lib.

(** A new instance: the heap grows by one object, whose address is fresh. *)
Definition alloc (h : list object) (o : object) : nat * list object :=
  (length h, h ++ [o]).

(** The position [l[i]] reads, negative indices counting from the end. *)
Definition list_index {A} (l : list A) (i : Z) : option nat :=
  let n := Z.of_nat (length l) in
  if (0 <=? i)%Z && (i <? n)%Z then Some (Z.to_nat i)
  else if (- n <=? i)%Z && (i <? 0)%Z then Some (Z.to_nat (i + n))
  else None.

(** [l[index]] for a list or a tuple. *)
Definition subscript (l : list value) (index : value) : outcome value :=
  match PyVal.as_int index with
  | Some i =>
      match list_index l i with
      | Some k => match l !! k with
                  | Some v => Ok v
                  | None => Raise IndexError
                  end
      | None => Raise IndexError
      end
  | None => Raise TypeError
  end.

(** [l[index] = item]. *)
Definition store (l : list value) (index item : value) : outcome (list value) :=
  match PyVal.as_int index with
  | Some i =>
      match list_index l i with
      | Some k => Ok (<[k:=item]> l)
      | None => Raise IndexError
      end
  | None => Raise TypeError
  end.

(** *** [Shmuple] *)

Definition Shmuple_getitem (myTuple : list value) (index : value)
  : outcome value := subscript myTuple index.

(** The loop of [Index] over [range(len(self.myTuple) - 1)], from [c]. *)
Fixpoint Shmuple_Index_from (myTuple : list value) (item : value)
    (c : nat) (steps : nat) : outcome value :=
  match steps with
  | 0 => Ok (VInt (-1))
  | S steps' =>
      v ← Shmuple_getitem myTuple (VInt (Z.of_nat c));
      PyVal.eq v item ≫= λ b : bool,
      if b then Ok (VInt (Z.of_nat c))
      else Shmuple_Index_from myTuple item (S c) steps'
  end.

Definition Shmuple_Index (myTuple : list value) (item : value)
  : outcome value :=
  Shmuple_Index_from myTuple item 0 (length myTuple - 1).

(** [sorted] on a tuple of integers; any other tuple is not sorted here. *)
Fixpoint insert_sorted (z : Z) (l : list Z) : list Z :=
  match l with
  | [] => [z]
  | y :: l' => if (z <? y)%Z then z :: l else y :: insert_sorted z l'
  end.

Definition all_int (l : list value) : option (list Z) :=
  mapM (λ v, match v with VInt z => Some z | _ => None end) l.

Definition Shmuple_sortuple (myTuple : list value) : outcome (list value) :=
  match all_int myTuple with
  | Some zs => Ok (VInt <$> foldr insert_sorted [] zs)
  | None => Unmodelled
  end.

(** *** [Arrays] *)

Definition Arrays_init (args : list value) : outcome object :=
  match args with
  | [] => Ok (Arrays 0 [])
  | [VInt size] => Ok (Arrays size (replicate (Z.to_nat size) (VInt 0)))
  | [_] => Raise ValueError
  | _ => Raise TypeError
  end.

Definition Arrays_check_index (size : Z) (index : value) : outcome value :=
  PyVal.lt index (VInt 0) ≫= λ neg : bool,
  if neg then Raise IndexError
  else PyVal.ge index (VInt size) ≫= λ big : bool,
       if big then Raise IndexError else Ok (VBool true).

Definition Arrays_at (size : Z) (array : list value) (index : value)
  : outcome value :=
  _ ← Arrays_check_index size index;
  subscript array index.

Definition Arrays_insert (size : Z) (array : list value) (index item : value)
  : outcome object :=
  _ ← Arrays_check_index size index;
  array' ← store array index item;
  Ok (Arrays size array').

(** The loop of [remove] over [range(self.size)]: the test [i == index]
    is the only use of [index]. *)
Fixpoint Arrays_remove_loop (array : list value) (index : value)
    (range : list nat) (newarray : list value) : outcome (list value) :=
  match range with
  | [] => Ok newarray
  | i :: range' =>
      PyVal.eq (VInt (Z.of_nat i)) index ≫= λ same : bool,
      if same
      then Arrays_remove_loop array index range' newarray
      else v ← subscript array (VInt (Z.of_nat i));
           Arrays_remove_loop array index range' (newarray ++ [v])
  end.

Definition Arrays_remove (size : Z) (array : list value) (index : value)
  : outcome object :=
  _ ← Arrays_check_index size index;
  if (size =? 0)%Z then Raise IndexError
  else
    newarray ← Arrays_remove_loop array index (seq 0 (Z.to_nat size)) [];
    Ok (Arrays (size - 1) newarray).

(** The copying loop of [add] over [range(self.size)]. *)
Fixpoint Arrays_add_loop (array : list value) (range : list nat)
    (new_array : list value) : outcome (list value) :=
  match range with
  | [] => Ok new_array
  | i :: range' =>
      v ← subscript array (VInt (Z.of_nat i));
      new_array' ← store new_array (VInt (Z.of_nat i)) v;
      Arrays_add_loop array range' new_array'
  end.

Definition Arrays_add (size : Z) (array : list value) (item : value)
  : outcome object :=
  let new_array := replicate (Z.to_nat (size + 1)) (VInt 0) in
  new_array ← Arrays_add_loop array (seq 0 (Z.to_nat size)) new_array;
  new_array ← store new_array (VInt size) item;
  Ok (Arrays (size + 1) new_array).

(** *** [StringBeans] *)

Definition StringBeans_init (args : list value) : outcome object :=
  match args with
  | [] => Ok (StringBeans (VStr ""))
  | [string_] => Ok (StringBeans string_)
  | _ => Raise TypeError
  end.

Definition StringBeans_copy (string_ : value) : object := StringBeans string_.

Definition StringBeans_Conjoin (string_ str2 : value) : outcome object :=
  s ← PyVal.add string_ str2;
  Ok (StringBeans s).

Definition digits : string := "0123456789".
Definition punctuation : string :=
  "!" +:+ String Py.dquote "#$%&'()*+,-./:;<=>?@[\]^_`{|}~".

(** The loop shared by [allUpper] and [allLower]: false as soon as a
    character that is neither a digit nor punctuation lies between [lo] and
    [hi]. *)
Fixpoint no_letter_between (lo hi : nat) (s : string) : bool :=
  match s with
  | EmptyString => true
  | String c s' =>
      if Py.char_in c digits || Py.char_in c punctuation
      then no_letter_between lo hi s'
      else if (lo <=? Py.code_of c) && (Py.code_of c <=? hi) then false
      else no_letter_between lo hi s'
  end.

(** [for char in self.string_]: a string yields its characters, a number,
    [None] or an instance is not iterable. *)
Definition StringBeans_all (lo hi : nat) (string_ : value) : outcome value :=
  match string_ with
  | VStr s => Ok (VBool (no_letter_between lo hi s))
  | VTuple _ => Unmodelled
  | _ => Raise TypeError
  end.

(** *** [Replace]

    [self.string_.__contains__(old)] is the substring test of [str]; a
    number, [None] or an instance has no such attribute, and a string
    refuses an [old] that is not a string. *)

(** [old in s] for two strings. *)
Fixpoint contains (s old : string) : bool :=
  String.prefix old s
  || match s with
     | EmptyString => false
     | String _ s' => contains s' old
     end.

(** The [while i < len(self.string_)] loop of [Replace]. *)
Fixpoint Replace_loop (fuel : nat) (s old : string) (new : value) (i : nat)
    (result : list value) : outcome (list value) :=
  match fuel with
  | 0 => OutOfFuel
  | S fuel =>
      if i <? String.length s then
        if String.eqb (Py.slice s i (i + String.length old)) old
        then Replace_loop fuel s old new (i + String.length old)
               (result ++ [new])
        else match String.get i s with
             | Some c =>
                 Replace_loop fuel s old new (i + 1)
                   (result ++ [VStr (String c EmptyString)])
             | None => Raise IndexError
             end
      else Ok result
  end.

(** [''.join(result)]: every item has to be a string. *)
Fixpoint join (result : list value) : outcome string :=
  match result with
  | [] => Ok EmptyString
  | VStr a :: result' => r ← join result'; Ok (a +:+ r)
  | _ :: _ => Raise TypeError
  end.

(** [Replace(old, new)]: the string returned and the instance afterwards.
    An [old] that is empty makes the loop run for ever on a string that is
    not; otherwise the loop ends within [len(self.string_)] turns. *)
Definition StringBeans_Replace (fuel : nat) (string_ old new : value)
  : outcome (value * object) :=
  match string_ with
  | VStr s =>
      match old with
      | VStr o =>
          if negb (contains s o) then Ok (string_, StringBeans string_)
          else
            result ← Replace_loop fuel s o new 0 [];
            joined ← join result;
            Ok (VStr joined, StringBeans (VStr joined))
      | _ => Raise TypeError
      end
  | VTuple _ => Unmodelled
  | _ => Raise AttributeError
  end.

(** *** [splitBeans] *)

(** [s.split(sep)] for a separator that is not empty, read from the left:
    [piece] is the piece being read and [skip] the number of characters of
    an occurrence of [sep] still to pass. *)
Fixpoint split_from (sep s : string) (skip : nat) (piece : string)
  : list string :=
  match s with
  | EmptyString => [piece]
  | String c s' =>
      match skip with
      | S skip' => split_from sep s' skip' piece
      | 0 =>
          if String.prefix sep s
          then piece :: split_from sep s' (String.length sep - 1) EmptyString
          else split_from sep s' 0 (piece +:+ String c EmptyString)
      end
  end.

Definition split (s sep : string) : list string :=
  split_from sep s 0 EmptyString.

(** The loop [for cell in lis: y.insert(item=cell, index=index)]. *)
Fixpoint splitBeans_fill (lis : list string) (index : Z) (y : object)
  : outcome object :=
  match lis with
  | [] => Ok y
  | cell :: lis' =>
      match y with
      | Arrays size array =>
          y ← Arrays_insert size array (VInt index) (VStr cell);
          splitBeans_fill lis' (index + 1) y
      | _ => Unmodelled
      end
  end.

(** [splitBeans(a)]: the new [Arrays] instance.  [a] is [None] for a split
    on white space, which is not computed here. *)
Definition StringBeans_splitBeans (string_ a : value) : outcome object :=
  match string_ with
  | VStr s =>
      match a with
      | VStr sep =>
          if String.eqb sep EmptyString then Raise ValueError
          else
            let lis := split s sep in
            y ← Arrays_init [VInt (Z.of_nat (length lis))];
            splitBeans_fill lis 0 y
      | VNone => Unmodelled
      | _ => Raise TypeError
      end
  | _ => Raise AttributeError
  end.

(** The turns that decide [Replace]: with more fuel than that the answer
    is the same, and [OutOfFuel] then stands for the loop that never
    ends. *)
Definition Replace_fuel (string_ : value) : nat :=
  match string_ with
  | VStr s => S (String.length s)
  | _ => 0
  end.

(** *** The invariant of [Arrays]

    [self.size == len(self.array)], which [__init__] sets up when the size
    is not negative. *)
Definition Arrays_wf (size : Z) (array : list value) : Prop :=
  Z.of_nat (length array) = size.

(** *** Attribute lookup and calls

    [getattr(obj, name, None)] on an instance: a method of its class, a
    data attribute (which is not callable), or nothing.  Names that start
    with an underscore reach the attributes every object inherits and are
    left out. *)

Inductive attribute := Method | Data (is_none : bool) | Missing | Inherited.

Definition methods (o : object) : list string :=
  match o with
  | Shmuple _ => ["sortuple"; "Add"; "getitem"; "Index"; "Length"]
  | Arrays _ _ =>
      ["check_index"; "length"; "at"; "insert"; "remove"; "add"; "display"]
  | StringBeans _ =>
      ["splitBeans"; "Replace"; "allUpper"; "allLower"; "Conjoin"; "show"]
  end.

Definition getattr (o : object) (name : string) : attribute :=
  if Py.str_in name (methods o) then Method
  else match name with
       | String "_" _ => Inherited
       | _ =>
           match o with
           | Shmuple _ =>
               if String.eqb name "myTuple" then Data false else Missing
           | Arrays _ _ =>
               if Py.str_in name ["size"; "array"] then Data false else Missing
           | StringBeans string_ =>
               if String.eqb name "string_"
               then Data match string_ with VNone => true | _ => false end
               else Missing
           end
       end.

(** The call of the method [name] of the instance at address [l]: the
    value returned and the heap it leaves.  A call with the wrong number of
    arguments raises [TypeError]. *)
Definition call (h : list object) (l : nat) (name : string)
    (args : list value) : outcome (value * list object) :=
  match h !! l with
  | None => Unmodelled
  | Some (Shmuple myTuple) =>
      if String.eqb name "sortuple" then
        match args with
        | [] => newt ← Shmuple_sortuple myTuple;
                let '(l', h') := alloc h (Shmuple newt) in Ok (VRef l', h')
        | _ => Raise TypeError
        end
      else if String.eqb name "Add" then
        match args with
        | [VRef b] =>
            match h !! b with
            | Some (Shmuple other) =>
                let '(l', h') := alloc h (Shmuple (myTuple ++ other)) in
                Ok (VRef l', h')
            | Some _ => Raise AttributeError
            | None => Unmodelled
            end
        | [_] => Raise AttributeError
        | _ => Raise TypeError
        end
      else if String.eqb name "getitem" then
        match args with
        | [index] => v ← Shmuple_getitem myTuple index; Ok (v, h)
        | _ => Raise TypeError
        end
      else if String.eqb name "Index" then
        match args with
        | [item] => v ← Shmuple_Index myTuple item; Ok (v, h)
        | _ => Raise TypeError
        end
      else if String.eqb name "Length" then
        match args with
        | [] => Ok (VInt (Z.of_nat (length myTuple)), h)
        | _ => Raise TypeError
        end
      else Unmodelled
  | Some (Arrays size array) =>
      if String.eqb name "check_index" then
        match args with
        | [index] => v ← Arrays_check_index size index; Ok (v, h)
        | _ => Raise TypeError
        end
      else if String.eqb name "length" then
        match args with
        | [] => Ok (VInt size, h)
        | _ => Raise TypeError
        end
      else if String.eqb name "at" then
        match args with
        | [index] => v ← Arrays_at size array index; Ok (v, h)
        | _ => Raise TypeError
        end
      else if String.eqb name "insert" then
        match args with
        | [index; item] =>
            o ← Arrays_insert size array index item; Ok (VNone, <[l:=o]> h)
        | _ => Raise TypeError
        end
      else if String.eqb name "remove" then
        match args with
        | [index] =>
            o ← Arrays_remove size array index; Ok (VNone, <[l:=o]> h)
        | _ => Raise TypeError
        end
      else if String.eqb name "add" then
        match args with
        | [item] => o ← Arrays_add size array item; Ok (VNone, <[l:=o]> h)
        | _ => Raise TypeError
        end
      else Unmodelled
  | Some (StringBeans string_) =>
      if String.eqb name "Conjoin" then
        match args with
        | [str2] =>
            o ← StringBeans_Conjoin string_ str2; Ok (VNone, <[l:=o]> h)
        | _ => Raise TypeError
        end
      else if String.eqb name "show" then
        match args with
        | [] => Ok (VNone, h)
        | _ => Raise TypeError
        end
      else if String.eqb name "allUpper" then
        match args with
        | [] => v ← StringBeans_all 97 122 string_; Ok (v, h)
        | _ => Raise TypeError
        end
      else if String.eqb name "allLower" then
        match args with
        | [] => v ← StringBeans_all 65 90 string_; Ok (v, h)
        | _ => Raise TypeError
        end
      else if String.eqb name "Replace" then
        match args with
        | [old; new] =>
            StringBeans_Replace (Replace_fuel string_) string_ old new
            ≫= λ '(v, o), Ok (v, <[l:=o]> h)
        | _ => Raise TypeError
        end
      else if String.eqb name "splitBeans" then
        match args with
        | [a] =>
            y ← StringBeans_splitBeans string_ a;
            let '(l', h') := alloc h y in Ok (VRef l', h')
        | _ => Raise TypeError
        end
      else Unmodelled
  end.

End Lib.

(** ** The math helper [mathforlenguage] *)

Module Math.

Definition Add := PyVal.add.
Definition Subtract := PyVal.sub.
Definition Multiply := PyVal.mul.
Definition Divide := PyVal.truediv.
Definition Pow := PyVal.pow.

(** [math.sqrt(x)]: a float for a number. *)
Definition squareRoot (x : value) : outcome value :=
  if PyVal.is_number x then Unmodelled else Raise TypeError.

Definition Min (x y : value) : outcome value :=
  PyVal.lt x y ≫= λ b : bool, Ok (if b then x else y).

Definition Max (x y : value) : outcome value :=
  PyVal.gt x y ≫= λ b : bool, Ok (if b then x else y).

Definition assign (Dict : gmap string value) (x : string) (y : value)
  : gmap string value := <[x:=y]> Dict.

(** [self.Dict[x]] *)
Definition Dict_get (Dict : gmap string value) (x : string) : outcome value :=
  match Dict !! x with
  | Some v => Ok v
  | None => Raise KeyError
  end.

Definition Equal (Dict : gmap string value) (x y : value) : outcome value :=
  match x, y with
  | VInt a, VInt b => Ok (VBool (a =? b)%Z)
  | VInt _, VStr _ => Raise TypeError
  | VStr x, VInt _ =>
      v ← Dict_get Dict x;
      VBool <$> PyVal.eq v y
  | VStr x, VStr y =>
      v ← Dict_get Dict x;
      w ← Dict_get Dict y;
      VBool <$> PyVal.eq v w
  | _, _ => Ok VNone
  end.

Definition notEqual (Dict : gmap string value) (x y : value)
  : outcome value :=
  r ← Equal Dict x y;
  Ok (VBool (negb (PyVal.truthy r))).

Definition greater (x y : value) : outcome value := VBool <$> PyVal.gt x y.
Definition less (x y : value) : outcome value := VBool <$> PyVal.lt x y.

Definition Or (x y : value) : value := if PyVal.truthy x then x else y.
Definition And (x y : value) : value := if PyVal.truthy x then y else x.

End Math.

(** ** Interpreter *)

(** The fields of an [Interpreter] instance, with the dictionary of its
    [mathforlenguage] helper ([self.math.Dict]) and the heap that holds the
    instances its values refer to. *)
Record state := State {
  variables : gmap string value;
  Dict : gmap string value;
  current_statement : node;
  heap : list object
}.

Definition set_variables (f : gmap string value -> gmap string value)
    (st : state) : state :=
  State (f (variables st)) (Dict st) (current_statement st) (heap st).
Definition set_Dict (f : gmap string value -> gmap string value)
    (st : state) : state :=
  State (variables st) (f (Dict st)) (current_statement st) (heap st).
Definition set_current_statement (n : node) (st : state) : state :=
  State (variables st) (Dict st) n (heap st).
Definition set_heap (h : list object) (st : state) : state :=
  State (variables st) (Dict st) (current_statement st) h.

(** [Interpreter.__init__]: [current_statement] starts as [None]. *)
Definition init : state := State ∅ ∅ PyNone [].

Module Interpreter.

Definition to_bool (v : value) : bool :=
  match v with
  | VBool b => b
  | VInt _ | VFloat _ => PyVal.truthy v
  | VStr s => String.eqb (PyVal.lower s) "true"
  | _ => PyVal.truthy v
  end.

Definition apply_operator (Dict : gmap string value) (op : string)
    (left_ right_ : value) : outcome value :=
  if String.eqb op "+" then Math.Add left_ right_
  else if String.eqb op "-" then Math.Subtract left_ right_
  else if String.eqb op "*" then Math.Multiply left_ right_
  else if String.eqb op "/" then Math.Divide left_ right_
  else if String.eqb op "^" then Math.Pow left_ right_
  else if String.eqb op "==" then Math.Equal Dict left_ right_
  else if String.eqb op "!=" then Math.notEqual Dict left_ right_
  else if String.eqb op "<" then Math.less left_ right_
  else if String.eqb op ">" then Math.greater left_ right_
  else if String.eqb op "&&" then
    Ok (Math.And (VBool (to_bool left_)) (VBool (to_bool right_)))
  else if String.eqb op "||" then
    Ok (Math.Or (VBool (to_bool left_)) (VBool (to_bool right_)))
  else Ok VNone.

Definition logical_ops : list string := ["&&"; "||"].
Definition binary_ops : list string :=
  ["+"; "-"; "*"; "/"; "=="; "<"; ">"; "^"; "!="].

(** The functions [evaluate_expression] calls and that call it back on
    their arguments, over the evaluator they call. *)
Section Calls.

Variable evaluate_expression : node -> state -> outcome (value * state).

(** [[self.evaluate_expression(arg) for arg in args]] *)
Fixpoint evaluate_args (args : list node) (st : state)
  : outcome (list value * state) :=
  match args with
  | [] => Ok ([], st)
  | arg :: args' =>
      '(v, st) ← evaluate_expression arg st;
      '(vs, st) ← evaluate_args args' st;
      Ok (v :: vs, st)
  end.

(** [self.evaluate_expression(args[i])] for [i] = 0 and then 1. *)
Definition evaluate_first (args : list node) (st : state)
  : outcome (value * state) :=
  match args with
  | arg :: _ => evaluate_expression arg st
  | [] => Raise IndexError
  end.

Definition evaluate_second (args : list node) (st : state)
  : outcome (value * state) :=
  match args with
  | _ :: arg :: _ => evaluate_expression arg st
  | _ => Raise IndexError
  end.

(** A new instance of [class_name] built from evaluated arguments. *)
Definition instantiate (class_name : string) (vs : list value) (st : state)
  : outcome (value * state) :=
  o ← (if String.eqb class_name "Shmuple" then Ok (Shmuple vs)
       else if String.eqb class_name "Arrays" then Lib.Arrays_init vs
       else if String.eqb class_name "StringBeans" then Lib.StringBeans_init vs
       else Raise NameError);
  let '(l, h) := Lib.alloc (heap st) o in
  Ok (VRef l, set_heap h st).

Definition execute_function_call (func_name : string) (args : list node)
    (st : state) : outcome (value * state) :=
  if String.eqb func_name "Shmuple" then
    '(vs, st) ← evaluate_args args st;
    instantiate "Shmuple" vs st
  else if String.eqb func_name "Arrays" then
    '(v, st) ← evaluate_first args st;
    instantiate "Arrays" [v] st
  else if String.eqb func_name "StringBeans" then
    '(v, st) ← evaluate_first args st;
    instantiate "StringBeans" [v] st
  else if String.eqb func_name "squareRoot" then
    '(x, st) ← evaluate_first args st;
    v ← Math.squareRoot x;
    Ok (v, st)
  else if String.eqb func_name "min" then
    '(x, st) ← evaluate_first args st;
    '(y, st) ← evaluate_second args st;
    v ← Math.Min x y;
    Ok (v, st)
  else if String.eqb func_name "max" then
    '(x, st) ← evaluate_first args st;
    '(y, st) ← evaluate_second args st;
    v ← Math.Max x y;
    Ok (v, st)
  else Raise NameError.

Definition execute_class_instantiation (class_name : string)
    (args : list node) (st : state) : outcome (value * state) :=
  '(evaluated_args, st) ← evaluate_args args st;
  instantiate class_name evaluated_args st.

(** The end of [execute_method_call]: the result is stored when the
    statement being executed is an assignment.  (The two [print] branches
    change nothing of the state.) *)
Definition store_result (result : value) (st : state) : state :=
  match current_statement st with
  | ASSIGN var_name _ => set_variables (insert var_name result) st
  | _ => st
  end.

Definition execute_method_call (obj_name method_name : string)
    (args : list node) (st : state) : outcome (value * state) :=
  match variables st !! obj_name with
  | None | Some VNone => Raise NameError
  | Some (VRef l) =>
      match heap st !! l with
      | None => Unmodelled
      | Some o =>
          match Lib.getattr o method_name with
          | Lib.Missing | Lib.Data true => Raise AttributeError
          | Lib.Inherited => Unmodelled
          | Lib.Data false =>
              '(_, _) ← evaluate_args args st;
              Raise TypeError
          | Lib.Method =>
              '(evaluated_args, st) ← evaluate_args args st;
              '(result, h) ← Lib.call (heap st) l method_name evaluated_args;
              Ok (result, store_result result (set_heap h st))
          end
      end
  | Some _ => Unmodelled
  end.

End Calls.

Fixpoint evaluate_expression (expr : node) (st : state) {struct expr}
  : outcome (value * state) :=
  match expr with
  | BINOP op l r =>
      if Py.str_in op logical_ops then
        '(lv, st) ← evaluate_expression l st;
        '(rv, st) ← evaluate_expression r st;
        v ← apply_operator (Dict st) op
              (VBool (to_bool lv)) (VBool (to_bool rv));
        Ok (v, st)
      else if Py.str_in op binary_ops then
        '(lv, st) ← evaluate_expression l st;
        '(rv, st) ← evaluate_expression r st;
        v ← apply_operator (Dict st) op lv rv;
        Ok (v, st)
      else Unmodelled
  | CALL func_name args =>
      execute_function_call evaluate_expression func_name args st
  | METHOD_CALL obj_name method_name args =>
      execute_method_call evaluate_expression obj_name method_name args st
  | ID name => Ok (default (VInt 0) (variables st !! name), st)
  | NUMBER text => z ← PyVal.int_of_string text; Ok (VInt z, st)
  | BOOL text => Ok (VBool (String.eqb text "True"), st)
  | CHAR text => Ok (VStr (PyVal.strip_quotes text), st)
  | PyNone => Ok (VNone, st)
  | _ => Ok (VTuple expr, st)
  end.

(** [var_name in self.variables] *)
Definition defined (var_name : string) (st : state) : bool :=
  bool_decide (is_Some (variables st !! var_name)).

(** [self.variables[var_name]] where the source has tested the name. *)
Definition lookup_variable (var_name : string) (st : state)
  : outcome (value * state) :=
  match variables st !! var_name with
  | Some v => Ok (v, st)
  | None => Raise NameError
  end.

(** [del self.variables[var_name]] *)
Definition del (var_name : string) (st : state) : outcome state :=
  match variables st !! var_name with
  | Some _ => Ok (set_variables (delete var_name) st)
  | None => Raise KeyError
  end.

(** The strings among the components of a statement tuple: what
    [name in statement] compares [name] with (a string is never equal to a
    nested tuple or list). *)
Definition tuple_strings (t : node) : list string :=
  match t with
  | PyNone => []
  | NUMBER text => ["NUMBER"; text]
  | BOOL text => ["BOOL"; text]
  | ID name => ["ID"; name]
  | CHAR text => ["CHAR"; text]
  | BINOP op _ _ => [op]
  | CALL func_name _ => ["CALL"; func_name]
  | METHOD_CALL obj_name method_name _ => ["METHOD_CALL"; obj_name; method_name]
  | CLASS_INST class_name _ => ["CLASS_INST"; class_name]
  | COMMENT text => ["COMMENT"; text]
  | BREAK => ["BREAK"]
  | CONTINUE => ["CONTINUE"]
  | ASSIGN var_name _ => ["ASSIGN"; var_name]
  | IF _ _ => ["IF"]
  | IF_ELSE _ _ _ => ["IF_ELSE"]
  | WHILE _ _ => ["WHILE"]
  | FOR _ _ _ _ => ["FOR"]
  end.

(** [var_name in self.current_statement]; [None] is not iterable. *)
Definition in_current_statement (var_name : string) (st : state)
  : outcome bool :=
  match current_statement st with
  | PyNone => Raise TypeError
  | t => Ok (Py.str_in var_name (tuple_strings t))
  end.

(** The value of the right-hand side of an assignment. *)
Definition assignment_value (expr : node) (st : state)
  : outcome (value * state) :=
  match expr with
  | CLASS_INST class_name args =>
      execute_class_instantiation evaluate_expression class_name args st
  | ID var_name_expr => lookup_variable var_name_expr st
  | _ => evaluate_expression expr st
  end.

(** The end of [execute_assignment]: the value (a copy of it when it is a
    [StringBeans]) goes to [self.variables], the value itself to the
    helper's dictionary. *)
Definition store_assignment (var_name : string) (v : value) (st : state)
  : state :=
  let st :=
    match v with
    | VRef l =>
        match heap st !! l with
        | Some (StringBeans string_) =>
            let '(l', h) :=
              Lib.alloc (heap st) (Lib.StringBeans_copy string_) in
            set_variables (insert var_name (VRef l')) (set_heap h st)
        | _ => set_variables (insert var_name v) st
        end
    | _ => set_variables (insert var_name v) st
    end in
  set_Dict (λ d, Math.assign d var_name v) st.

Definition execute_assignment (var_name : string) (expr : node) (st : state)
  : outcome state :=
  '(v, st) ← assignment_value expr st;
  Ok (store_assignment var_name v st).

(** [should_break] and [should_continue] at the end of one pass over a loop
    body. *)
Inductive signal := Running | Break | Continue.

(** [result == 'BREAK'], [result == 'CONTINUE'] *)
Definition signal_of (result : value) : signal :=
  if PyVal.is_str "BREAK" result then Break
  else if PyVal.is_str "CONTINUE" result then Continue
  else Running.

(** The targets of the assignment statements of a block itself (not of the
    blocks nested in it). *)
Definition assignment_targets (body : list node) : gset string :=
  list_to_set (omap (λ stmt, match stmt with
                             | ASSIGN var_name _ => Some var_name
                             | _ => None
                             end) body).

(** The block statements, over the [execute_statement] they call. *)
Section Blocks.

Variable execute_statement : node -> state -> outcome (value * state).

(** The loop over the statements of the branch [execute_if_else] runs:
    [Some result] when it returns early, with the names assigned so far. *)
Fixpoint run_branch (body : list node) (assigned : gset string) (st : state)
  : outcome (option value * gset string * state) :=
  match body with
  | [] => Ok (None, assigned, st)
  | stmt :: body' =>
      let assigned :=
        match stmt with
        | ASSIGN var_name _ => {[var_name]} ∪ assigned
        | _ => assigned
        end in
      '(result, st) ← execute_statement stmt st;
      if PyVal.is_str "BREAK" result || PyVal.is_str "CONTINUE" result
      then Ok (Some result, assigned, st)
      else run_branch body' assigned st
  end.

(** One of the two clean-up loops of [execute_if_else]. *)
Fixpoint cleanup (names : list string) (other : gset string) (st : state)
  : outcome state :=
  match names with
  | [] => Ok st
  | var_name :: names' =>
      in_current_statement var_name st ≫= λ used : bool,
      if negb used && negb (bool_decide (var_name ∈ other))
      then st ← del var_name st; cleanup names' other st
      else cleanup names' other st
  end.

Definition execute_if_else (statement : node) (st : state)
  : outcome (value * state) :=
  match
    match statement with
    | IF condition if_body => Some (condition, if_body, [])
    | IF_ELSE condition if_body else_body =>
        Some (condition, if_body, else_body)
    | _ => None
    end
  with
  | None => Unmodelled
  | Some (condition, if_body, else_body) =>
      '(c, st) ← evaluate_expression condition st;
      '(early, if_variables, else_variables, st) ←
        (if PyVal.truthy c then
           '(early, if_variables, st) ← run_branch if_body ∅ st;
           Ok (early, if_variables, ∅, st)
         else
           '(early, else_variables, st) ← run_branch else_body ∅ st;
           Ok (early, ∅, else_variables, st));
      match early with
      | Some result => Ok (result, st)
      | None =>
          st ← cleanup (elements if_variables) else_variables st;
          st ← cleanup (elements else_variables) if_variables st;
          Ok (VNone, st)
      end
  end.

(** [if var_name not in self.variables: loop_variables.add(var_name)] *)
Definition track (stmt : node) (loop_variables : gset string) (st : state)
  : gset string :=
  match stmt with
  | ASSIGN var_name _ =>
      if defined var_name st then loop_variables
      else {[var_name]} ∪ loop_variables
  | _ => loop_variables
  end.

(** One pass of [execute_while] over the body. *)
Fixpoint while_body (body : list node) (loop_variables : gset string)
    (st : state) : outcome (signal * gset string * state) :=
  match body with
  | [] => Ok (Running, loop_variables, st)
  | stmt :: body' =>
      match stmt with
      | BREAK => Ok (Break, loop_variables, st)
      | CONTINUE => Ok (Continue, loop_variables, st)
      | COMMENT _ => while_body body' loop_variables st
      | IF _ _ | IF_ELSE _ _ _ =>
          '(result, st) ← execute_if_else stmt st;
          match signal_of result with
          | Running => while_body body' loop_variables st
          | s => Ok (s, loop_variables, st)
          end
      | _ =>
          let loop_variables := track stmt loop_variables st in
          '(result, st) ← execute_statement stmt st;
          match signal_of result with
          | Running => while_body body' loop_variables st
          | s => Ok (s, loop_variables, st)
          end
      end
  end.

Fixpoint while_loop (fuel : nat) (condition : node) (body : list node)
    (loop_variables : gset string) (st : state)
  : outcome (gset string * state) :=
  match fuel with
  | 0 => OutOfFuel
  | S fuel =>
      '(c, st) ← evaluate_expression condition st;
      if PyVal.truthy c then
        '(s, loop_variables, st) ← while_body body loop_variables st;
        match s with
        | Break => Ok (loop_variables, st)
        | _ => while_loop fuel condition body loop_variables st
        end
      else Ok (loop_variables, st)
  end.

(** [if var_name in self.variables: del self.variables[var_name]] for each
    name. *)
Definition forget (names : list string) (st : state) : state :=
  set_variables (λ m, foldr delete m names) st.

Definition execute_while (fuel : nat) (condition : node) (body : list node)
    (st : state) : outcome state :=
  '(loop_variables, st) ← while_loop fuel condition body ∅ st;
  Ok (forget (elements loop_variables) st).

(** One pass of [execute_for] over the body. *)
Fixpoint for_body (body : list node) (loop_variables : gset string)
    (st : state) : outcome (signal * gset string * state) :=
  match body with
  | [] => Ok (Running, loop_variables, st)
  | stmt :: body' =>
      match stmt with
      | BREAK => Ok (Break, loop_variables, st)
      | CONTINUE => Ok (Continue, loop_variables, st)
      | IF _ _ | IF_ELSE _ _ _ =>
          '(result, st) ← execute_if_else stmt st;
          match signal_of result with
          | Running => for_body body' loop_variables st
          | s => Ok (s, loop_variables, st)
          end
      | _ =>
          let loop_variables := track stmt loop_variables st in
          '(result, st) ← execute_statement stmt st;
          match signal_of result with
          | Running => for_body body' loop_variables st
          | s => Ok (s, loop_variables, st)
          end
      end
  end.

(** The [while] loop of [execute_for]: after a pass that did not break, the
    increment runs and the condition is read again. *)
Fixpoint for_loop (fuel : nat) (condition increment : node)
    (body : list node) (loop_variables : gset string) (st : state)
  : outcome (gset string * state) :=
  match fuel with
  | 0 => OutOfFuel
  | S fuel =>
      '(c, st) ← evaluate_expression condition st;
      if PyVal.truthy c then
        '(s, loop_variables, st) ← for_body body loop_variables st;
        match s with
        | Break => Ok (loop_variables, st)
        | _ =>
            '(_, st) ← execute_statement increment st;
            for_loop fuel condition increment body loop_variables st
        end
      else Ok (loop_variables, st)
  end.

(** [del self.variables[var_name]] for each name. *)
Fixpoint del_each (names : list string) (st : state) : outcome state :=
  match names with
  | [] => Ok st
  | var_name :: names' => st ← del var_name st; del_each names' st
  end.

Definition execute_for (fuel : nat) (init condition increment : node)
    (body : list node) (st : state) : outcome state :=
  match init with
  | ASSIGN loop_counter _ =>
      let loop_counter_exists := defined loop_counter st in
      '(_, st) ← execute_statement init st;
      '(loop_variables, st) ←
        for_loop fuel condition increment body ∅ st;
      st ← del_each (elements loop_variables) st;
      if loop_counter_exists then Ok st else del loop_counter st
  | _ => Unmodelled
  end.

End Blocks.

Fixpoint execute_statement (fuel : nat) (statement : node) (st : state)
  : outcome (value * state) :=
  match fuel with
  | 0 => OutOfFuel
  | S fuel =>
      let st := set_current_statement statement st in
      match statement with
      | ASSIGN var_name expr =>
          st ← execute_assignment var_name expr st; Ok (VNone, st)
      | IF_ELSE _ _ _ =>
          '(_, st) ← execute_if_else (execute_statement fuel) statement st;
          Ok (VNone, st)
      | WHILE condition body =>
          st ← execute_while (execute_statement fuel) fuel condition body st;
          Ok (VNone, st)
      | FOR init_ condition increment body =>
          st ← execute_for (execute_statement fuel) fuel
                 init_ condition increment body st;
          Ok (VNone, st)
      | METHOD_CALL obj_name method_name args =>
          execute_method_call evaluate_expression
            obj_name method_name args st
      | CLASS_INST class_name args =>
          execute_class_instantiation evaluate_expression
            class_name args st
      | ID var_name => lookup_variable var_name st
      | BREAK => Ok (VStr "BREAK", st)
      | CONTINUE => Ok (VStr "CONTINUE", st)
      | COMMENT _ => Ok (VNone, st)
      | PyNone => Raise TypeError
      | _ => Ok (VNone, st)
      end
  end.

Fixpoint interpret (fuel : nat) (ast : list node) (st : state)
  : outcome state :=
  match ast with
  | [] => Ok st
  | PyNone :: ast' => interpret fuel ast' st
  | statement :: ast' =>
      '(_, st) ← execute_statement fuel statement st;
      interpret fuel ast' st
  end.

End Interpreter.

(** Lexer, parser and interpreter in a row, on a new interpreter. *)
Definition run (fuel : nat) (code : string) : outcome state :=
  tokens ← Lexer.tokenize fuel code;
  ast ← Parser.parse tokens fuel;
  Interpreter.interpret fuel ast init.

(** ** Notions of the statements

    What the properties below are stated with; none of it is part of the
    program. *)

(** A list of integers in ascending order. *)
Definition ascending (l : list Z) : Prop :=
  ∀ i j a b, i ≤ j → l !! i = Some a → l !! j = Some b → (a ≤ b)%Z.

(** The text [s] with [new] in the place of every character [a]. *)
Fixpoint substitute (a : ascii) (new s : string) : string :=
  match s with
  | EmptyString => EmptyString
  | String c s' =>
      (if Ascii.eqb c a then new else String c EmptyString)
      +:+ substitute a new s'
  end.

(** [sep.join(pieces)] *)
Fixpoint join_with (sep : string) (pieces : list string) : string :=
  match pieces with
  | [] => EmptyString
  | piece :: pieces' =>
      piece +:+ match pieces' with
                | [] => EmptyString
                | _ :: _ => sep +:+ join_with sep pieces'
                end
  end.

(** What evaluating an expression may change between [st] and [st']: the
    heap may grow, variables may become bound, and the variable that the
    assignment in [current_statement] names may change its value. *)
Definition evaluation_frame (st st' : state) : Prop :=
  Dict st' = Dict st
  ∧ current_statement st' = current_statement st
  ∧ length (heap st) ≤ length (heap st')
  ∧ (∀ x, is_Some (variables st !! x) → is_Some (variables st' !! x))
  ∧ (∀ x, (∀ e, current_statement st ≠ ASSIGN x e) →
          variables st' !! x = variables st !! x).

(** The evaluator [ev] keeps to [evaluation_frame] on the expression [a]. *)
Definition keeps_frame (ev : node → state → outcome (value * state))
    (a : node) : Prop :=
  ∀ st v st', ev a st = Ok (v, st') → evaluation_frame st st'.

(** What no statement undoes between [st] and [st']: the keys of the
    helper's dictionary and the objects of the heap. *)
Definition statement_frame (st st' : state) : Prop :=
  (∀ x, is_Some (Dict st !! x) → is_Some (Dict st' !! x))
  ∧ length (heap st) ≤ length (heap st').

Definition is_assignment (stmt : node) : Prop :=
  match stmt with ASSIGN _ _ => True | _ => False end.

(** Inside a loop that started with the variables [bound] and has collected
    the names [lv]: the variables bound at the start still are, every bound
    variable was bound at the start or is collected, no collected name was
    bound at the start, and the assignment in [current_statement], when
    there is one, names a variable of one of the two kinds. *)
Definition scope_invariant (bound : string → Prop) (lv : gset string)
    (st : state) : Prop :=
  (∀ x, bound x → is_Some (variables st !! x))
  ∧ (∀ x, is_Some (variables st !! x) → bound x ∨ x ∈ lv)
  ∧ (∀ x, x ∈ lv → ¬ bound x)
  ∧ (∀ y e, current_statement st = ASSIGN y e → bound y ∨ y ∈ lv).

(** The same between two statements of the body, where every collected name
    is bound. *)
Definition loop_invariant (bound : string → Prop) (lv : gset string)
    (st : state) : Prop :=
  scope_invariant bound lv st ∧ ∀ x, x ∈ lv → is_Some (variables st !! x).

(** A text of ASCII characters. *)
Definition ascii_text (s : string) : bool :=
  forallb Py.is_ascii (list_ascii_of_string s).

(** The statements for which [execute_statement] has no [return]: all but
    a method call, an instantiation, a name, [break] and [continue]. *)
Definition returns_None (stmt : node) : bool :=
  match stmt with
  | METHOD_CALL _ _ _ | CLASS_INST _ _ | ID _ | BREAK | CONTINUE => false
  | _ => true
  end.

(** * Properties *)

(** Follows a computation that returned [Ok] through its binds and tests,
    replacing each recursive call by the same call with more fuel. *)
Ltac follow_parse H lemmas :=
  repeat
    (cbn [mbind outcome_bind] in H |- *;
     match type of H with
     | (let '(_, _) := ?p in _) = Ok _ => destruct p
     | (if ?b then _ else _) = Ok _ => destruct b
     | (mbind _ ?m) = Ok _ =>
         let E := fresh "E" in
         destruct m eqn:E; [|discriminate H..];
         try (lemmas E)
     end).

(** ** The helper's equality *)

(** C7: [Equal] compares two integers by value, refuses an integer followed
    by a string with [TypeError], and reads a string first operand (and a
    string second operand with it) as a key of the helper's dictionary,
    whose values it compares with [==]: the result is [True] when the
    values are equal and [False] when they are not, whatever the two texts
    are, and a name the dictionary lacks raises [KeyError]. *)
Theorem Equal_cases :
  (∀ Dict a b, Math.Equal Dict (VInt a) (VInt b) = Ok (VBool (a =? b)%Z))
  ∧ (∀ Dict a s, Math.Equal Dict (VInt a) (VStr s) = Raise TypeError)
  ∧ (∀ Dict x b,
       Math.Equal Dict (VStr x) (VInt b)
       = match Dict !! x with
         | Some v => VBool <$> PyVal.eq v (VInt b)
         | None => Raise KeyError
         end)
  ∧ (∀ Dict x y,
       Math.Equal Dict (VStr x) (VStr y)
       = match Dict !! x, Dict !! y with
         | Some v, Some w => VBool <$> PyVal.eq v w
         | _, _ => Raise KeyError
         end)
  ∧ Math.Equal (<["a":=VInt 1]> (<["b":=VInt 1]> ∅)) (VStr "a") (VStr "b")
    = Ok (VBool true)
  ∧ Math.Equal (<["a":=VInt 7]> ∅) (VStr "a") (VInt 7) = Ok (VBool true)
  ∧ Math.Equal ∅ (VStr "a") (VStr "a") = Raise KeyError
  ∧ (∀ Dict x a b,
       Dict !! x = Some (VInt a) →
       Math.Equal Dict (VStr x) (VInt b) = Ok (VBool (a =? b)%Z))
  ∧ (∀ Dict x s b,
       Dict !! x = Some (VStr s) →
       Math.Equal Dict (VStr x) (VInt b) = Ok (VBool false))
  ∧ (∀ Dict x y a b,
       Dict !! x = Some (VInt a) → Dict !! y = Some (VInt b) →
       Math.Equal Dict (VStr x) (VStr y) = Ok (VBool (a =? b)%Z))
  ∧ (∀ Dict x y s t,
       Dict !! x = Some (VStr s) → Dict !! y = Some (VStr t) →
       Math.Equal Dict (VStr x) (VStr y) = Ok (VBool (String.eqb s t)))
  ∧ (∀ Dict x y a t,
       Dict !! x = Some (VInt a) → Dict !! y = Some (VStr t) →
       Math.Equal Dict (VStr x) (VStr y) = Ok (VBool false)
       ∧ Math.Equal Dict (VStr y) (VStr x) = Ok (VBool false))
  ∧ Math.Equal (<["a":=VInt 1]> (<["b":=VInt 2]> ∅)) (VStr "a") (VStr "b")
    = Ok (VBool false)
  ∧ Math.Equal (<["a":=VInt 7]> ∅) (VStr "a") (VInt 8) = Ok (VBool false)
  ∧ Math.Equal (<["a":=VStr "b"]> (<["b":=VStr "a"]> ∅)) (VStr "a") (VStr "b")
    = Ok (VBool false)
  ∧ Math.Equal (<["a":=VStr "u"]> (<["b":=VStr "u"]> ∅)) (VStr "a") (VStr "b")
    = Ok (VBool true).
Proof.
  split_and!; try reflexivity.
  - intros Dict x b. unfold Math.Equal, Math.Dict_get.
    destruct (Dict !! x); reflexivity.
  - intros Dict x y. unfold Math.Equal, Math.Dict_get.
    destruct (Dict !! x); [|reflexivity].
    destruct (Dict !! y); reflexivity.
  - intros Dict x a b Hx. unfold Math.Equal, Math.Dict_get. rewrite Hx.
    reflexivity.
  - intros Dict x s b Hx. unfold Math.Equal, Math.Dict_get. rewrite Hx.
    reflexivity.
  - intros Dict x y a b Hx Hy. unfold Math.Equal, Math.Dict_get.
    rewrite Hx, Hy. reflexivity.
  - intros Dict x y s t Hx Hy. unfold Math.Equal, Math.Dict_get.
    rewrite Hx, Hy. reflexivity.
  - intros Dict x y a t Hx Hy. unfold Math.Equal, Math.Dict_get.
    rewrite Hx, Hy. split; reflexivity.
Qed.

(** C10: on two booleans, and on two floats, [Equal] falls through its four
    tests and returns [None], which is not truthy, so [notEqual] returns
    [True]; the language's [==] on two booleans therefore yields [None]
    and its [!=] yields [True], whatever the two values are. *)
Theorem Equal_None_on_bools_and_floats :
  (∀ Dict b1 b2, Math.Equal Dict (VBool b1) (VBool b2) = Ok VNone)
  ∧ (∀ Dict f1 f2, Math.Equal Dict (VFloat f1) (VFloat f2) = Ok VNone)
  ∧ PyVal.truthy VNone = false
  ∧ (∀ Dict b1 b2, Math.notEqual Dict (VBool b1) (VBool b2) = Ok (VBool true))
  ∧ (∀ Dict f1 f2,
       Math.notEqual Dict (VFloat f1) (VFloat f2) = Ok (VBool true))
  ∧ (∀ Dict b1 b2,
       Interpreter.apply_operator Dict "==" (VBool b1) (VBool b2) = Ok VNone
       ∧ Interpreter.apply_operator Dict "!=" (VBool b1) (VBool b2)
         = Ok (VBool true))
  ∧ (∀ st t1 t2,
       Interpreter.evaluate_expression (BINOP "==" (BOOL t1) (BOOL t2)) st
       = Ok (VNone, st))
  ∧ (∀ st t1 t2,
       Interpreter.evaluate_expression (BINOP "!=" (BOOL t1) (BOOL t2)) st
       = Ok (VBool true, st)).
Proof. split_and!; try reflexivity. intros; split; reflexivity. Qed.

(** ** Undefined names *)

(** C8: for a name the Environment does not bind, the statement made of
    that identifier raises [NameError], while the same identifier read as
    an operand by [evaluate_expression] evaluates to 0 and leaves the state
    as it is, so that [name + 1] evaluates to 1 and [y = name + 1] binds
    [y] to 1.  (An assignment whose whole right-hand side is the identifier
    does not go through [evaluate_expression]: [execute_assignment] tests
    the name itself and raises [NameError].) *)
Theorem undefined_name_asymmetry (name : string) (st : state) (fuel : nat) :
  variables st !! name = None →
  Interpreter.execute_statement (S fuel) (ID name) st = Raise NameError
  ∧ Interpreter.evaluate_expression (ID name) st = Ok (VInt 0, st)
  ∧ Interpreter.evaluate_expression (BINOP "+" (ID name) (NUMBER "1")) st
    = Ok (VInt 1, st)
  ∧ (∀ y, ∃ st',
       Interpreter.execute_statement (S fuel)
         (ASSIGN y (BINOP "+" (ID name) (NUMBER "1"))) st = Ok (VNone, st')
       ∧ variables st' !! y = Some (VInt 1))
  ∧ (∀ y,
       Interpreter.execute_statement (S fuel) (ASSIGN y (ID name)) st
       = Raise NameError).
Proof.
  intros Hnone. split_and!.
  - simpl. unfold Interpreter.lookup_variable. simpl. rewrite Hnone.
    reflexivity.
  - simpl. rewrite Hnone. reflexivity.
  - simpl. rewrite Hnone. reflexivity.
  - intros y. eexists. split.
    + simpl. unfold Interpreter.execute_assignment. simpl. rewrite Hnone.
      reflexivity.
    + simpl. apply lookup_insert_eq.
  - intros y. simpl. unfold Interpreter.execute_assignment. simpl.
    unfold Interpreter.lookup_variable. simpl. rewrite Hnone. reflexivity.
Qed.

Lemma undefined_name_asymmetry_witness :
  variables init !! "ghost" = None
  ∧ Interpreter.execute_statement 1 (ID "ghost") init = Raise NameError
  ∧ Interpreter.evaluate_expression (ID "ghost") init = Ok (VInt 0, init).
Proof.
  split; [reflexivity|].
  destruct (undefined_name_asymmetry "ghost" init 0 eq_refl) as (H1 & H2 & _).
  split; assumption.
Defined.

(** ** Numeric literals *)

Lemma int_of_string_refuses (c : ascii) (text : string) :
  Py.is_ascii c = true → PyVal.int_char_ok c = false →
  Py.char_in c text = true →
  PyVal.int_of_string text = Raise ValueError.
Proof.
  intros Hascii Hbad Hin. unfold PyVal.int_of_string.
  assert (existsb (λ c, Py.is_ascii c && negb (PyVal.int_char_ok c))
            (list_ascii_of_string text) = true) as ->; [|reflexivity].
  induction text as [|d text IH]; simpl in *; [discriminate|].
  apply orb_true_iff in Hin as [Heq|Hin].
  - apply Ascii.eqb_eq in Heq. subst d. rewrite Hascii, Hbad. reflexivity.
  - rewrite (IH Hin). apply orb_true_r.
Qed.

(** C9: the lexer makes one NUMBER token of digits and decimal points, but
    a NUMBER node whose text holds a decimal point raises [ValueError]
    when it is evaluated, and the error is not caught by the assignment
    that evaluates it nor further up; whenever a NUMBER node does evaluate,
    its value is an integer, never a float. *)
Theorem number_with_point_raises (text : string) (st : state) :
  Py.char_in "." text = true →
  Interpreter.evaluate_expression (NUMBER text) st = Raise ValueError
  ∧ (∀ fuel x,
       Interpreter.execute_statement (S fuel) (ASSIGN x (NUMBER text)) st
       = Raise ValueError)
  ∧ (∀ text' v st',
       Interpreter.evaluate_expression (NUMBER text') st = Ok (v, st') →
       ∃ z, v = VInt z)
  ∧ Lexer.tokenize 6 "x=1.5~"
    = Ok [("ID", "x"); ("ASSIGN", "="); ("NUMBER", "1.5"); ("END", "~")]
  ∧ run 6 "x=1.5~" = Raise ValueError.
Proof.
  intros Hpoint.
  assert (PyVal.int_of_string text = Raise ValueError) as Hint
    by (eapply int_of_string_refuses; [| |exact Hpoint]; reflexivity).
  split_and!.
  - simpl. rewrite Hint. reflexivity.
  - intros fuel x. simpl. unfold Interpreter.execute_assignment. simpl.
    rewrite Hint. reflexivity.
  - intros text' v st' H. simpl in H.
    destruct (PyVal.int_of_string text') as [z| | |]; simpl in H;
      try discriminate.
    injection H as <- _. eauto.
  - vm_compute. reflexivity.
  - vm_compute. reflexivity.
Qed.

Lemma number_with_point_raises_witness :
  Py.char_in "." "1.5" = true
  ∧ Interpreter.evaluate_expression (NUMBER "1.5") init = Raise ValueError.
Proof.
  split; [reflexivity|].
  exact (proj1 (number_with_point_raises "1.5" init eq_refl)).
Defined.

(** ** Assignment *)

Lemma store_assignment_Dict (var_name : string) (v : value) (st : state) :
  Dict (Interpreter.store_assignment var_name v st) = <[var_name:=v]> (Dict st).
Proof.
  unfold Interpreter.store_assignment.
  destruct v as [| | | | |l|]; try reflexivity.
  destruct (heap st !! l) as [[| |]|]; reflexivity.
Qed.

Lemma store_assignment_variables (var_name : string) (v : value) (st : state) :
  is_Some (variables (Interpreter.store_assignment var_name v st) !! var_name).
Proof.
  unfold Interpreter.store_assignment.
  destruct v as [| | | | |l|]; simpl; try (rewrite lookup_insert_eq; eauto).
  destruct (heap st !! l) as [[| |]|]; simpl; rewrite lookup_insert_eq; eauto.
Qed.

(** C1: an assignment statement that completes has written its variable
    into [self.variables] and, through [assign], into the dictionary of the
    math helper, where the name is bound to the value of the right-hand
    side. *)
Theorem assignment_mirrored_in_Dict (fuel : nat) (var_name : string)
    (expr : node) (st : state) (r : value) (st' : state) :
  Interpreter.execute_statement (S fuel) (ASSIGN var_name expr) st
  = Ok (r, st') →
  ∃ v st1,
    Interpreter.assignment_value expr
      (set_current_statement (ASSIGN var_name expr) st) = Ok (v, st1)
    ∧ is_Some (variables st' !! var_name)
    ∧ Dict st' !! var_name = Some v
    ∧ Dict st' = Math.assign (Dict st1) var_name v.
Proof.
  simpl. unfold Interpreter.execute_assignment.
  destruct (Interpreter.assignment_value expr _) as [[v st1]| | |];
    simpl; try discriminate.
  intros [= <- <-]. exists v, st1. split_and!.
  - reflexivity.
  - apply store_assignment_variables.
  - rewrite store_assignment_Dict. apply lookup_insert_eq.
  - apply store_assignment_Dict.
Qed.

Lemma assignment_mirrored_in_Dict_witness :
  Interpreter.execute_statement 1 (ASSIGN "x" (NUMBER "5")) init
  = Ok (VNone,
        State {["x" := VInt 5]} {["x" := VInt 5]} (ASSIGN "x" (NUMBER "5")) [])
  ∧ ∃ v st1,
      Interpreter.assignment_value (NUMBER "5")
        (set_current_statement (ASSIGN "x" (NUMBER "5")) init) = Ok (v, st1)
      ∧ is_Some (({["x" := VInt 5]} : gmap string value) !! "x")
      ∧ ({["x" := VInt 5]} : gmap string value) !! "x" = Some v
      ∧ ({["x" := VInt 5]} : gmap string value) = Math.assign (Dict st1) "x" v.
Proof.
  split; [vm_compute; reflexivity|].
  exact (assignment_mirrored_in_Dict 0 "x" (NUMBER "5") init VNone
           (State {["x" := VInt 5]} {["x" := VInt 5]}
                  (ASSIGN "x" (NUMBER "5")) []) eq_refl).
Defined.

(** ** Copies of [StringBeans] values *)

(** A method call on the instance at [l] changes no other object that was
    on the heap: it writes at [l] or allocates past the end. *)
Lemma call_frame (h : list object) (l : nat) (name : string)
    (args : list value) (r : value) (h' : list object) (l' : nat) :
  Lib.call h l name args = Ok (r, h') →
  l' ≠ l → l' < length h → h' !! l' = h !! l'.
Proof.
  intros Hcall Hne Hlt. unfold Lib.call in Hcall.
  assert (∀ o : object, (<[l:=o]> h) !! l' = h !! l') as Hset
    by (intros o; apply list_lookup_insert_ne; congruence).
  assert (∀ o : object, (h ++ [o]) !! l' = h !! l') as Happ
    by (intros o; apply lookup_app_l; exact Hlt).
  repeat
    (match type of Hcall with
     | Ok _ = Ok _ => injection Hcall as <- <-
     | context [mbind _ ?m] => destruct m; simpl in Hcall
     | context [match ?x with _ => _ end] => destruct x; simpl in Hcall
     | context [if ?b then _ else _] => destruct b
     end; try discriminate);
    auto.
Qed.

(** What [store_assignment] does with a [StringBeans] value. *)
Lemma store_assignment_copies (var_name : string) (l : nat)
    (string_ : value) (st : state) :
  heap st !! l = Some (StringBeans string_) →
  let st' := Interpreter.store_assignment var_name (VRef l) st in
  variables st' !! var_name = Some (VRef (length (heap st)))
  ∧ l < length (heap st)
  ∧ heap st' = heap st ++ [StringBeans string_].
Proof.
  intros Hsrc st'. split_and!.
  - unfold st', Interpreter.store_assignment. rewrite Hsrc. simpl.
    apply lookup_insert_eq.
  - eapply lookup_lt_Some; eauto.
  - unfold st', Interpreter.store_assignment. rewrite Hsrc. reflexivity.
Qed.

(** C4, as the code has it: when the right-hand side of an assignment
    evaluates to a [StringBeans] instance, the statement binds the variable
    to a new instance whose field is the value of the source's field (the
    copy of [__copy__] is shallow), at an address the heap did not hold
    before, so that it is not the source and nothing refers to it yet; and
    no method call on the source, [Conjoin] and [Replace] included, changes
    it.  Run on the scenario [a = StringBeans(x); b = a; a.Conjoin(y)] with
    the string literals x and y, the interpreter ends with [b] holding [x]
    and [a] holding [xy]; with [a.Replace(x, z)] in the place of the last
    statement, with [b] holding [x] and [a] holding [z]. *)
Theorem StringBeans_assignment_copies (fuel : nat) (var_name : string)
    (expr : node) (st st1 : state) (l : nat) (string_ : value) :
  Interpreter.assignment_value expr
    (set_current_statement (ASSIGN var_name expr) st) = Ok (VRef l, st1) →
  heap st1 !! l = Some (StringBeans string_) →
  (∃ st' l',
     Interpreter.execute_statement (S fuel) (ASSIGN var_name expr) st
     = Ok (VNone, st')
     ∧ variables st' !! var_name = Some (VRef l')
     ∧ l' ≠ l
     ∧ heap st1 !! l' = None
     ∧ heap st' !! l' = Some (StringBeans string_)
     ∧ heap st' !! l = Some (StringBeans string_)
     ∧ (∀ name args r h',
          Lib.call (heap st') l name args = Ok (r, h') →
          h' !! l' = Some (StringBeans string_)))
  ∧ (∃ fuel' final la lb,
       run fuel'
         ("a = StringBeans(" +:+ String Py.dquote "x" +:+ String Py.dquote
          "); b = a; a.Conjoin(" +:+ String Py.dquote "y" +:+ String Py.dquote
          ");") = Ok final
       ∧ variables final !! "b" = Some (VRef lb)
       ∧ heap final !! lb = Some (StringBeans (VStr "x"))
       ∧ variables final !! "a" = Some (VRef la)
       ∧ heap final !! la = Some (StringBeans (VStr "xy")))
  ∧ (∃ fuel' final la lb,
       run fuel'
         ("a = StringBeans(" +:+ String Py.dquote "x" +:+ String Py.dquote
          "); b = a; a.Replace(" +:+ String Py.dquote "x" +:+ String Py.dquote
          "," +:+ String Py.dquote "z" +:+ String Py.dquote ");") = Ok final
       ∧ variables final !! "b" = Some (VRef lb)
       ∧ heap final !! lb = Some (StringBeans (VStr "x"))
       ∧ variables final !! "a" = Some (VRef la)
       ∧ heap final !! la = Some (StringBeans (VStr "z")))
  ∧ (∀ h s old new r h',
       h !! l = Some (StringBeans (VStr s)) →
       Lib.call h l "Replace" [old; new] = Ok (r, h') →
       ∃ s', r = VStr s' ∧ h' = <[l:=StringBeans (VStr s')]> h).
Proof.
  intros Hval Hsrc. split; [|split; [|split]].
  - destruct (store_assignment_copies var_name l string_ st1 Hsrc)
      as (Hvar & Hlt & Hheap).
    set (st' := Interpreter.store_assignment var_name (VRef l) st1) in *.
    assert (heap st' !! length (heap st1) = Some (StringBeans string_)) as Hnew.
    { rewrite Hheap. rewrite lookup_app_r by lia.
      replace (length (heap st1) - length (heap st1)) with 0 by lia.
      reflexivity. }
    exists st', (length (heap st1)). split_and!.
    + simpl. unfold Interpreter.execute_assignment. rewrite Hval. reflexivity.
    + exact Hvar.
    + lia.
    + apply lookup_ge_None. lia.
    + exact Hnew.
    + rewrite Hheap. rewrite lookup_app_l by exact Hlt. exact Hsrc.
    + intros name args r h' Hcall. rewrite <- Hnew.
      eapply call_frame; [exact Hcall|lia|].
      rewrite Hheap, length_app. simpl. lia.
  - exists 60. eexists. exists 1, 2. split; [vm_compute; reflexivity|].
    split_and!; vm_compute; reflexivity.
  - exists 60. eexists. exists 1, 2. split; [vm_compute; reflexivity|].
    split_and!; vm_compute; reflexivity.
  - intros h s old new r h' Hl Hcall. unfold Lib.call in Hcall.
    rewrite Hl in Hcall. cbn [String.eqb Ascii.eqb Bool.eqb] in Hcall.
    cbn [Lib.StringBeans_Replace] in Hcall.
    destruct old; try discriminate Hcall.
    destruct (negb (Lib.contains s s0)).
    { injection Hcall as <- <-. eauto. }
    destruct (Lib.Replace_loop _ _ _ _ _ _); try discriminate Hcall.
    cbn [mbind outcome_bind] in Hcall.
    destruct (Lib.join _); try discriminate Hcall.
    injection Hcall as <- <-. eauto.
Qed.

Lemma StringBeans_assignment_copies_witness :
  let st := State {["a" := VRef 0]} ∅ PyNone [StringBeans (VStr "x")] in
  let st1 := set_current_statement (ASSIGN "b" (ID "a")) st in
  Interpreter.assignment_value (ID "a") st1 = Ok (VRef 0, st1)
  ∧ heap st1 !! 0 = Some (StringBeans (VStr "x"))
  ∧ ∃ st' l',
      Interpreter.execute_statement 1 (ASSIGN "b" (ID "a")) st = Ok (VNone, st')
      ∧ variables st' !! "b" = Some (VRef l')
      ∧ l' ≠ 0.
Proof.
  intros st st1.
  assert (Interpreter.assignment_value (ID "a") st1 = Ok (VRef 0, st1)) as Hval
    by reflexivity.
  assert (heap st1 !! 0 = Some (StringBeans (VStr "x"))) as Hsrc by reflexivity.
  split; [exact Hval|]. split; [exact Hsrc|].
  destruct (proj1 (StringBeans_assignment_copies 0 "b" (ID "a") st st1 0
                     (VStr "x") Hval Hsrc))
    as (st' & l' & H1 & H2 & H3 & _).
  exists st', l'. split_and!; assumption.
Defined.

(** The claim C4 as it was stated fails for a field that is itself an
    object: the copy is shallow.  After [arr = Arrays(1)],
    [a = StringBeans(arr)], [b = a] the instances of [a] and [b] are two,
    and the field of both is the one array; [arr.add(7)] afterwards changes
    what both hold. *)
Lemma StringBeans_copy_shares_field_counterexample :
  ∃ before final la lb shared,
    run 60 "arr=Arrays(1)~ a=StringBeans(arr)~ b=a~" = Ok before
    ∧ run 60 "arr=Arrays(1)~ a=StringBeans(arr)~ b=a~ arr.add(7)~" = Ok final
    ∧ variables final !! "a" = Some (VRef la)
    ∧ variables final !! "b" = Some (VRef lb)
    ∧ la ≠ lb
    ∧ heap before !! la = Some (StringBeans (VRef shared))
    ∧ heap before !! lb = Some (StringBeans (VRef shared))
    ∧ heap final !! la = Some (StringBeans (VRef shared))
    ∧ heap final !! lb = Some (StringBeans (VRef shared))
    ∧ heap before !! shared = Some (Arrays 1 [VInt 0])
    ∧ heap final !! shared = Some (Arrays 2 [VInt 0; VInt 7]).
Proof.
  do 2 eexists. exists 2, 3, 0.
  split; [vm_compute; reflexivity|]. split; [vm_compute; reflexivity|].
  split_and!; try (vm_compute; reflexivity). lia.
Qed.

(** ** The lexer and the minus sign *)

Lemma tokenize_loop_more_fuel (fuel k : nat) (code : string) (pos : nat)
    (tokens result : list token) :
  Lexer.tokenize_loop fuel code pos tokens = Ok result →
  Lexer.tokenize_loop (fuel + k) code pos tokens = Ok result.
Proof.
  revert pos tokens.
  induction fuel as [|fuel IH]; intros pos tokens H; simpl in *;
    [discriminate|].
  destruct (String.get pos code) as [char|]; [|exact H].
  destruct (Lexer.tokenize_char code char (S pos) tokens)
    as [[pos' tokens']| | |]; simpl in *; try discriminate.
  apply IH. exact H.
Qed.

(** At the end of ["a-1"] the number rule steps back onto the last digit. *)
Lemma tokenize_stuck_at_end (fuel : nat) (tokens : list token) :
  Lexer.tokenize_loop fuel "a-1" 2 tokens = OutOfFuel.
Proof.
  revert tokens. induction fuel as [|fuel IH]; intros tokens; [reflexivity|].
  change (Lexer.tokenize_loop (S fuel) "a-1" 2 tokens)
    with (Lexer.tokenize_loop fuel "a-1" 2 (tokens ++ [("NUMBER", "")])).
  apply IH.
Qed.

(** C3, as the code has it: whenever the character read is a minus sign and
    the next character is a digit, the token the lexer appends is a NUMBER
    whose text starts at the minus sign, whatever was lexed before; so
    ["a-1~"] gives ID [a], NUMBER [-1], END, for every fuel from 4 on.  A
    minus sign is an operator when no digit follows it: ["a - 1~"] and
    ["a-b~"]. *)
Theorem minus_before_digit_is_number (code : string) (pos : nat)
    (tokens : list token) (d : ascii) (pos' : nat) (tokens' : list token) :
  String.get pos code = Some "-"%char →
  String.get (S pos) code = Some d →
  Py.isdigit d = true →
  Lexer.tokenize_char code "-" (S pos) tokens = Ok (pos', tokens') →
  (pos < pos' ∧ tokens' = tokens ++ [("NUMBER", Py.slice code pos pos')])
  ∧ (∀ k, Lexer.tokenize (4 + k) "a-1~"
          = Ok [("ID", "a"); ("NUMBER", "-1"); ("END", "~")])
  ∧ (∀ k, Lexer.tokenize (7 + k) "a - 1~"
          = Ok [("ID", "a"); ("OP", "-"); ("NUMBER", "1"); ("END", "~")])
  ∧ (∀ k, Lexer.tokenize (5 + k) "a-b~"
          = Ok [("ID", "a"); ("OP", "-"); ("ID", "b"); ("END", "~")]).
Proof.
  intros _ Hnext Hdigit Hstep. split; [|split_and!].
  - assert (Py.is_ascii d = true) as Hascii.
    { unfold Py.isdigit in Hdigit. unfold Py.is_ascii.
      apply andb_true_iff in Hdigit as [_ H]. apply Nat.leb_le in H.
      apply Nat.ltb_lt. lia. }
    assert ((S pos <? String.length code) = true) as Hlen.
    { apply Nat.ltb_lt. clear -Hnext. revert pos Hnext.
      induction code as [|c code IH]; intros pos H;
        [destruct pos; discriminate|].
      destruct pos as [|pos]; simpl in *.
      - destruct code; [discriminate|simpl; lia].
      - apply IH in H. lia. }
    unfold Lexer.tokenize_char, Lexer.starts_number in Hstep.
    change (Py.is_ascii "-") with true in Hstep.
    change (Py.isspace "-") with false in Hstep.
    change (Py.isalpha "-") with false in Hstep.
    change (Py.isdigit "-") with false in Hstep.
    change (Ascii.eqb "-" "-") with true in Hstep.
    cbn [negb orb andb] in Hstep.
    rewrite Hlen, Hnext, Hascii, Hdigit in Hstep.
    cbn [mbind outcome_bind] in Hstep.
    destruct (Lexer.scan_while _ _ _) as [p| | |] eqn:Hscan;
      cbn [mbind outcome_bind] in Hstep; try discriminate.
    injection Hstep as <- <-.
    assert (S (S pos) <= p) as Hp.
    { assert (∃ rest, Py.drop (S pos) code = String d rest) as [rest Hrest].
      { clear -Hnext. revert pos Hnext.
        induction code as [|c code IH]; intros pos H;
          [destruct pos; discriminate|].
        destruct pos as [|pos]; simpl in *.
        - destruct code as [|c' code]; [discriminate|].
          injection H as ->. eauto.
        - apply IH in H. exact H. }
      rewrite Hrest in Hscan. simpl in Hscan.
      rewrite Hascii, Hdigit in Hscan. simpl in Hscan.
      clear -Hscan. revert Hscan. generalize (S (S pos)) as n.
      induction rest as [|c rest IH]; intros n H; simpl in H.
      - injection H as <-. lia.
      - destruct (negb (Py.is_ascii c)); [discriminate|].
        destruct (Py.isdigit c || Ascii.eqb c "."); [|injection H as <-; lia].
        apply IH in H. lia. }
    split; [lia|].
    replace (pos - 0) with pos by lia. reflexivity.
  - intros k. apply (tokenize_loop_more_fuel 4 k). vm_compute. reflexivity.
  - intros k. apply (tokenize_loop_more_fuel 7 k). vm_compute. reflexivity.
  - intros k. apply (tokenize_loop_more_fuel 5 k). vm_compute. reflexivity.
Qed.

Lemma minus_before_digit_is_number_witness :
  String.get 1 "a-1~" = Some "-"%char
  ∧ String.get 2 "a-1~" = Some "1"%char
  ∧ Py.isdigit "1" = true
  ∧ Lexer.tokenize_char "a-1~" "-" 2 [("ID", "a")]
    = Ok (3, [("ID", "a"); ("NUMBER", "-1")])
  ∧ 1 < 3.
Proof.
  split_and!; try reflexivity.
  exact (proj1 (proj1 (minus_before_digit_is_number "a-1~" 1 [("ID", "a")] "1"
                         3 [("ID", "a"); ("NUMBER", "-1")]
                         eq_refl eq_refl eq_refl eq_refl))).
Defined.

(** The claim C3 as it was stated fails: directly after the identifier of
    ["a-1~"] the number rule fires and the tokens are ID [a], NUMBER [-1],
    END; and on ["a-1"] itself the lexer returns no token list at all. *)
Lemma minus_after_identifier_counterexample :
  Lexer.tokenize 4 "a-1~" = Ok [("ID", "a"); ("NUMBER", "-1"); ("END", "~")]
  ∧ (∀ fuel, Lexer.tokenize fuel "a-1" = OutOfFuel)
  ∧ (∀ fuel, Lexer.tokenize fuel "a-1"
             ≠ Ok [("ID", "a"); ("OP", "-"); ("NUMBER", "1")]).
Proof.
  assert (∀ fuel, Lexer.tokenize fuel "a-1" = OutOfFuel) as Hstuck.
  { intros [|[|fuel]]; try reflexivity.
    change (Lexer.tokenize (S (S fuel)) "a-1")
      with (Lexer.tokenize_loop fuel "a-1" 2 [("ID", "a"); ("NUMBER", "-")]).
    apply tokenize_stuck_at_end. }
  split_and!.
  - vm_compute. reflexivity.
  - exact Hstuck.
  - intros fuel. rewrite Hstuck. discriminate.
Qed.

(** ** The [for] loop *)

Section ForLoop.

Variable exec : node -> state -> outcome (value * state).

(** Once a pass over the body has a signal, the statements that follow are
    not run: a pass over [pre ++ rest] is the pass over [pre], carried on
    over [rest] only when [pre] ended without a signal. *)
Lemma for_body_app (pre rest : list node) (lv : gset string) (st : state) :
  Interpreter.for_body exec (pre ++ rest) lv st
  = '(s, lv', st') ← Interpreter.for_body exec pre lv st;
    match s with
    | Interpreter.Running => Interpreter.for_body exec rest lv' st'
    | _ => Ok (s, lv', st')
    end.
Proof.
  revert lv st. induction pre as [|stmt pre IH]; intros lv st; [reflexivity|].
  destruct stmt; simpl; try reflexivity;
    match goal with
    | |- context [mbind _ ?m] =>
        destruct m as [[result st']| | |]; simpl; try reflexivity
    end;
    destruct (Interpreter.signal_of result); simpl; auto.
Qed.

Lemma for_body_stops (pre rest : list node) (lv lv' : gset string)
    (st st' : state) (s : Interpreter.signal) :
  s ≠ Interpreter.Running →
  Interpreter.for_body exec pre lv st = Ok (s, lv', st') →
  Interpreter.for_body exec (pre ++ rest) lv st = Ok (s, lv', st').
Proof.
  intros Hs Hpre. rewrite for_body_app, Hpre. simpl.
  destruct s; [contradiction|reflexivity|reflexivity].
Qed.

End ForLoop.

(** C5: in [execute_for], when the condition holds and the pass over the
    body ends with the CONTINUE signal, the loop goes on with the increment
    statement run in the state the pass left, and only then with the next
    round, which starts by reading the condition; when the pass ends with
    the BREAK signal the loop returns that state at once, the increment not
    run.  A pass that has its signal runs none of the statements after it.
    The loop of a FOR statement is this loop, run on [execute_statement].
    On a loop that continues while [i < 3] and breaks once [i > 6], the run
    ends with [n] counted four times and the counter left at 7 in the
    helper's dictionary. *)
Theorem for_loop_continue_and_break
    (exec : node -> state -> outcome (value * state)) (fuel : nat)
    (condition increment : node) (body : list node)
    (lv lv2 : gset string) (st st1 st2 : state) (c : value)
    (s : Interpreter.signal) :
  Interpreter.evaluate_expression condition st = Ok (c, st1) →
  PyVal.truthy c = true →
  Interpreter.for_body exec body lv st1 = Ok (s, lv2, st2) →
  (s = Interpreter.Continue →
   Interpreter.for_loop exec (S fuel) condition increment body lv st
   = '(_, st3) ← exec increment st2;
     Interpreter.for_loop exec fuel condition increment body lv2 st3)
  ∧ (s = Interpreter.Break →
     Interpreter.for_loop exec (S fuel) condition increment body lv st
     = Ok (lv2, st2))
  ∧ (∀ st3 c' st4,
       PyVal.truthy c' = false →
       Interpreter.evaluate_expression condition st3 = Ok (c', st4) →
       Interpreter.for_loop exec (S fuel) condition increment body lv2 st3
       = Ok (lv2, st4))
  ∧ (s ≠ Interpreter.Running →
     ∀ rest, Interpreter.for_body exec (body ++ rest) lv st1 = Ok (s, lv2, st2))
  ∧ (∀ rest lv0 st0,
       Interpreter.for_body exec (CONTINUE :: rest) lv0 st0
       = Ok (Interpreter.Continue, lv0, st0)
       ∧ Interpreter.for_body exec (BREAK :: rest) lv0 st0
         = Ok (Interpreter.Break, lv0, st0))
  ∧ (∀ fuel0 i e st0,
       let statement := FOR (ASSIGN i e) condition increment body in
       let st0' := set_current_statement statement st0 in
       Interpreter.execute_statement (S fuel0) statement st0
       = st ← ('(_, st) ← Interpreter.execute_statement fuel0 (ASSIGN i e) st0';
               '(loop_variables, st) ←
                 Interpreter.for_loop (Interpreter.execute_statement fuel0)
                   fuel0 condition increment body ∅ st;
               st ← Interpreter.del_each (elements loop_variables) st;
               if Interpreter.defined i st0' then Ok st
               else Interpreter.del i st);
         Ok (VNone, st))
  ∧ (∃ fuel' final,
       run fuel'
         ("n=0~ for(i=0;i<10;i=i+1){ if(i<3){continue;}else{} "
          +:+ "if(i>6){break;}else{} n=n+1~ }")
       = Ok final
       ∧ variables final = {["n" := VInt 4]}
       ∧ Dict final !! "i" = Some (VInt 7)).
Proof.
  intros Hcond Htrue Hbody. split_and!.
  - intros ->. simpl. rewrite Hcond. simpl. rewrite Htrue, Hbody. reflexivity.
  - intros ->. simpl. rewrite Hcond. simpl. rewrite Htrue, Hbody. reflexivity.
  - intros st3 c' st4 Hfalse Hcond'. simpl. rewrite Hcond'. simpl.
    rewrite Hfalse. reflexivity.
  - intros Hs rest. apply for_body_stops; assumption.
  - intros rest lv0 st0. split; reflexivity.
  - reflexivity.
  - exists 100. eexists. split; [vm_compute; reflexivity|].
    split; vm_compute; reflexivity.
Qed.

Lemma for_loop_continue_and_break_witness :
  let exec := Interpreter.execute_statement 3 in
  let condition := BINOP "<" (ID "i") (NUMBER "1") in
  let increment := ASSIGN "i" (NUMBER "1") in
  let body := [CONTINUE; ASSIGN "n" (NUMBER "1")] in
  Interpreter.evaluate_expression condition init = Ok (VBool true, init)
  ∧ PyVal.truthy (VBool true) = true
  ∧ Interpreter.for_body exec body ∅ init = Ok (Interpreter.Continue, ∅, init)
  ∧ Interpreter.for_loop exec 2 condition increment body ∅ init
    = Ok (∅, State {["i" := VInt 1]} {["i" := VInt 1]} increment []).
Proof.
  intros exec condition increment body.
  do 3 (split; [reflexivity|]).
  rewrite (proj1 (for_loop_continue_and_break exec 1 condition increment body
                    ∅ ∅ init init init (VBool true) Interpreter.Continue
                    eq_refl eq_refl eq_refl) eq_refl).
  vm_compute. reflexivity.
Defined.

(** ** The clean-up of [execute_if_else] *)

Lemma str_in_spec (x : string) (l : list string) :
  Py.str_in x l = true ↔ x ∈ l.
Proof.
  unfold Py.str_in. rewrite existsb_exists, list_elem_of_In. split.
  - intros (y & Hy & Heq). apply String.eqb_eq in Heq. subst. exact Hy.
  - intros Hx. exists x. split; [exact Hx|apply String.eqb_refl].
Qed.

Lemma in_current_statement_Ok (var_name : string) (st : state) (used : bool) :
  Interpreter.in_current_statement var_name st = Ok used →
  used = Py.str_in var_name (Interpreter.tuple_strings (current_statement st)).
Proof.
  unfold Interpreter.in_current_statement.
  destruct (current_statement st); intros [= <-]; reflexivity.
Qed.

(** What one clean-up loop leaves: a name goes exactly when it is in the
    list, is not a component of the tuple in [current_statement], and is
    not in the other set; nothing else of the state changes. *)
Lemma cleanup_spec (names : list string) (other : gset string)
    (st st' : state) :
  NoDup names →
  Interpreter.cleanup names other st = Ok st' →
  current_statement st' = current_statement st
  ∧ Dict st' = Dict st
  ∧ heap st' = heap st
  ∧ ∀ v,
      variables st' !! v
      = if decide (v ∈ names
                   ∧ (v ∉ Interpreter.tuple_strings (current_statement st))
                   ∧ v ∉ other)
        then None else variables st !! v.
Proof.
  intros Hnodup. revert st.
  induction Hnodup as [|n ns Hn Hns IH]; intros st Hclean; simpl in Hclean.
  - injection Hclean as <-. split_and!; reflexivity.
  - destruct (Interpreter.in_current_statement n st) as [used| | |] eqn:Hused;
      simpl in Hclean; try discriminate.
    apply in_current_statement_Ok in Hused.
    destruct (negb used && negb (bool_decide (n ∈ other))) eqn:Hdel.
    + apply andb_true_iff in Hdel as [Hu Ho].
      apply negb_true_iff in Hu, Ho. apply bool_decide_eq_false in Ho.
      assert (n ∉ Interpreter.tuple_strings (current_statement st)) as Hu'.
      { rewrite <- str_in_spec, <- Hused, Hu. discriminate. }
      unfold Interpreter.del in Hclean.
      destruct (variables st !! n) as [val|] eqn:Hlook; simpl in Hclean;
        [|discriminate].
      apply IH in Hclean as (Hcs & HD & Hh & Hv). simpl in *.
      split_and!; try assumption.
      intros v. rewrite Hv. destruct (decide (v = n)) as [->|Hne].
      * rewrite decide_False by tauto. rewrite lookup_delete_eq.
        rewrite decide_True; [reflexivity|].
        split_and!; [left|assumption|assumption].
      * rewrite lookup_delete_ne by congruence.
        apply decide_ext. rewrite elem_of_cons. tauto.
    + apply IH in Hclean as (Hcs & HD & Hh & Hv).
      split_and!; try assumption.
      intros v. rewrite Hv. destruct (decide (v = n)) as [->|Hne].
      * rewrite decide_False by tauto. rewrite decide_False; [reflexivity|].
        intros (_ & Hu & Ho). apply andb_false_iff in Hdel as [Hdel|Hdel];
          apply negb_false_iff in Hdel.
        -- apply Hu. rewrite <- str_in_spec, <- Hused. exact Hdel.
        -- apply bool_decide_eq_true in Hdel. contradiction.
      * apply decide_ext. rewrite elem_of_cons. tauto.
Qed.

Lemma run_branch_collects
    (exec : node -> state -> outcome (value * state)) (body : list node)
    (acc assigned : gset string) (st st2 : state) :
  Interpreter.run_branch exec body acc st = Ok (None, assigned, st2) →
  assigned = Interpreter.assignment_targets body ∪ acc.
Proof.
  revert acc st. induction body as [|stmt body IH]; intros acc st H;
    simpl in H.
  - injection H as <- _. unfold Interpreter.assignment_targets. simpl. set_solver.
  - destruct (exec stmt st) as [[result st1]| | |]; simpl in H;
      try discriminate.
    destruct (PyVal.is_str "BREAK" result || PyVal.is_str "CONTINUE" result);
      [discriminate|].
    apply IH in H. rewrite H. unfold Interpreter.assignment_targets.
    destruct stmt; simpl; set_solver.
Qed.

(** What [execute_if_else] does once the branch it runs has reached its
    end: the names collected are those of the branch, the set of the other
    branch is still empty, and only the first clean-up loop has work. *)
Lemma execute_if_else_cleanup
    (exec : node -> state -> outcome (value * state))
    (condition : node) (if_body else_body : list node)
    (st st1 st2 : state) (c : value) (assigned : gset string) :
  Interpreter.evaluate_expression condition st = Ok (c, st1) →
  Interpreter.run_branch exec
    (if PyVal.truthy c then if_body else else_body) ∅ st1
  = Ok (None, assigned, st2) →
  Interpreter.execute_if_else exec (IF_ELSE condition if_body else_body) st
  = st' ← Interpreter.cleanup (elements assigned) ∅ st2; Ok (VNone, st').
Proof.
  intros Hcond Hrun. unfold Interpreter.execute_if_else.
  rewrite Hcond. simpl.
  destruct (PyVal.truthy c); rewrite Hrun; simpl; rewrite elements_empty;
    simpl; destruct (Interpreter.cleanup (elements assigned) ∅ st2);
    reflexivity.
Qed.

(** What the clean-up does as the code is written: when the branch that
    runs reaches its end, each target of an assignment statement of that
    branch is deleted unless the name is a component of the tuple held in
    [current_statement] at that time; no other variable changes. *)
Lemma execute_if_else_deletes_targets
    (exec : node -> state -> outcome (value * state))
    (condition : node) (if_body else_body : list node)
    (st st1 st2 st' : state) (c r : value) (assigned : gset string) :
  Interpreter.evaluate_expression condition st = Ok (c, st1) →
  Interpreter.run_branch exec
    (if PyVal.truthy c then if_body else else_body) ∅ st1
  = Ok (None, assigned, st2) →
  Interpreter.execute_if_else exec
    (IF_ELSE condition if_body else_body) st = Ok (r, st') →
  r = VNone
  ∧ ∀ v,
      variables st' !! v
      = if decide
             (v ∈ Interpreter.assignment_targets
                    (if PyVal.truthy c then if_body else else_body)
              ∧ v ∉ Interpreter.tuple_strings (current_statement st2))
        then None else variables st2 !! v.
Proof.
  intros Hcond Hrun Hexec.
  rewrite (execute_if_else_cleanup _ _ _ _ _ _ _ _ _ Hcond Hrun) in Hexec.
  destruct (Interpreter.cleanup (elements assigned) ∅ st2) as [st3| | |]
    eqn:Hclean; simpl in Hexec; try discriminate.
  injection Hexec as <- <-. split; [reflexivity|].
  apply cleanup_spec in Hclean as (_ & _ & _ & Hv);
    [|apply NoDup_elements].
  intros v. rewrite Hv.
  apply run_branch_collects in Hrun. subst assigned.
  apply decide_ext. rewrite elem_of_elements. set_solver.
Qed.

(** C2: the scenario of the claim holds, and its clean-up rule is not what
    the code does.  [x=5~ y=3~ if(x>y){z=x+y~}else{z=x-y~}] ends with
    exactly [x], [y], [z] bound to 5, 3, 8: at the clean-up the tuple in
    [current_statement] is the assignment to [z].  With one more assignment
    in the branch, [x=5~ y=3~ if(x>y){z=x+y~ w=1~}else{z=x-y~}], the
    variable [z] is deleted although the other branch assigns it: the test
    [var_name not in else_variables] reads a set that is filled only when
    the other branch runs.  And [x=5~ if(x>1){x=6~ w=1~}else{}] ends
    without [x], a variable bound before the block, which the same body
    under [while] or [for] keeps. *)
Theorem if_else_cleanup_at_failing_inputs :
  (∃ final,
     run 40 "x=5~ y=3~ if(x>y){z=x+y~}else{z=x-y~}" = Ok final
     ∧ variables final
       = <["x":=VInt 5]> (<["y":=VInt 3]> (<["z":=VInt 8]> ∅))
     ∧ current_statement final = ASSIGN "z" (BINOP "+" (ID "x") (ID "y")))
  ∧ (∃ final,
       run 60 "x=5~ y=3~ if(x>y){z=x+y~ w=1~}else{z=x-y~}" = Ok final
       ∧ variables final
         = <["x":=VInt 5]> (<["y":=VInt 3]> (<["w":=VInt 1]> ∅))
       ∧ variables final !! "z" = None)
  ∧ (∃ final,
       run 60 "x=5~ if(x>1){x=6~ w=1~}else{}" = Ok final
       ∧ variables final = <["w":=VInt 1]> ∅
       ∧ variables final !! "x" = None)
  ∧ (∃ final,
       run 60 "x=5~ c=0~ while(c<1){c=1~ x=6~ w=1~}" = Ok final
       ∧ variables final !! "x" = Some (VInt 6))
  ∧ (∃ final,
       run 60 "x=5~ for(i=0;i<1;i=i+1){x=6~ w=1~}" = Ok final
       ∧ variables final !! "x" = Some (VInt 6)).
Proof.
  split_and!; eexists; (split; [vm_compute; reflexivity|]);
    try split; vm_compute; reflexivity.
Qed.

(** ** The parser's two layers of binary operators *)

Section ParserFacts.

Variable tokens : list token.

(** The unfolding equation of each function of the expression parser. *)
Lemma parse_expression_S (fuel : nat) (pos : nat) :
  Parser.parse_expression tokens (S fuel) pos
  =
    '(left_, pos) ← Parser.parse_term tokens fuel pos;
    Parser.expression_loop tokens fuel left_ pos.
Proof. reflexivity. Qed.

Lemma expression_loop_S (fuel : nat) (left_ : node) (pos : nat) :
  Parser.expression_loop tokens (S fuel) left_ pos
  =
    if Parser.at_op_in tokens Parser.upper_ops pos then
      '(op, pos) ← Parser.consume tokens "OP" pos;
      '(right_, pos) ← Parser.parse_term tokens fuel pos;
      Parser.expression_loop tokens fuel (BINOP op left_ right_) pos
    else Ok (left_, pos).
Proof. reflexivity. Qed.

Lemma parse_term_S (fuel : nat) (pos : nat) :
  Parser.parse_term tokens (S fuel) pos
  =
    '(left_, pos) ← Parser.parse_factor tokens fuel pos;
    Parser.term_loop tokens fuel left_ pos.
Proof. reflexivity. Qed.

Lemma term_loop_S (fuel : nat) (left_ : node) (pos : nat) :
  Parser.term_loop tokens (S fuel) left_ pos
  =
    if Parser.at_op_in tokens Parser.lower_ops pos then
      '(op, pos) ← Parser.consume tokens "OP" pos;
      '(right_, pos) ← Parser.parse_factor tokens fuel pos;
      Parser.term_loop tokens fuel (BINOP op left_ right_) pos
    else Ok (left_, pos).
Proof. reflexivity. Qed.

Lemma parse_factor_S (fuel : nat) (pos : nat) :
  Parser.parse_factor tokens (S fuel) pos
  =
    '(kind, text) ← Parser.current_token_strict tokens pos;
    if String.eqb kind "NUMBER" then
      '(v, pos) ← Parser.consume tokens "NUMBER" pos; Ok (NUMBER v, pos)
    else if String.eqb kind "BOOL" then
      '(v, pos) ← Parser.consume tokens "BOOL" pos; Ok (BOOL v, pos)
    else if String.eqb kind "ID" then Parser.parse_id_or_call tokens fuel pos
    else if String.eqb kind "OP" && String.eqb text "(" then
      '(_, pos) ← Parser.consume tokens "OP" pos;
      '(expr, pos) ← Parser.parse_expression tokens fuel pos;
      '(_, pos) ← Parser.consume tokens "OP" pos;
      Ok (expr, pos)
    else if String.eqb kind "Class" then
      Parser.parse_class_instantiation tokens fuel pos
    else if String.eqb kind "CHAR" then
      '(v, pos) ← Parser.consume tokens "CHAR" pos; Ok (CHAR v, pos)
    else if String.eqb kind "FUNC" then
      Parser.parse_function_call tokens fuel pos
    else Raise RuntimeError.
Proof. reflexivity. Qed.

Lemma parse_id_or_call_S (fuel : nat) (pos : nat) :
  Parser.parse_id_or_call tokens (S fuel) pos
  =
    '(var_name, pos) ← Parser.consume tokens "ID" pos;
    '(kind, text) ← Parser.current_token_strict tokens pos;
    if String.eqb kind "OP" && String.eqb text "(" then
      Parser.parse_function_call tokens fuel pos
    else if String.eqb kind "DOT" then
      Parser.parse_method_call tokens fuel var_name pos
    else Ok (ID var_name, pos).
Proof. reflexivity. Qed.

Lemma parse_args_S (fuel : nat) (guarded : bool) (pos : nat) :
  Parser.parse_args tokens (S fuel) guarded pos
  =
    Parser.not_at_close tokens pos ≫= λ b : bool,
    if b then
      '(arg, pos) ← Parser.parse_expression tokens fuel pos;
      Parser.more_args tokens fuel guarded [arg] pos
    else Ok ([], pos).
Proof. reflexivity. Qed.

Lemma more_args_S (fuel : nat) (guarded : bool) (args : list node) (pos : nat) :
  Parser.more_args tokens (S fuel) guarded args pos
  =
    Parser.at_comma tokens guarded pos ≫= λ b : bool,
    if b then
      '(_, pos) ← Parser.consume tokens "COMMA" pos;
      '(arg, pos) ← Parser.parse_expression tokens fuel pos;
      Parser.more_args tokens fuel guarded (args ++ [arg]) pos
    else Ok (args, pos).
Proof. reflexivity. Qed.

Lemma parse_function_call_S (fuel : nat) (pos : nat) :
  Parser.parse_function_call tokens (S fuel) pos
  =
    '(func_name, pos) ← Parser.consume tokens "FUNC" pos;
    '(_, pos) ← Parser.consume tokens "OP" pos;
    '(args, pos) ← Parser.parse_args tokens fuel true pos;
    '(_, pos) ← Parser.consume tokens "OP" pos;
    Ok (CALL func_name args, pos).
Proof. reflexivity. Qed.

Lemma parse_method_call_S (fuel : nat) (obj_name : string) (pos : nat) :
  Parser.parse_method_call tokens (S fuel) obj_name pos
  =
    '(_, pos) ← Parser.consume tokens "DOT" pos;
    '(method_name, pos) ← Parser.consume tokens "ID" pos;
    '(_, pos) ← Parser.consume tokens "OP" pos;
    '(args, pos) ← Parser.parse_args tokens fuel false pos;
    '(_, pos) ← Parser.consume tokens "OP" pos;
    Ok (METHOD_CALL obj_name method_name args, pos).
Proof. reflexivity. Qed.

Lemma parse_class_instantiation_S (fuel : nat) (pos : nat) :
  Parser.parse_class_instantiation tokens (S fuel) pos
  =
    '(class_name, pos) ← Parser.consume tokens "Class" pos;
    '(_, pos) ← Parser.consume tokens "OP" pos;
    '(args, pos) ← Parser.parse_args tokens fuel false pos;
    '(_, pos) ← Parser.consume tokens "OP" pos;
    Ok (CLASS_INST class_name args, pos).
Proof. reflexivity. Qed.

(** One more unit of fuel does not change a result. *)
Lemma parse_one_more_fuel (n : nat) :
  (∀ pos r,
     Parser.parse_expression tokens n pos = Ok r →
     Parser.parse_expression tokens (S n) pos = Ok r)
  ∧ (∀ l pos r,
       Parser.expression_loop tokens n l pos = Ok r →
       Parser.expression_loop tokens (S n) l pos = Ok r)
  ∧ (∀ pos r,
       Parser.parse_term tokens n pos = Ok r →
       Parser.parse_term tokens (S n) pos = Ok r)
  ∧ (∀ l pos r,
       Parser.term_loop tokens n l pos = Ok r →
       Parser.term_loop tokens (S n) l pos = Ok r)
  ∧ (∀ pos r,
       Parser.parse_factor tokens n pos = Ok r →
       Parser.parse_factor tokens (S n) pos = Ok r)
  ∧ (∀ pos r,
       Parser.parse_id_or_call tokens n pos = Ok r →
       Parser.parse_id_or_call tokens (S n) pos = Ok r)
  ∧ (∀ g pos r,
       Parser.parse_args tokens n g pos = Ok r →
       Parser.parse_args tokens (S n) g pos = Ok r)
  ∧ (∀ g a pos r,
       Parser.more_args tokens n g a pos = Ok r →
       Parser.more_args tokens (S n) g a pos = Ok r)
  ∧ (∀ pos r,
       Parser.parse_function_call tokens n pos = Ok r →
       Parser.parse_function_call tokens (S n) pos = Ok r)
  ∧ (∀ o pos r,
       Parser.parse_method_call tokens n o pos = Ok r →
       Parser.parse_method_call tokens (S n) o pos = Ok r)
  ∧ (∀ pos r,
       Parser.parse_class_instantiation tokens n pos = Ok r →
       Parser.parse_class_instantiation tokens (S n) pos = Ok r).
Proof.
  induction n as [|n IH]; [split_and!; intros; discriminate|].
  destruct IH as (IH1 & IH2 & IH3 & IH4 & IH5 & IH6 & IH7 & IH8 & IH9
                  & IH10 & IH11).
  split_and!; intros;
    match goal with H : _ = Ok _ |- _ =>
      first [ rewrite parse_expression_S in H |- *
            | rewrite expression_loop_S in H |- *
            | rewrite parse_term_S in H |- *
            | rewrite term_loop_S in H |- *
            | rewrite parse_factor_S in H |- *
            | rewrite parse_id_or_call_S in H |- *
            | rewrite parse_args_S in H |- *
            | rewrite more_args_S in H |- *
            | rewrite parse_function_call_S in H |- *
            | rewrite parse_method_call_S in H |- *
            | rewrite parse_class_instantiation_S in H |- * ];
      follow_parse H
        ltac:(fun E =>
                first [ rewrite (IH1 _ _ E) | rewrite (IH2 _ _ _ E)
                      | rewrite (IH3 _ _ E) | rewrite (IH4 _ _ _ E)
                      | rewrite (IH5 _ _ E) | rewrite (IH6 _ _ E)
                      | rewrite (IH7 _ _ _ E) | rewrite (IH8 _ _ _ _ E)
                      | rewrite (IH9 _ _ E) | rewrite (IH10 _ _ _ E)
                      | rewrite (IH11 _ _ E) ]);
      try exact H; try discriminate H; eauto
    end.
Qed.

Lemma parse_term_more_fuel (n k : nat) (pos : nat) (r : node * nat) :
  Parser.parse_term tokens n pos = Ok r →
  Parser.parse_term tokens (n + k) pos = Ok r.
Proof.
  intros H. induction k as [|k IH].
  - rewrite Nat.add_0_r. exact H.
  - rewrite Nat.add_succ_r. apply parse_one_more_fuel. exact IH.
Qed.

Lemma parse_expression_more_fuel (n k : nat) (pos : nat) (r : node * nat) :
  Parser.parse_expression tokens n pos = Ok r →
  Parser.parse_expression tokens (n + k) pos = Ok r.
Proof.
  intros H. induction k as [|k IH].
  - rewrite Nat.add_0_r. exact H.
  - rewrite Nat.add_succ_r. apply parse_one_more_fuel. exact IH.
Qed.

End ParserFacts.

Lemma at_upper_op (tokens : list token) (pos : nat) (op : string) :
  tokens !! pos = Some ("OP", op) → op ∈ Parser.upper_ops →
  Parser.at_op_in tokens Parser.upper_ops pos = true
  ∧ Parser.consume tokens "OP" pos = Ok (op, S pos).
Proof.
  intros Htok Hop. unfold Parser.at_op_in, Parser.consume, Parser.current_token.
  unfold token in *. rewrite Htok. split; [|reflexivity].
  change (Py.str_in op Parser.upper_ops = true). apply str_in_spec. exact Hop.
Qed.

(** C6: when three terms [a], [b], [c] are separated by two operators of
    the upper set and no operator of that set follows, [parse_expression]
    returns [(op2, (op1, a, b), c)]: the operators of the upper set form
    one layer that groups to the left, whatever the two operators are, and
    the operands are whole terms, so the [* / ^] layer binds tighter.
    [x = a == b && c~] parses to [('&&', ('==', a, b), c)], [a < b + c] to
    [('+', ('<', a, b), c)], [a + b * c] to [('+', a, ('*', b, c))]. *)
Theorem upper_operators_group_left (tokens : list token) (fuel : nat)
    (p0 p1 p2 p3 : nat) (a b c : node) (op1 op2 : string) :
  Parser.parse_term tokens fuel p0 = Ok (a, p1) →
  tokens !! p1 = Some ("OP", op1) → op1 ∈ Parser.upper_ops →
  Parser.parse_term tokens fuel (S p1) = Ok (b, p2) →
  tokens !! p2 = Some ("OP", op2) → op2 ∈ Parser.upper_ops →
  Parser.parse_term tokens fuel (S p2) = Ok (c, p3) →
  Parser.at_op_in tokens Parser.upper_ops p3 = false →
  (∀ k, Parser.parse_expression tokens (4 + fuel + k) p0
        = Ok (BINOP op2 (BINOP op1 a b) c, p3))
  ∧ (∃ n toks,
       Lexer.tokenize n "x = a == b && c~" = Ok toks
       ∧ Parser.parse toks n
         = Ok [ASSIGN "x" (BINOP "&&" (BINOP "==" (ID "a") (ID "b")) (ID "c"))])
  ∧ (∃ n toks,
       Lexer.tokenize n "x = a < b + c~" = Ok toks
       ∧ Parser.parse toks n
         = Ok [ASSIGN "x" (BINOP "+" (BINOP "<" (ID "a") (ID "b")) (ID "c"))])
  ∧ (∃ n toks,
       Lexer.tokenize n "x = a + b * c~" = Ok toks
       ∧ Parser.parse toks n
         = Ok [ASSIGN "x" (BINOP "+" (ID "a") (BINOP "*" (ID "b") (ID "c")))]).
Proof.
  intros Ha Hop1 Hin1 Hb Hop2 Hin2 Hc Hend. split_and!.
  - intros k. apply (parse_expression_more_fuel tokens (4 + fuel) k).
    destruct (at_upper_op tokens p1 op1 Hop1 Hin1) as [Hat1 Hcons1].
    destruct (at_upper_op tokens p2 op2 Hop2 Hin2) as [Hat2 Hcons2].
    change (4 + fuel) with (S (S (S (S fuel)))).
    rewrite parse_expression_S.
    replace (S (S (S fuel))) with (fuel + 3) at 1 by lia.
    rewrite (parse_term_more_fuel tokens fuel 3 p0 _ Ha).
    cbn [mbind outcome_bind].
    rewrite expression_loop_S, Hat1, Hcons1. cbn [mbind outcome_bind].
    replace (S (S fuel)) with (fuel + 2) at 1 by lia.
    rewrite (parse_term_more_fuel tokens fuel 2 (S p1) _ Hb).
    cbn [mbind outcome_bind].
    rewrite expression_loop_S, Hat2, Hcons2. cbn [mbind outcome_bind].
    replace (S fuel) with (fuel + 1) at 1 by lia.
    rewrite (parse_term_more_fuel tokens fuel 1 (S p2) _ Hc).
    cbn [mbind outcome_bind].
    rewrite expression_loop_S, Hend. reflexivity.
  - exists 20. eexists. split; [vm_compute; reflexivity|].
    vm_compute. reflexivity.
  - exists 20. eexists. split; [vm_compute; reflexivity|].
    vm_compute. reflexivity.
  - exists 20. eexists. split; [vm_compute; reflexivity|].
    vm_compute. reflexivity.
Qed.

Lemma upper_operators_group_left_witness :
  let tokens :=
    [("ID", "a"); ("OP", "=="); ("ID", "b"); ("OP", "&&"); ("ID", "c");
     ("END", "~")] in
  Parser.parse_term tokens 3 0 = Ok (ID "a", 1)
  ∧ tokens !! 1 = Some ("OP", "==")
  ∧ "==" ∈ Parser.upper_ops
  ∧ Parser.parse_term tokens 3 2 = Ok (ID "b", 3)
  ∧ tokens !! 3 = Some ("OP", "&&")
  ∧ "&&" ∈ Parser.upper_ops
  ∧ Parser.parse_term tokens 3 4 = Ok (ID "c", 5)
  ∧ Parser.at_op_in tokens Parser.upper_ops 5 = false
  ∧ Parser.parse_expression tokens 7 0
    = Ok (BINOP "&&" (BINOP "==" (ID "a") (ID "b")) (ID "c"), 5).
Proof.
  intros tokens.
  assert ("==" ∈ Parser.upper_ops) as Hin1
    by (apply str_in_spec; reflexivity).
  assert ("&&" ∈ Parser.upper_ops) as Hin2
    by (apply str_in_spec; reflexivity).
  do 8 (split; [first [reflexivity|assumption]|]).
  exact (proj1 (upper_operators_group_left tokens 3 0 1 3 5
                  (ID "a") (ID "b") (ID "c") "==" "&&"
                  eq_refl eq_refl Hin1 eq_refl eq_refl Hin2 eq_refl eq_refl) 0).
Defined.

(** ** Lists, indices and the [Arrays] class *)

Lemma as_int_order (test : comparison → bool) (x y : value) (a b : Z) :
  PyVal.as_int x = Some a → PyVal.as_int y = Some b →
  PyVal.order test x y = Ok (test (a ?= b)%Z).
Proof.
  intros Hx Hy. destruct x, y; try discriminate; cbn in *;
    repeat match goal with H : Some _ = Some _ |- _ =>
      injection H as <- end; reflexivity.
Qed.

Lemma order_Ok_number (test : comparison → bool) (x : value) (b : Z)
    (r : bool) :
  PyVal.order test x (VInt b) = Ok r →
  (∃ a, PyVal.as_int x = Some a ∧ r = test (a ?= b)%Z) ∨ ∃ f, x = VFloat f.
Proof.
  destruct x; cbn; intros H; try discriminate;
    try (left; injection H as <-; eexists; (split; reflexivity)).
  right. eauto.
Qed.

(** What [check_index] lets pass: an integer or a [bool] inside the bounds,
    and a float for which both of its tests are false. *)
Lemma check_index_spec (size : Z) (index : value) (r : value) :
  Lib.Arrays_check_index size index = Ok r →
  r = VBool true
  ∧ ((∃ i, PyVal.as_int index = Some i ∧ (0 ≤ i < size)%Z)
     ∨ (∃ f, index = VFloat f
             ∧ PyVal.lt index (VInt 0) = Ok false
             ∧ PyVal.ge index (VInt size) = Ok false)).
Proof.
  unfold Lib.Arrays_check_index. intros H.
  destruct (PyVal.lt index (VInt 0)) as [neg| | |] eqn:E1;
    try discriminate H.
  cbn in H. destruct neg; [discriminate H|].
  destruct (PyVal.ge index (VInt size)) as [big| | |] eqn:E2;
    try discriminate H.
  cbn in H. destruct big; [discriminate H|]. injection H as <-.
  split; [reflexivity|].
  destruct (order_Ok_number _ _ _ _ E1) as [(a & Ha & R1)|[f ->]].
  - left. destruct (order_Ok_number _ _ _ _ E2) as [(a' & Ha' & R2)|[f ->]];
      [|discriminate Ha].
    rewrite Ha in Ha'. injection Ha' as <-. exists a. split; [exact Ha|].
    destruct (Z.compare_spec a 0), (Z.compare_spec a size);
      try discriminate; lia.
  - right. exists f. split_and!; reflexivity.
Qed.

Lemma check_index_int (size : Z) (index : value) (i : Z) :
  PyVal.as_int index = Some i →
  Lib.Arrays_check_index size index
  = if decide (0 ≤ i < size)%Z then Ok (VBool true) else Raise IndexError.
Proof.
  intros Hi. unfold Lib.Arrays_check_index, PyVal.lt, PyVal.ge.
  rewrite (as_int_order _ index (VInt 0) i 0 Hi eq_refl). cbn.
  destruct (Z.compare_spec i 0); cbn;
    try (rewrite decide_False by lia; reflexivity);
    rewrite (as_int_order _ index (VInt size) i size Hi eq_refl); cbn;
    destruct (Z.compare_spec i size); cbn;
    first [ rewrite decide_True by lia; reflexivity
          | rewrite decide_False by lia; reflexivity ].
Qed.

Lemma list_index_nat {A} (l : list A) (i : Z) :
  (0 ≤ i < Z.of_nat (length l))%Z → Lib.list_index l i = Some (Z.to_nat i).
Proof.
  intros H. unfold Lib.list_index.
  destruct (Z.leb_spec 0 i), (Z.ltb_spec i (Z.of_nat (length l)));
    try lia; reflexivity.
Qed.

Lemma subscript_int (l : list value) (index : value) (i : Z) :
  PyVal.as_int index = Some i → (0 ≤ i < Z.of_nat (length l))%Z →
  Lib.subscript l index = Ok (default VNone (l !! Z.to_nat i))
  ∧ is_Some (l !! Z.to_nat i).
Proof.
  intros Hi H. unfold Lib.subscript. rewrite Hi, list_index_nat by exact H.
  destruct (lookup_lt_is_Some_2 l (Z.to_nat i)) as [v Hv]; [lia|].
  rewrite Hv. split; [reflexivity|eauto].
Qed.

Lemma subscript_nat (l : list value) (k : nat) (v : value) :
  l !! k = Some v → Lib.subscript l (VInt (Z.of_nat k)) = Ok v.
Proof.
  intros Hv. pose proof (lookup_lt_Some _ _ _ Hv) as Hk.
  destruct (subscript_int l (VInt (Z.of_nat k)) (Z.of_nat k) eq_refl) as [E _];
    [lia|].
  rewrite E, Nat2Z.id, Hv. reflexivity.
Qed.

Lemma store_int (l : list value) (index item : value) (i : Z) :
  PyVal.as_int index = Some i → (0 ≤ i < Z.of_nat (length l))%Z →
  Lib.store l index item = Ok (<[Z.to_nat i:=item]> l).
Proof.
  intros Hi H. unfold Lib.store. rewrite Hi, list_index_nat by exact H.
  reflexivity.
Qed.

Lemma Arrays_add_loop_copies (array : list value) (m k : nat)
    (tail : list value) :
  k + m ≤ length array → length tail = m →
  ∀ rest,
  Lib.Arrays_add_loop array (seq k m) (take k array ++ tail ++ rest)
  = Ok (take (k + m) array ++ rest).
Proof.
  revert k tail. induction m as [|m IH]; intros k tail Hk Ht rest.
  - destruct tail; [|discriminate]. cbn. rewrite Nat.add_0_r. reflexivity.
  - destruct tail as [|t tail]; [discriminate|]. cbn [seq Lib.Arrays_add_loop].
    destruct (lookup_lt_is_Some_2 array k) as [v Hv]; [lia|].
    rewrite (subscript_nat _ _ _ Hv). cbn [mbind outcome_bind].
    rewrite (store_int _ (VInt (Z.of_nat k)) _ (Z.of_nat k) eq_refl).
    2:{ rewrite length_app, length_take. cbn. lia. }
    cbn [mbind outcome_bind]. rewrite Nat2Z.id.
    assert (Hlen : length (take k array) = k) by (rewrite length_take; lia).
    rewrite insert_app_r_alt by lia. rewrite Hlen, Nat.sub_diag. cbn.
    replace (take k array ++ v :: tail ++ rest)
      with (take (S k) array ++ tail ++ rest).
    2:{ rewrite (take_S_r _ _ _ Hv), <- app_assoc. reflexivity. }
    rewrite IH by (cbn in Ht; lia). f_equal. f_equal. f_equal. lia.
Qed.

Lemma Arrays_add_spec (size : Z) (array : list value) (item : value) :
  Lib.Arrays_wf size array →
  Lib.Arrays_add size array item = Ok (Arrays (size + 1) (array ++ [item])).
Proof.
  unfold Lib.Arrays_wf. intros Hwf. unfold Lib.Arrays_add.
  assert (Hn : Z.to_nat size = length array) by lia.
  replace (Z.to_nat (size + 1)) with (length array + 1) by lia.
  rewrite Hn, replicate_add.
  pose proof (Arrays_add_loop_copies array (length array) 0
                (replicate (length array) (VInt 0)) ltac:(lia)
                ltac:(apply length_replicate) (replicate 1 (VInt 0))) as H.
  change (take 0 array) with (@nil value) in H.
  rewrite app_nil_l, Nat.add_0_l, firstn_all in H. rewrite H.
  cbn [mbind outcome_bind].
  rewrite (store_int _ (VInt size) _ size eq_refl)
    by (rewrite length_app; cbn; lia).
  cbn [mbind outcome_bind]. rewrite Hn.
  rewrite insert_app_r_alt, Nat.sub_diag by lia. reflexivity.
Qed.

Lemma eq_int_as_int (n : Z) (index : value) (i : Z) :
  PyVal.as_int index = Some i → PyVal.eq (VInt n) index = Ok (n =? i)%Z.
Proof.
  destruct index; try discriminate; cbn; intros H; injection H as <-;
    reflexivity.
Qed.

(** A float is equal to one integer at most. *)
Lemma float_eq_int_unique (f : float) (a b : Z) :
  PyVal.float_eq_int f a = true → PyVal.float_eq_int f b = true → a = b.
Proof.
  unfold PyVal.float_eq_int, PyVal.float_compare_int.
  destruct (Prim2SF f) as [s|s| |s m e].
  - destruct (Z.compare_spec 0 a), (Z.compare_spec 0 b); try discriminate.
    lia.
  - destruct s; discriminate.
  - discriminate.
  - destruct (Z.leb_spec 0 e).
    + destruct (Z.compare_spec ((if s then Z.neg m else Z.pos m) * 2 ^ e) a),
        (Z.compare_spec ((if s then Z.neg m else Z.pos m) * 2 ^ e) b);
        try discriminate. lia.
    + assert (Hp : (0 < 2 ^ (- e))%Z) by (apply Z.pow_pos_nonneg; lia).
      revert Hp. generalize (2 ^ (- e))%Z as p. intros p Hp.
      destruct (Z.compare_spec (if s then Z.neg m else Z.pos m) (a * p)),
        (Z.compare_spec (if s then Z.neg m else Z.pos m) (b * p));
        try discriminate. intros _ _. nia.
Qed.

(** The loop of [remove] for an index equal to the integer [i]: an
    integer, a [bool], or a float with that value. *)
Lemma Arrays_remove_loop_spec (array : list value) (index : value) (i : Z)
    (m k : nat) (acc : list value) :
  (∀ n : nat, PyVal.eq (VInt (Z.of_nat n)) index = Ok (Z.of_nat n =? i)%Z) →
  k + m = length array →
  Lib.Arrays_remove_loop array index (seq k m) acc
  = Ok (acc ++ if decide (Z.of_nat k ≤ i)%Z
               then delete (Z.to_nat i - k) (drop k array)
               else drop k array).
Proof.
  intros Heq. revert k acc. induction m as [|m IH]; intros k acc Hk.
  - cbn. rewrite drop_ge by lia.
    destruct (decide _); [destruct (Z.to_nat i - k)|];
      cbn; rewrite app_nil_r; reflexivity.
  - cbn [seq Lib.Arrays_remove_loop]. rewrite Heq. cbn [mbind outcome_bind].
    destruct (lookup_lt_is_Some_2 array k) as [v Hv]; [lia|].
    rewrite (drop_S _ _ _ Hv).
    destruct (Z.eqb_spec (Z.of_nat k) i) as [<-|Hne].
    + rewrite IH by lia. rewrite decide_False by lia.
      rewrite decide_True by lia.
      replace (Z.to_nat (Z.of_nat k) - k) with 0 by lia. reflexivity.
    + rewrite (subscript_nat _ _ _ Hv). cbn [mbind outcome_bind].
      rewrite IH by lia. rewrite <- app_assoc. cbn [app].
      destruct (decide (Z.of_nat k ≤ i)%Z).
      * rewrite decide_True by lia.
        replace (Z.to_nat i - k) with (S (Z.to_nat i - S k)) by lia.
        reflexivity.
      * rewrite decide_False by lia. reflexivity.
Qed.

(** The loop of [remove] for an index that no position is equal to: every
    cell is copied. *)
Lemma Arrays_remove_loop_copies (array : list value) (index : value)
    (m k : nat) (acc : list value) :
  (∀ n, k ≤ n < k + m → PyVal.eq (VInt (Z.of_nat n)) index = Ok false) →
  k + m = length array →
  Lib.Arrays_remove_loop array index (seq k m) acc = Ok (acc ++ drop k array).
Proof.
  revert k acc. induction m as [|m IH]; intros k acc Heq Hk.
  - cbn. rewrite drop_ge by lia. rewrite app_nil_r. reflexivity.
  - cbn [seq Lib.Arrays_remove_loop]. rewrite Heq by lia.
    cbn [mbind outcome_bind].
    destruct (lookup_lt_is_Some_2 array k) as [v Hv]; [lia|].
    rewrite (drop_S _ _ _ Hv), (subscript_nat _ _ _ Hv).
    cbn [mbind outcome_bind].
    rewrite IH; [|intros n Hn; apply Heq; lia|lia].
    rewrite <- app_assoc. reflexivity.
Qed.

(** The loop of [remove] for a float: the cell at the one position the
    float is equal to is left out, and no cell when there is none. *)
Lemma Arrays_remove_loop_float (array : list value) (f : float) (m k : nat)
    (acc : list value) :
  k + m = length array →
  Lib.Arrays_remove_loop array (VFloat f) (seq k m) acc
  = Ok (acc ++ drop k array)
  ∨ ∃ j, k ≤ j < k + m
         ∧ Lib.Arrays_remove_loop array (VFloat f) (seq k m) acc
           = Ok (acc ++ delete (j - k) (drop k array)).
Proof.
  revert k acc. induction m as [|m IH]; intros k acc Hk.
  - left. cbn. rewrite drop_ge by lia. rewrite app_nil_r. reflexivity.
  - cbn [seq Lib.Arrays_remove_loop].
    change (PyVal.eq (VInt (Z.of_nat k)) (VFloat f))
      with (Ok (PyVal.float_eq_int f (Z.of_nat k))).
    cbn [mbind outcome_bind].
    destruct (lookup_lt_is_Some_2 array k) as [v Hv]; [lia|].
    rewrite (drop_S _ _ _ Hv).
    destruct (PyVal.float_eq_int f (Z.of_nat k)) eqn:Ek.
    + right. exists k. split; [lia|]. rewrite Nat.sub_diag. cbn [delete].
      apply Arrays_remove_loop_copies; [|lia]. intros n Hn.
      change (PyVal.eq (VInt (Z.of_nat n)) (VFloat f))
        with (Ok (PyVal.float_eq_int f (Z.of_nat n))).
      destruct (PyVal.float_eq_int f (Z.of_nat n)) eqn:En; [|reflexivity].
      pose proof (float_eq_int_unique _ _ _ Ek En). lia.
    + rewrite (subscript_nat _ _ _ Hv). cbn [mbind outcome_bind].
      destruct (IH (S k) (acc ++ [v]) ltac:(lia)) as [E|(j & Hj & E)].
      * left. rewrite E, <- app_assoc. reflexivity.
      * right. exists j. split; [lia|]. rewrite E, <- app_assoc.
        replace (j - k) with (S (j - S k)) by lia. reflexivity.
Qed.

Lemma Arrays_remove_spec (size : Z) (array : list value) (index : value)
    (i : Z) :
  Lib.Arrays_wf size array →
  PyVal.as_int index = Some i → (0 ≤ i < size)%Z →
  Lib.Arrays_remove size array index
  = Ok (Arrays (size - 1) (delete (Z.to_nat i) array)).
Proof.
  unfold Lib.Arrays_wf. intros Hwf Hi Hr. unfold Lib.Arrays_remove.
  rewrite (check_index_int _ _ _ Hi), decide_True by exact Hr.
  cbn [mbind outcome_bind]. destruct (Z.eqb_spec size 0); [lia|].
  rewrite (Arrays_remove_loop_spec array index i (Z.to_nat size) 0)
    by (try lia; intros ?; apply eq_int_as_int, Hi).
  cbn [mbind outcome_bind app]. rewrite decide_True by lia.
  rewrite Nat.sub_0_r. reflexivity.
Qed.

(** [remove] with a float index that [check_index] lets pass. *)
Lemma Arrays_remove_float (size : Z) (array : list value) (f : float)
    (o : object) :
  Lib.Arrays_wf size array →
  Lib.Arrays_remove size array (VFloat f) = Ok o →
  o = Arrays (size - 1) array
  ∨ ∃ j, j < length array ∧ o = Arrays (size - 1) (delete j array).
Proof.
  unfold Lib.Arrays_wf, Lib.Arrays_remove. intros Hwf H.
  destruct (Lib.Arrays_check_index _ _); try discriminate H.
  cbn [mbind outcome_bind] in H.
  destruct (size =? 0)%Z; [discriminate H|].
  destruct (Arrays_remove_loop_float array f (Z.to_nat size) 0 [] ltac:(lia))
    as [E|(j & Hj & E)]; rewrite E in H; cbn in H; injection H as <-.
  - left. reflexivity.
  - right. exists j. split; [lia|]. rewrite Nat.sub_0_r. reflexivity.
Qed.

Lemma Arrays_insert_spec (size : Z) (array : list value) (index item : value)
    (i : Z) :
  Lib.Arrays_wf size array →
  PyVal.as_int index = Some i → (0 ≤ i < size)%Z →
  Lib.Arrays_insert size array index item
  = Ok (Arrays size (<[Z.to_nat i:=item]> array)).
Proof.
  unfold Lib.Arrays_wf. intros Hwf Hi Hr. unfold Lib.Arrays_insert.
  rewrite (check_index_int _ _ _ Hi), decide_True by exact Hr.
  cbn [mbind outcome_bind].
  rewrite (store_int _ _ _ _ Hi) by lia. reflexivity.
Qed.

Lemma Arrays_at_spec (size : Z) (array : list value) (index : value) (i : Z)
    (v : value) :
  PyVal.as_int index = Some i → (0 ≤ i < size)%Z →
  array !! Z.to_nat i = Some v →
  Lib.Arrays_at size array index = Ok v.
Proof.
  intros Hi Hr Hv. unfold Lib.Arrays_at.
  rewrite (check_index_int _ _ _ Hi), decide_True by exact Hr.
  cbn [mbind outcome_bind].
  pose proof (lookup_lt_Some _ _ _ Hv) as Hlt.
  destruct (subscript_int array index i Hi) as [E _]; [lia|].
  rewrite E, Hv. reflexivity.
Qed.

Lemma Arrays_out_of_bounds (size : Z) (index : value) (i : Z) :
  PyVal.as_int index = Some i → ¬ (0 ≤ i < size)%Z →
  Lib.Arrays_check_index size index = Raise IndexError.
Proof.
  intros Hi Hr. rewrite (check_index_int _ _ _ Hi), decide_False by exact Hr.
  reflexivity.
Qed.

(** X1: the invariant [self.size == len(self.array)] of an [Arrays]
    instance.  A method call that returns keeps it ([insert] writes in
    place, [remove] drops one cell and one from the size, [add] appends one
    cell and adds one to the size), with one exception: [remove] with a
    float index that [check_index] lets pass and that no position is equal
    to drops no cell and still takes one from the size, as [remove(0.5)]
    does on an array of two cells.  [__init__] sets the invariant up for
    every size that is not negative. *)
Theorem Arrays_methods_keep_invariant (h h' : list object) (l : nat)
    (size : Z) (array : list value) (name : string) (args : list value)
    (r : value) :
  h !! l = Some (Arrays size array) →
  Lib.Arrays_wf size array →
  Lib.call h l name args = Ok (r, h') →
  (∃ size' array',
     h' !! l = Some (Arrays size' array')
     ∧ (Lib.Arrays_wf size' array'
        ∨ (name = "remove" ∧ (∃ f, args = [VFloat f])
           ∧ size' = (size - 1)%Z ∧ array' = array)))
  ∧ (∀ n, (0 ≤ n)%Z →
       ∃ array0, Lib.Arrays_init [VInt n] = Ok (Arrays n array0)
                 ∧ Lib.Arrays_wf n array0)
  ∧ Lib.call [Arrays 2 [VInt 0; VInt 0]] 0 "remove" [VFloat 0.5]
    = Ok (VNone, [Arrays 1 [VInt 0; VInt 0]])
  ∧ ¬ Lib.Arrays_wf 1 [VInt 0; VInt 0].
Proof.
  intros Hl Hwf Hcall. split; [|split; [|split]].
  2:{ intros n Hn. eexists. split; [reflexivity|].
      unfold Lib.Arrays_wf. rewrite length_replicate. lia. }
  2:{ vm_compute. reflexivity. }
  2:{ unfold Lib.Arrays_wf. cbn. lia. }
  pose proof (lookup_lt_Some _ _ _ Hl) as Hlt.
  unfold Lib.call in Hcall. rewrite Hl in Hcall.
  destruct (String.eqb name "check_index").
  { destruct args as [|index [|]]; try discriminate Hcall.
    destruct (Lib.Arrays_check_index _ _); try discriminate Hcall.
    injection Hcall as _ <-. eauto. }
  destruct (String.eqb name "length").
  { destruct args; try discriminate Hcall. injection Hcall as _ <-. eauto. }
  destruct (String.eqb name "at").
  { destruct args as [|index [|]]; try discriminate Hcall.
    destruct (Lib.Arrays_at _ _ _); try discriminate Hcall.
    injection Hcall as _ <-. eauto. }
  destruct (String.eqb name "insert").
  { destruct args as [|index [|item [|]]]; try discriminate Hcall.
    destruct (Lib.Arrays_insert _ _ _ _) as [o| | |] eqn:E;
      try discriminate Hcall.
    injection Hcall as _ <-. rewrite list_lookup_insert_eq by exact Hlt.
    unfold Lib.Arrays_insert in E.
    destruct (Lib.Arrays_check_index _ _) as [c| | |] eqn:Ec;
      try discriminate E.
    cbn [mbind outcome_bind] in E.
    destruct (Lib.store array index item) as [array'| | |] eqn:Es;
      try discriminate E.
    injection E as <-. do 2 eexists. split; [reflexivity|]. left.
    unfold Lib.store in Es.
    destruct (PyVal.as_int index); [|discriminate Es].
    destruct (Lib.list_index array z); [|discriminate Es].
    injection Es as <-.
    unfold Lib.Arrays_wf in *. rewrite length_insert. exact Hwf. }
  destruct (String.eqb_spec name "remove") as [Hname|_].
  { destruct args as [|index [|]]; try discriminate Hcall.
    destruct (Lib.Arrays_remove _ _ _) as [o| | |] eqn:E;
      try discriminate Hcall.
    injection Hcall as _ <-. rewrite list_lookup_insert_eq by exact Hlt.
    assert (Hc : ∃ c, Lib.Arrays_check_index size index = Ok c).
    { unfold Lib.Arrays_remove in E.
      destruct (Lib.Arrays_check_index _ _); try discriminate E. eauto. }
    destruct Hc as [c Hc].
    apply check_index_spec in Hc as (_ & [(i & Hi & Hr)|(f & -> & _)]).
    - rewrite (Arrays_remove_spec _ _ _ _ Hwf Hi Hr) in E. injection E as <-.
      do 2 eexists. split; [reflexivity|]. left.
      unfold Lib.Arrays_wf in *. rewrite length_delete; [lia|].
      apply lookup_lt_is_Some_2. lia.
    - destruct (Arrays_remove_float _ _ _ _ Hwf E) as [->|(j & Hj & ->)];
        do 2 eexists; (split; [reflexivity|]).
      + right. split_and!; eauto.
      + left. unfold Lib.Arrays_wf in *. rewrite length_delete; [lia|].
        apply lookup_lt_is_Some_2. exact Hj. }
  destruct (String.eqb name "add"); [|discriminate Hcall].
  destruct args as [|item [|]]; try discriminate Hcall.
  rewrite (Arrays_add_spec _ _ _ Hwf) in Hcall.
  cbn [mbind outcome_bind] in Hcall. injection Hcall as _ <-.
  rewrite list_lookup_insert_eq by exact Hlt.
  do 2 eexists. split; [reflexivity|]. left.
  unfold Lib.Arrays_wf in *. rewrite length_app. cbn. lia.
Qed.

Lemma Arrays_methods_keep_invariant_witness :
  let h := [Arrays 2 [VInt 0; VInt 0]] in
  h !! 0 = Some (Arrays 2 [VInt 0; VInt 0])
  ∧ Lib.Arrays_wf 2 [VInt 0; VInt 0]
  ∧ Lib.call h 0 "add" [VInt 7]
    = Ok (VNone, [Arrays 3 [VInt 0; VInt 0; VInt 7]])
  ∧ ∃ size' array',
      [Arrays 3 [VInt 0; VInt 0; VInt 7]] !! 0 = Some (Arrays size' array')
      ∧ (Lib.Arrays_wf size' array'
         ∨ ("add" = "remove" ∧ (∃ f, [VInt 7] = [VFloat f])
            ∧ size' = (2 - 1)%Z ∧ array' = [VInt 0; VInt 0])).
Proof.
  do 3 (split; [reflexivity|]).
  exact (proj1 (Arrays_methods_keep_invariant
                  [Arrays 2 [VInt 0; VInt 0]] _ 0 2 _ "add" [VInt 7] VNone
                  eq_refl eq_refl eq_refl)).
Defined.

(** X2: [add] on an array that satisfies the invariant appends the item:
    the size grows by one, [at] reads the item back at the old size, and
    every cell below it reads as before. *)
Theorem Arrays_add_then_at (size : Z) (array : list value) (item : value) :
  Lib.Arrays_wf size array →
  ∃ array',
    Lib.Arrays_add size array item = Ok (Arrays (size + 1) array')
    ∧ array' = array ++ [item]
    ∧ Lib.Arrays_at (size + 1) array' (VInt size) = Ok item
    ∧ ∀ i, (0 ≤ i < size)%Z →
        Lib.Arrays_at (size + 1) array' (VInt i)
        = Lib.Arrays_at size array (VInt i).
Proof.
  intros Hwf. exists (array ++ [item]). pose proof Hwf as Hlen.
  unfold Lib.Arrays_wf in Hlen. split_and!.
  - apply Arrays_add_spec, Hwf.
  - reflexivity.
  - apply (Arrays_at_spec _ _ _ size); [reflexivity|lia|].
    rewrite lookup_app_r by lia.
    replace (Z.to_nat size - length array) with 0 by lia. reflexivity.
  - intros i Hi.
    destruct (lookup_lt_is_Some_2 array (Z.to_nat i)) as [v Hv]; [lia|].
    rewrite (Arrays_at_spec size array (VInt i) i v eq_refl Hi Hv).
    apply (Arrays_at_spec _ _ _ i); [reflexivity|lia|].
    rewrite lookup_app_l by lia. exact Hv.
Qed.

Lemma Arrays_add_then_at_witness :
  Lib.Arrays_wf 1 [VStr "a"]
  ∧ ∃ array',
      Lib.Arrays_add 1 [VStr "a"] (VInt 7) = Ok (Arrays (1 + 1) array')
      ∧ array' = [VStr "a"] ++ [VInt 7]
      ∧ Lib.Arrays_at (1 + 1) array' (VInt 1) = Ok (VInt 7)
      ∧ ∀ i, (0 ≤ i < 1)%Z →
          Lib.Arrays_at (1 + 1) array' (VInt i)
          = Lib.Arrays_at 1 [VStr "a"] (VInt i).
Proof.
  split; [reflexivity|].
  exact (Arrays_add_then_at 1 [VStr "a"] (VInt 7) eq_refl).
Defined.

(** X3: [insert] at an index inside the bounds overwrites that cell and
    nothing else: the size stays, [at] reads the item back at the index, and
    every other index reads as before.  ([True] and [False] count as the
    indices 1 and 0.) *)
Theorem Arrays_insert_then_at (size : Z) (array : list value)
    (index item : value) (i : Z) :
  Lib.Arrays_wf size array →
  PyVal.as_int index = Some i → (0 ≤ i < size)%Z →
  ∃ array',
    Lib.Arrays_insert size array index item = Ok (Arrays size array')
    ∧ Lib.Arrays_wf size array'
    ∧ Lib.Arrays_at size array' index = Ok item
    ∧ ∀ j, j ≠ i →
        Lib.Arrays_at size array' (VInt j) = Lib.Arrays_at size array (VInt j).
Proof.
  intros Hwf Hi Hr. exists (<[Z.to_nat i:=item]> array).
  pose proof Hwf as Hlen. unfold Lib.Arrays_wf in Hlen. split_and!.
  - apply Arrays_insert_spec; assumption.
  - unfold Lib.Arrays_wf. rewrite length_insert. exact Hlen.
  - apply (Arrays_at_spec _ _ _ i); [exact Hi|exact Hr|].
    apply list_lookup_insert_eq. lia.
  - intros j Hj. unfold Lib.Arrays_at.
    rewrite (check_index_int size (VInt j) j eq_refl).
    destruct (decide (0 ≤ j < size)%Z) as [Hjr|]; [|reflexivity].
    cbn [mbind outcome_bind].
    destruct (subscript_int (<[Z.to_nat i:=item]> array) (VInt j) j eq_refl)
      as [-> _]; [rewrite length_insert; lia|].
    destruct (subscript_int array (VInt j) j eq_refl) as [-> _]; [lia|].
    rewrite list_lookup_insert_ne by lia. reflexivity.
Qed.

Lemma Arrays_insert_then_at_witness :
  Lib.Arrays_wf 2 [VInt 0; VInt 0]
  ∧ PyVal.as_int (VInt 1) = Some 1%Z ∧ (0 ≤ 1 < 2)%Z
  ∧ ∃ array',
      Lib.Arrays_insert 2 [VInt 0; VInt 0] (VInt 1) (VStr "b")
      = Ok (Arrays 2 array')
      ∧ Lib.Arrays_wf 2 array'
      ∧ Lib.Arrays_at 2 array' (VInt 1) = Ok (VStr "b")
      ∧ ∀ j, j ≠ 1%Z →
          Lib.Arrays_at 2 array' (VInt j)
          = Lib.Arrays_at 2 [VInt 0; VInt 0] (VInt j).
Proof.
  split; [reflexivity|]. split; [reflexivity|]. split; [lia|].
  exact (Arrays_insert_then_at 2 [VInt 0; VInt 0] (VInt 1) (VStr "b") 1
           eq_refl eq_refl ltac:(lia)).
Defined.

(** X4: [remove] at an index inside the bounds takes out that cell and
    shifts the later ones down: the size drops by one, the cells below the
    index read as before, and index [j] from there on reads what [j + 1]
    read before. *)
Theorem Arrays_remove_shifts (size : Z) (array : list value) (index : value)
    (i : Z) :
  Lib.Arrays_wf size array →
  PyVal.as_int index = Some i → (0 ≤ i < size)%Z →
  ∃ array',
    Lib.Arrays_remove size array index = Ok (Arrays (size - 1) array')
    ∧ Lib.Arrays_wf (size - 1) array'
    ∧ (∀ j, (0 ≤ j < i)%Z →
         Lib.Arrays_at (size - 1) array' (VInt j)
         = Lib.Arrays_at size array (VInt j))
    ∧ (∀ j, (i ≤ j < size - 1)%Z →
         Lib.Arrays_at (size - 1) array' (VInt j)
         = Lib.Arrays_at size array (VInt (j + 1))).
Proof.
  intros Hwf Hi Hr. exists (delete (Z.to_nat i) array).
  pose proof Hwf as Hlen. unfold Lib.Arrays_wf in Hlen.
  assert (Hlen' : length (delete (Z.to_nat i) array) = Z.to_nat (size - 1)).
  { rewrite length_delete; [lia|]. apply lookup_lt_is_Some_2. lia. }
  split_and!.
  - apply Arrays_remove_spec; assumption.
  - unfold Lib.Arrays_wf. lia.
  - intros j Hj.
    destruct (lookup_lt_is_Some_2 array (Z.to_nat j)) as [v Hv]; [lia|].
    rewrite (Arrays_at_spec size array (VInt j) j v eq_refl ltac:(lia) Hv).
    apply (Arrays_at_spec _ _ _ j); [reflexivity|lia|].
    rewrite list_lookup_delete_lt by lia. exact Hv.
  - intros j Hj.
    destruct (lookup_lt_is_Some_2 array (Z.to_nat (j + 1))) as [v Hv]; [lia|].
    rewrite (Arrays_at_spec size array (VInt (j + 1)) (j + 1) v eq_refl
               ltac:(lia) Hv).
    apply (Arrays_at_spec _ _ _ j); [reflexivity|lia|].
    rewrite list_lookup_delete_ge by lia.
    replace (S (Z.to_nat j)) with (Z.to_nat (j + 1)) by lia. exact Hv.
Qed.

Lemma Arrays_remove_shifts_witness :
  Lib.Arrays_wf 3 [VInt 5; VInt 6; VInt 7]
  ∧ PyVal.as_int (VInt 1) = Some 1%Z ∧ (0 ≤ 1 < 3)%Z
  ∧ ∃ array',
      Lib.Arrays_remove 3 [VInt 5; VInt 6; VInt 7] (VInt 1)
      = Ok (Arrays (3 - 1) array')
      ∧ Lib.Arrays_wf (3 - 1) array'
      ∧ (∀ j, (0 ≤ j < 1)%Z →
           Lib.Arrays_at (3 - 1) array' (VInt j)
           = Lib.Arrays_at 3 [VInt 5; VInt 6; VInt 7] (VInt j))
      ∧ (∀ j, (1 ≤ j < 3 - 1)%Z →
           Lib.Arrays_at (3 - 1) array' (VInt j)
           = Lib.Arrays_at 3 [VInt 5; VInt 6; VInt 7] (VInt (j + 1))).
Proof.
  split; [reflexivity|]. split; [reflexivity|]. split; [lia|].
  exact (Arrays_remove_shifts 3 [VInt 5; VInt 6; VInt 7] (VInt 1) 1
           eq_refl eq_refl ltac:(lia)).
Defined.

(** X5: an integer index below zero or not below the size makes
    [check_index], [at], [insert] and [remove] raise [IndexError], the array
    being left as it is; and when [check_index] returns, it returns [True],
    so that the [if not self.check_index(index): return] of the three
    methods never returns.  The index is then an integer or a [bool] inside
    the bounds, or a float that both tests of [check_index] let pass. *)
Theorem Arrays_index_bounds (size : Z) (array : list value)
    (index item : value) (i : Z) :
  PyVal.as_int index = Some i →
  ¬ (0 ≤ i < size)%Z →
  Lib.Arrays_check_index size index = Raise IndexError
  ∧ Lib.Arrays_at size array index = Raise IndexError
  ∧ Lib.Arrays_insert size array index item = Raise IndexError
  ∧ Lib.Arrays_remove size array index = Raise IndexError
  ∧ (∀ index' r,
       Lib.Arrays_check_index size index' = Ok r →
       r = VBool true
       ∧ ((∃ j, PyVal.as_int index' = Some j ∧ (0 ≤ j < size)%Z)
          ∨ (∃ f, index' = VFloat f
                  ∧ PyVal.lt index' (VInt 0) = Ok false
                  ∧ PyVal.ge index' (VInt size) = Ok false))).
Proof.
  intros Hi Hr.
  pose proof (Arrays_out_of_bounds size index i Hi Hr) as E.
  unfold Lib.Arrays_at, Lib.Arrays_insert, Lib.Arrays_remove. rewrite E.
  split_and!; try reflexivity. intros index' r. apply check_index_spec.
Qed.

Lemma Arrays_index_bounds_witness :
  PyVal.as_int (VInt 2) = Some 2%Z
  ∧ ¬ (0 ≤ 2 < 2)%Z
  ∧ Lib.Arrays_at 2 [VInt 0; VInt 0] (VInt 2) = Raise IndexError
  ∧ Lib.Arrays_at 2 [VInt 0; VInt 0] (VInt (-1)) = Raise IndexError.
Proof.
  split; [reflexivity|]. split; [lia|]. split; [|reflexivity].
  exact (proj1 (proj2 (Arrays_index_bounds 2 [VInt 0; VInt 0] (VInt 2) VNone 2
                         eq_refl ltac:(lia)))).
Defined.

(** X6: [Arrays(n)] with a negative [n] builds an instance with that
    negative size and no cell.  No method can use it: [at], [insert] and
    [remove] raise [IndexError] for every integer index, and so does [add]
    (it writes at the index [n] of a list that is empty).  A [bool] size is
    refused with [ValueError]. *)
Theorem Arrays_negative_size (n : Z) :
  (n < 0)%Z →
  Lib.Arrays_init [VInt n] = Ok (Arrays n [])
  ∧ (∀ index i item,
       PyVal.as_int index = Some i →
       Lib.Arrays_at n [] index = Raise IndexError
       ∧ Lib.Arrays_insert n [] index item = Raise IndexError
       ∧ Lib.Arrays_remove n [] index = Raise IndexError)
  ∧ (∀ item, Lib.Arrays_add n [] item = Raise IndexError)
  ∧ (∀ b, Lib.Arrays_init [VBool b] = Raise ValueError).
Proof.
  intros Hn. split_and!.
  - cbn. replace (Z.to_nat n) with 0 by lia. reflexivity.
  - intros index i item Hi.
    assert (E : Lib.Arrays_check_index n index = Raise IndexError)
      by (apply (Arrays_out_of_bounds n index i Hi); lia).
    unfold Lib.Arrays_at, Lib.Arrays_insert, Lib.Arrays_remove. rewrite E.
    split_and!; reflexivity.
  - intros item. unfold Lib.Arrays_add.
    replace (Z.to_nat (n + 1)) with 0 by lia.
    replace (Z.to_nat n) with 0 by lia. cbn.
    unfold Lib.store, Lib.list_index. cbn.
    destruct (Z.leb_spec 0 n); [lia|]. cbn.
    change (- Z.of_nat 0)%Z with 0%Z.
    destruct (Z.leb_spec 0 n); [lia|]. reflexivity.
  - reflexivity.
Qed.

Lemma Arrays_negative_size_witness :
  (-1 < 0)%Z
  ∧ Lib.Arrays_init [VInt (-1)] = Ok (Arrays (-1) [])
  ∧ Lib.Arrays_add (-1) [] (VInt 7) = Raise IndexError.
Proof.
  split; [lia|]. split; [reflexivity|].
  exact (proj1 (proj2 (proj2 (Arrays_negative_size (-1) ltac:(lia)))) (VInt 7)).
Defined.

(** ** The [Shmuple] class *)

Lemma Shmuple_Index_from_last (t : list value) (x y item : value)
    (steps c : nat) :
  c + steps ≤ length t →
  Lib.Shmuple_Index_from (t ++ [x]) item c steps
  = Lib.Shmuple_Index_from (t ++ [y]) item c steps.
Proof.
  revert c. induction steps as [|steps IH]; intros c Hc; [reflexivity|].
  cbn [Lib.Shmuple_Index_from]. unfold Lib.Shmuple_getitem.
  destruct (lookup_lt_is_Some_2 t c) as [v Hv]; [lia|].
  rewrite !(subscript_nat _ c v) by (rewrite lookup_app_l by lia; exact Hv).
  cbn [mbind outcome_bind]. destruct (PyVal.eq v item) as [[]| | |];
    cbn [mbind outcome_bind]; try reflexivity.
  apply IH. lia.
Qed.

Lemma Shmuple_Index_from_skip (done pre rest : list Z) (z : Z) (k : nat) :
  z ∉ pre → k ≤ length rest →
  Lib.Shmuple_Index_from (VInt <$> (done ++ pre ++ rest)) (VInt z)
    (length done) (length pre + k)
  = Lib.Shmuple_Index_from (VInt <$> (done ++ pre ++ rest)) (VInt z)
      (length done + length pre) k.
Proof.
  revert done. induction pre as [|p pre IH]; intros done Hz Hk.
  - cbn. rewrite Nat.add_0_r. reflexivity.
  - cbn [length Nat.add Lib.Shmuple_Index_from app].
    unfold Lib.Shmuple_getitem.
    rewrite (subscript_nat _ _ (VInt p)).
    2:{ rewrite list_lookup_fmap, lookup_app_r by lia.
        rewrite Nat.sub_diag. reflexivity. }
    cbn [mbind outcome_bind PyVal.eq PyVal.as_int].
    destruct (Z.eqb_spec p z) as [->|Hne]; [exfalso; apply Hz; left|].
    specialize (IH (done ++ [p])).
    rewrite <- app_assoc, length_app in IH. cbn [app length] in IH.
    rewrite Nat.add_1_r in IH. rewrite IH.
    + f_equal. lia.
    + intros Hin. apply Hz. right. exact Hin.
    + exact Hk.
Qed.

(** X7: [Index] scans [range(len(self.myTuple) - 1)], so the last
    element is never looked at: replacing it changes no answer, an item that
    occurs only there is reported as absent (-1), and an item that occurs
    before the last position is found at its first occurrence. *)
Theorem Shmuple_Index_skips_last :
  (∀ t x y item,
     Lib.Shmuple_Index (t ++ [x]) item = Lib.Shmuple_Index (t ++ [y]) item)
  ∧ (∀ zs z,
       z ∉ zs →
       Lib.Shmuple_Index (VInt <$> (zs ++ [z])) (VInt z) = Ok (VInt (-1)))
  ∧ (∀ pre post z,
       z ∉ pre → post ≠ [] →
       Lib.Shmuple_Index (VInt <$> (pre ++ z :: post)) (VInt z)
       = Ok (VInt (Z.of_nat (length pre)))).
Proof.
  split_and!.
  - intros t x y item. unfold Lib.Shmuple_Index. rewrite !length_app.
    cbn [length]. replace (length t + 1 - 1) with (length t) by lia.
    apply Shmuple_Index_from_last. lia.
  - intros zs z Hz. unfold Lib.Shmuple_Index.
    rewrite length_fmap, length_app. cbn [length].
    replace (length zs + 1 - 1) with (length zs + 0) by lia.
    pose proof (Shmuple_Index_from_skip [] zs [z] z 0 Hz) as H.
    cbn [app length Nat.add] in H. rewrite H by lia. reflexivity.
  - intros pre post z Hz Hpost. unfold Lib.Shmuple_Index.
    rewrite length_fmap, length_app. cbn [length].
    destruct post as [|q post]; [done|]. cbn [length].
    replace (length pre + S (S (length post)) - 1)
      with (length pre + S (length post)) by lia.
    pose proof (Shmuple_Index_from_skip [] pre (z :: q :: post) z
                  (S (length post)) Hz) as H.
    cbn [app length Nat.add] in H. rewrite H by lia.
    cbn [Lib.Shmuple_Index_from]. unfold Lib.Shmuple_getitem.
    rewrite (subscript_nat _ _ (VInt z)).
    2:{ rewrite list_lookup_fmap. cbn [app].
        rewrite lookup_app_r by lia. rewrite Nat.sub_diag. reflexivity. }
    cbn [mbind outcome_bind PyVal.eq PyVal.as_int]. rewrite Z.eqb_refl.
    reflexivity.
Qed.

(** X8: a [Shmuple] is immutable.  A method call on one that returns
    leaves every object of the heap as it was: the heap is unchanged, or it
    has one new [Shmuple] at a fresh address, which the call returns
    ([sortuple], [Add]); for [Add] the new tuple is the receiver's followed
    by the argument's. *)
Theorem Shmuple_is_immutable (h h' : list object) (l : nat)
    (myTuple : list value) (name : string) (args : list value) (r : value) :
  h !! l = Some (Shmuple myTuple) →
  Lib.call h l name args = Ok (r, h') →
  (h' = h
   ∨ ∃ newt, h' = h ++ [Shmuple newt] ∧ r = VRef (length h)
             ∧ (name = "Add" →
                ∃ b other, args = [VRef b] ∧ h !! b = Some (Shmuple other)
                           ∧ newt = myTuple ++ other))
  ∧ ∀ l' o, h !! l' = Some o → h' !! l' = Some o.
Proof.
  intros Hl Hcall.
  assert (Hor : h' = h
                ∨ ∃ newt, h' = h ++ [Shmuple newt] ∧ r = VRef (length h)
                  ∧ (name = "Add" →
                     ∃ b other, args = [VRef b] ∧ h !! b = Some (Shmuple other)
                                ∧ newt = myTuple ++ other)).
  { unfold Lib.call in Hcall. rewrite Hl in Hcall.
    destruct (String.eqb_spec name "sortuple") as [->|_].
    { destruct args; [|discriminate Hcall].
      destruct (Lib.Shmuple_sortuple myTuple) as [newt| | |];
        try discriminate Hcall.
      cbn in Hcall. injection Hcall as <- <-. right. exists newt.
      split_and!; [reflexivity..|discriminate]. }
    destruct (String.eqb_spec name "Add") as [->|_].
    { destruct args as [|[] [|]]; try discriminate Hcall.
      destruct (h !! l0) as [[other| |]|] eqn:Hb; try discriminate Hcall.
      cbn in Hcall. injection Hcall as <- <-. right. eexists.
      split_and!; [reflexivity..|]. intros _. eauto. }
    destruct (String.eqb_spec name "getitem") as [->|_].
    { destruct args as [|? [|]]; try discriminate Hcall.
      destruct (Lib.Shmuple_getitem _ _); try discriminate Hcall.
      injection Hcall as _ <-. left. reflexivity. }
    destruct (String.eqb_spec name "Index") as [->|_].
    { destruct args as [|? [|]]; try discriminate Hcall.
      destruct (Lib.Shmuple_Index _ _); try discriminate Hcall.
      injection Hcall as _ <-. left. reflexivity. }
    destruct (String.eqb_spec name "Length") as [->|_]; [|discriminate Hcall].
    destruct args; [|discriminate Hcall].
    injection Hcall as _ <-. left. reflexivity. }
  split; [exact Hor|]. intros l' o Ho.
  destruct Hor as [->|(newt & -> & _)]; [exact Ho|].
  apply lookup_app_l_Some. exact Ho.
Qed.

Lemma Shmuple_is_immutable_witness :
  let h := [Shmuple [VInt 1]; Shmuple [VInt 2]] in
  h !! 0 = Some (Shmuple [VInt 1])
  ∧ Lib.call h 0 "Add" [VRef 1] = Ok (VRef 2, h ++ [Shmuple [VInt 1; VInt 2]])
  ∧ ∀ l' o, h !! l' = Some o →
            (h ++ [Shmuple [VInt 1; VInt 2]]) !! l' = Some o.
Proof.
  split; [reflexivity|]. split; [reflexivity|].
  exact (proj2 (Shmuple_is_immutable
                  [Shmuple [VInt 1]; Shmuple [VInt 2]] _ 0 _ "Add" [VRef 1] _
                  eq_refl eq_refl)).
Defined.

Lemma insert_sorted_perm (z : Z) (l : list Z) :
  Lib.insert_sorted z l ≡ₚ z :: l.
Proof.
  induction l as [|y l IH]; [reflexivity|]. cbn.
  destruct (z <? y)%Z; [reflexivity|]. rewrite IH. apply Permutation_swap.
Qed.

Lemma ascending_cons (y : Z) (l : list Z) :
  ascending (y :: l) ↔ (∀ b, b ∈ l → (y ≤ b)%Z) ∧ ascending l.
Proof.
  split.
  - intros H. split.
    + intros b Hb. apply list_elem_of_lookup in Hb as [j Hj].
      apply (H 0 (S j) y b); [lia|reflexivity|exact Hj].
    + intros i j a b Hij Ha Hb. apply (H (S i) (S j)); [lia|exact Ha|exact Hb].
  - intros [Hy Hl] i j a b Hij Ha Hb.
    destruct i as [|i], j as [|j]; cbn in Ha, Hb; try lia.
    + injection Ha as <-. injection Hb as <-. lia.
    + injection Ha as <-. apply Hy. apply list_elem_of_lookup. eauto.
    + apply (Hl i j); [lia|exact Ha|exact Hb].
Qed.

Lemma insert_sorted_ascending (z : Z) (l : list Z) :
  ascending l → ascending (Lib.insert_sorted z l).
Proof.
  induction l as [|y l IH]; intros Hl.
  - cbn. apply ascending_cons. split; [intros b Hb; inversion Hb|].
    intros i j a b _ Ha. destruct i; discriminate Ha.
  - cbn. destruct (Z.ltb_spec z y) as [Hlt|Hge].
    + apply ascending_cons. split; [|exact Hl].
      apply ascending_cons in Hl as [Hy _]. intros b Hb.
      apply elem_of_cons in Hb as [->|Hb]; [lia|]. specialize (Hy b Hb). lia.
    + apply ascending_cons in Hl as [Hy Hl]. apply ascending_cons.
      split; [|apply IH, Hl]. intros b Hb.
      rewrite insert_sorted_perm in Hb.
      apply elem_of_cons in Hb as [->|Hb]; [lia|]. apply Hy, Hb.
Qed.

Lemma all_int_fmap (zs : list Z) : Lib.all_int (VInt <$> zs) = Some zs.
Proof.
  unfold Lib.all_int. induction zs as [|z zs IH]; [reflexivity|].
  cbn. cbn in IH. rewrite IH. reflexivity.
Qed.

Lemma insert_sorted_head (y : Z) (l : list Z) :
  ascending (y :: l) → Lib.insert_sorted y l = y :: l.
Proof.
  revert y. induction l as [|b l IH]; intros y H; [reflexivity|].
  cbn. destruct (Z.ltb_spec y b) as [|Hge]; [reflexivity|].
  apply ascending_cons in H as [Hy Hl].
  assert (b = y) as -> by (specialize (Hy b ltac:(left)); lia).
  rewrite IH by exact Hl. reflexivity.
Qed.

Lemma sort_ascending (l : list Z) :
  ascending l → foldr Lib.insert_sorted [] l = l.
Proof.
  induction l as [|y l IH]; intros H; [reflexivity|]. cbn.
  rewrite IH by (apply ascending_cons in H as [_ H]; exact H).
  apply insert_sorted_head, H.
Qed.

(** X9: [sortuple] on a tuple of integers returns the same integers in
    ascending order, and sorting the result again changes nothing. *)
Theorem sortuple_sorts (zs : list Z) :
  ∃ sorted,
    Lib.Shmuple_sortuple (VInt <$> zs) = Ok (VInt <$> sorted)
    ∧ sorted ≡ₚ zs
    ∧ ascending sorted
    ∧ Lib.Shmuple_sortuple (VInt <$> sorted) = Ok (VInt <$> sorted).
Proof.
  exists (foldr Lib.insert_sorted [] zs).
  assert (Hasc : ascending (foldr Lib.insert_sorted [] zs)).
  { induction zs as [|z zs IH]; [intros [] ? ? ? ?; discriminate|].
    cbn. apply insert_sorted_ascending, IH. }
  unfold Lib.Shmuple_sortuple. rewrite !all_int_fmap. split_and!.
  - reflexivity.
  - clear Hasc. induction zs as [|z zs IH]; [reflexivity|]. cbn.
    rewrite insert_sorted_perm, IH. reflexivity.
  - exact Hasc.
  - rewrite (sort_ascending _ Hasc). reflexivity.
Qed.

(** ** The [StringBeans] class *)

Lemma str_append_cons (x : ascii) (a b : string) :
  String x a +:+ b = String x (a +:+ b).
Proof. reflexivity. Qed.

Lemma str_append_assoc (a b c : string) : (a +:+ b) +:+ c = a +:+ (b +:+ c).
Proof.
  induction a as [|x a IH]; [reflexivity|].
  rewrite !str_append_cons, IH. reflexivity.
Qed.

Lemma str_append_nil_r (a : string) : a +:+ "" = a.
Proof.
  induction a as [|x a IH]; [reflexivity|]. rewrite str_append_cons, IH.
  reflexivity.
Qed.

Lemma separators_are_no_letters (c : ascii) :
  Py.char_in c Lib.digits || Py.char_in c Lib.punctuation = true →
  ((65 <=? Py.code_of c) && (Py.code_of c <=? 90) = false)
  ∧ ((97 <=? Py.code_of c) && (Py.code_of c <=? 122) = false).
Proof.
  destruct c as [[] [] [] [] [] [] [] []]; vm_compute; intros H;
    first [discriminate H | split; reflexivity].
Qed.

(** X10: [allUpper] is true exactly when the string has no character
    between [a] and [z], and [allLower] exactly when it has none between [A]
    and [Z]: the test for digits and punctuation changes nothing, and both
    are true of a string without letters (the empty one included). *)
Theorem allUpper_allLower_spec (s : string) :
  Lib.StringBeans_all 97 122 (VStr s)
  = Ok (VBool (forallb (λ c, negb ((97 <=? Py.code_of c)
                                    && (Py.code_of c <=? 122)))
                 (list_ascii_of_string s)))
  ∧ Lib.StringBeans_all 65 90 (VStr s)
    = Ok (VBool (forallb (λ c, negb ((65 <=? Py.code_of c)
                                      && (Py.code_of c <=? 90)))
                   (list_ascii_of_string s))).
Proof.
  assert (H : ∀ lo hi,
            (lo = 97 ∧ hi = 122) ∨ (lo = 65 ∧ hi = 90) →
            Lib.no_letter_between lo hi s
            = forallb (λ c, negb ((lo <=? Py.code_of c)
                                  && (Py.code_of c <=? hi)))
                (list_ascii_of_string s)).
  { intros lo hi Hr. induction s as [|c s IH]; [reflexivity|].
    cbn [Lib.no_letter_between list_ascii_of_string forallb]. rewrite IH.
    destruct (Py.char_in c Lib.digits || Py.char_in c Lib.punctuation)
      eqn:Hsep.
    - apply separators_are_no_letters in Hsep as [HU HL].
      destruct Hr as [[-> ->]|[-> ->]]; [rewrite HL|rewrite HU]; reflexivity.
    - destruct ((lo <=? Py.code_of c) && (Py.code_of c <=? hi)); reflexivity. }
  cbn [Lib.StringBeans_all]. rewrite !H by auto. split; reflexivity.
Qed.

(** *** [Replace] *)

Lemma str_drop_nil (i : nat) : Py.drop i "" = "".
Proof. destruct i; reflexivity. Qed.

Lemma str_drop_add (i n : nat) (s : string) :
  Py.drop (i + n) s = Py.drop n (Py.drop i s).
Proof.
  revert s. induction i as [|i IH]; intros s; [reflexivity|].
  destruct s as [|c s]; cbn; [rewrite str_drop_nil; reflexivity|apply IH].
Qed.

Lemma str_length_drop (i : nat) (s : string) :
  String.length (Py.drop i s) = String.length s - i.
Proof.
  revert s. induction i as [|i IH]; intros s; cbn; [lia|].
  destruct s as [|c s]; cbn; [reflexivity|apply IH].
Qed.

Lemma str_get_drop (i : nat) (s : string) :
  String.get i s = String.get 0 (Py.drop i s).
Proof.
  revert s. induction i as [|i IH]; intros s; [reflexivity|].
  destruct s as [|c s]; cbn; [reflexivity|apply IH].
Qed.

Lemma str_substring_drop (i n : nat) (s : string) :
  substring i n s = substring 0 n (Py.drop i s).
Proof.
  revert s. induction i as [|i IH]; intros s; [reflexivity|].
  destruct s as [|c s]; cbn; [destruct n; reflexivity|apply IH].
Qed.

Lemma slice_is_prefix (s old : string) (i : nat) :
  String.eqb (Py.slice s i (i + String.length old)) old
  = String.prefix old (Py.drop i s).
Proof.
  unfold Py.slice. replace (i + String.length old - i) with (String.length old)
    by lia.
  rewrite str_substring_drop.
  destruct (String.prefix old (Py.drop i s)) eqn:E.
  - apply prefix_correct in E. rewrite E. apply String.eqb_refl.
  - apply String.eqb_neq. intros H. apply prefix_correct in H. congruence.
Qed.

Lemma prefix_append (old t : string) :
  String.prefix old t = true → t = old +:+ Py.drop (String.length old) t.
Proof.
  revert t. induction old as [|a old IH]; intros t H; [reflexivity|].
  destruct t as [|b t]; [discriminate H|]. cbn in H.
  destruct (Ascii.ascii_dec a b) as [->|]; [|discriminate H].
  rewrite str_append_cons. cbn [String.length Py.drop]. f_equal. apply IH, H.
Qed.

(** One turn of the loop, on the text that is left, [s[i:]]. *)
Lemma Replace_loop_step (fuel : nat) (s old : string) (new : value) (i : nat)
    (result : list value) :
  Lib.Replace_loop (S fuel) s old new i result
  = match Py.drop i s with
    | EmptyString => Ok result
    | String c _ =>
        if String.prefix old (Py.drop i s)
        then Lib.Replace_loop fuel s old new (i + String.length old)
               (result ++ [new])
        else Lib.Replace_loop fuel s old new (i + 1)
               (result ++ [VStr (String c EmptyString)])
    end.
Proof.
  cbn [Lib.Replace_loop]. rewrite slice_is_prefix, str_get_drop.
  pose proof (str_length_drop i s) as Hlen.
  destruct (Py.drop i s) as [|c rest]; cbn [String.length] in Hlen.
  - destruct (Nat.ltb_spec i (String.length s)); [lia|reflexivity].
  - destruct (Nat.ltb_spec i (String.length s)); [reflexivity|lia].
Qed.

Lemma Replace_loop_returns (s old : string) (new : value) (n : nat) :
  old ≠ "" →
  ∀ fuel i result,
    String.length s - i < n → n ≤ fuel →
    ∃ r, Lib.Replace_loop fuel s old new i result = Ok r.
Proof.
  intros Hold. induction n as [|n IH]; intros fuel i result Hn Hf; [lia|].
  destruct fuel as [|fuel]; [lia|]. rewrite Replace_loop_step.
  pose proof (str_length_drop i s) as Hlen.
  destruct (Py.drop i s) as [|c rest]; [eauto|]. cbn [String.length] in Hlen.
  assert (0 < String.length old) by (destruct old; [done|cbn; lia]).
  destruct (String.prefix old _); apply IH; lia.
Qed.

Lemma Replace_loop_empty_old (s : string) (new : value) (fuel : nat)
    (result : list value) :
  s ≠ "" → Lib.Replace_loop fuel s "" new 0 result = OutOfFuel.
Proof.
  intros Hs. revert result.
  induction fuel as [|fuel IH]; intros result; [reflexivity|].
  rewrite Replace_loop_step. cbn [Py.drop String.length Nat.add].
  destruct s as [|c s]; [done|]. cbn [String.prefix]. apply IH.
Qed.

Lemma contains_empty (s : string) : Lib.contains s "" = true.
Proof. destruct s; reflexivity. Qed.

Lemma join_cases (result : list value) :
  (∃ joined, Lib.join result = Ok joined) ∨ Lib.join result = Raise TypeError.
Proof.
  induction result as [|v result IH]; [left; eexists; reflexivity|].
  destruct v; try (right; reflexivity). cbn [Lib.join].
  destruct IH as [[x ->]| ->]; [left; eexists|right]; reflexivity.
Qed.

Lemma join_snoc (result : list value) (p x : string) :
  Lib.join result = Ok p → Lib.join (result ++ [VStr x]) = Ok (p +:+ x).
Proof.
  revert p. induction result as [|v result IH]; intros p H.
  - injection H as <-. cbn. rewrite str_append_nil_r. reflexivity.
  - destruct v; try discriminate H. cbn [Lib.join app] in H |- *.
    destruct (Lib.join result) as [q| | |]; try discriminate H.
    injection H as <-. rewrite (IH q eq_refl). cbn.
    rewrite str_append_assoc. reflexivity.
Qed.

(** The loop against a function [f] that describes its result on the text
    that is left. *)
Lemma Replace_loop_spec (s old new : string) (f : string → string) :
  old ≠ "" →
  f "" = "" →
  (∀ t, t ≠ "" → String.prefix old t = true →
        f t = new +:+ f (Py.drop (String.length old) t)) →
  (∀ c t, String.prefix old (String c t) = false →
          f (String c t) = String c (f t)) →
  ∀ n fuel i result p,
    String.length s - i < n → n ≤ fuel →
    Lib.join result = Ok p →
    ∃ r, Lib.Replace_loop fuel s old (VStr new) i result = Ok r
         ∧ Lib.join r = Ok (p +:+ f (Py.drop i s)).
Proof.
  intros Hold Hnil Hhit Hmiss.
  induction n as [|n IH]; intros fuel i result p Hn Hf Hp; [lia|].
  destruct fuel as [|fuel]; [lia|]. rewrite Replace_loop_step.
  pose proof (str_length_drop i s) as Hlen.
  assert (0 < String.length old) by (destruct old; [done|cbn; lia]).
  destruct (Py.drop i s) as [|c rest] eqn:Hd.
  - exists result. rewrite Hnil, str_append_nil_r. auto.
  - cbn [String.length] in Hlen.
    destruct (String.prefix old (String c rest)) eqn:Hpre.
    + destruct (IH fuel (i + String.length old) (result ++ [VStr new])
                  (p +:+ new)) as (r & Hr & Hj);
        [lia|lia|apply join_snoc, Hp|].
      exists r. split; [exact Hr|]. rewrite Hj, (Hhit (String c rest) ltac:(done) Hpre).
      rewrite str_drop_add, Hd, str_append_assoc. reflexivity.
    + destruct (IH fuel (i + 1) (result ++ [VStr (String c "")])
                  (p +:+ String c "")) as (r & Hr & Hj);
        [lia|lia|apply join_snoc, Hp|].
      exists r. split; [exact Hr|]. rewrite Hj, (Hmiss c rest Hpre).
      rewrite str_drop_add, Hd, str_append_assoc. reflexivity.
Qed.

Lemma Replace_loop_strings (s old new : string) :
  old ≠ "" →
  ∀ n fuel i result p,
    String.length s - i < n → n ≤ fuel →
    Lib.join result = Ok p →
    ∃ r joined, Lib.Replace_loop fuel s old (VStr new) i result = Ok r
                ∧ Lib.join r = Ok joined.
Proof.
  intros Hold.
  induction n as [|n IH]; intros fuel i result p Hn Hf Hp; [lia|].
  destruct fuel as [|fuel]; [lia|]. rewrite Replace_loop_step.
  pose proof (str_length_drop i s) as Hlen.
  assert (0 < String.length old) by (destruct old; [done|cbn; lia]).
  destruct (Py.drop i s) as [|c rest] eqn:Hd; [eauto|].
  cbn [String.length] in Hlen.
  destruct (String.prefix old (String c rest)).
  - apply (IH _ _ _ (p +:+ new)); [lia|lia|apply join_snoc, Hp].
  - apply (IH _ _ _ (p +:+ String c "")); [lia|lia|apply join_snoc, Hp].
Qed.

Lemma substitute_absent (a : ascii) (new s : string) :
  Lib.contains s (String a "") = false → substitute a new s = s.
Proof.
  induction s as [|c s IH]; [reflexivity|]. cbn [Lib.contains String.prefix].
  intros H. apply orb_false_iff in H as [Hc Hs]. cbn [substitute].
  rewrite IH by exact Hs.
  destruct (Ascii.eqb_spec c a) as [->|]; [|reflexivity].
  destruct (Ascii.ascii_dec a a); [|done].
  destruct s; discriminate Hc.
Qed.

(** X11: when does [Replace] return.  With an [old] that is not empty
    and a string [new], the loop ends within [len(self.string_)] turns and a
    string is returned and stored.  With the empty [old] and a string that
    is not empty, the position never advances and the call never returns.
    When [old] does not occur, the string is returned unchanged, whatever
    [new] is. *)
Theorem Replace_returns_unless_old_is_empty (s old : string) :
  (old ≠ "" →
   ∀ fuel new, String.length s < fuel →
     ∃ r, Lib.StringBeans_Replace fuel (VStr s) (VStr old) (VStr new)
          = Ok (VStr r, StringBeans (VStr r)))
  ∧ (old = "" → s ≠ "" →
     ∀ fuel new,
       Lib.StringBeans_Replace fuel (VStr s) (VStr old) new = OutOfFuel)
  ∧ (Lib.contains s old = false →
     ∀ fuel new, Lib.StringBeans_Replace fuel (VStr s) (VStr old) new
                 = Ok (VStr s, StringBeans (VStr s))).
Proof.
  split_and!.
  - intros Hold fuel new Hf. cbn [Lib.StringBeans_Replace].
    destruct (Lib.contains s old); cbn [negb]; [|eauto].
    destruct (Replace_loop_strings s old new Hold (S (String.length s))
                fuel 0 [] "") as (r & joined & -> & Hj);
      [lia|lia|reflexivity|].
    cbn [mbind outcome_bind]. rewrite Hj. cbn [mbind outcome_bind]. eauto.
  - intros -> Hs fuel new. cbn [Lib.StringBeans_Replace].
    rewrite contains_empty. cbn [negb].
    rewrite Replace_loop_empty_old by exact Hs. reflexivity.
  - intros Hc fuel new. cbn [Lib.StringBeans_Replace]. rewrite Hc.
    reflexivity.
Qed.

(** X12: what [Replace] computes.  Replacing a substring by itself
    gives back the string, and replacing a one-character [old] puts [new] in
    the place of every occurrence of that character and keeps every other
    character. *)
Theorem Replace_substitutes (s : string) (fuel : nat) :
  String.length s < fuel →
  (∀ old, old ≠ "" →
     Lib.StringBeans_Replace fuel (VStr s) (VStr old) (VStr old)
     = Ok (VStr s, StringBeans (VStr s)))
  ∧ (∀ a new,
       Lib.StringBeans_Replace fuel (VStr s) (VStr (String a "")) (VStr new)
       = Ok (VStr (substitute a new s),
             StringBeans (VStr (substitute a new s)))).
Proof.
  intros Hf. split.
  - intros old Hold. cbn [Lib.StringBeans_Replace].
    destruct (Lib.contains s old); cbn [negb]; [|reflexivity].
    destruct (Replace_loop_spec s old old (λ t, t) Hold eq_refl)
      with (n := S (String.length s)) (fuel := fuel) (i := 0)
           (result := @nil value) (p := "")
      as (r & -> & Hj); [| |lia|lia|reflexivity|].
    + intros t _ Ht. apply prefix_append, Ht.
    + reflexivity.
    + cbn [mbind outcome_bind]. rewrite Hj. reflexivity.
  - intros a new. cbn [Lib.StringBeans_Replace].
    destruct (Lib.contains s (String a "")) eqn:Hc; cbn [negb].
    2:{ rewrite substitute_absent by exact Hc. reflexivity. }
    destruct (Replace_loop_spec s (String a "") new (substitute a new)
                ltac:(done) eq_refl)
      with (n := S (String.length s)) (fuel := fuel) (i := 0)
           (result := @nil value) (p := "")
      as (r & -> & Hj); [| |lia|lia|reflexivity|].
    + intros [|c t] Hne Ht; [done|]. cbn [String.prefix] in Ht.
      destruct (Ascii.ascii_dec a c) as [->|]; [|discriminate Ht].
      cbn [substitute String.length Py.drop]. rewrite Ascii.eqb_refl.
      reflexivity.
    + intros c t Ht. cbn [String.prefix] in Ht. cbn [substitute].
      destruct (Ascii.eqb_spec c a) as [->|]; [|reflexivity].
      destruct (Ascii.ascii_dec a a); [|done]. destruct t; discriminate Ht.
    + cbn [mbind outcome_bind]. rewrite Hj. reflexivity.
Qed.

Lemma Replace_substitutes_witness :
  String.length "banana" < 7
  ∧ Lib.StringBeans_Replace 7 (VStr "banana") (VStr "a") (VStr "oo")
    = Ok (VStr "boonoonoo", StringBeans (VStr "boonoonoo"))
  ∧ Lib.StringBeans_Replace 7 (VStr "banana") (VStr "an") (VStr "an")
    = Ok (VStr "banana", StringBeans (VStr "banana")).
Proof.
  split; [cbn; lia|]. split.
  - exact (proj2 (Replace_substitutes "banana" 7 ltac:(cbn; lia)) "a"%char "oo").
  - reflexivity.
Defined.

(** *** [splitBeans] *)

Lemma splitBeans_fill_spec (lis : list string) (done : list value) :
  Lib.splitBeans_fill lis (Z.of_nat (length done))
    (Arrays (Z.of_nat (length done + length lis))
       (done ++ replicate (length lis) (VInt 0)))
  = Ok (Arrays (Z.of_nat (length done + length lis))
          (done ++ (VStr <$> lis))).
Proof.
  revert done. induction lis as [|cell lis IH]; intros done; [reflexivity|].
  cbn [Lib.splitBeans_fill length replicate fmap list_fmap].
  rewrite (Arrays_insert_spec _ _ (VInt (Z.of_nat (length done))) _
             (Z.of_nat (length done))); [|
    unfold Lib.Arrays_wf; rewrite length_app; cbn [length];
    rewrite length_replicate; reflexivity | reflexivity | lia ].
  cbn [mbind outcome_bind]. rewrite Nat2Z.id.
  rewrite insert_app_r_alt, Nat.sub_diag by lia. cbn [insert list_insert].
  specialize (IH (done ++ [VStr cell])).
  rewrite length_app in IH. cbn [length] in IH.
  rewrite <- !app_assoc in IH. cbn [app] in IH.
  replace (Z.of_nat (length done) + 1)%Z with (Z.of_nat (length done + 1))
    by lia.
  replace (length done + S (length lis)) with (length done + 1 + length lis)
    by lia.
  exact IH.
Qed.

Lemma split_from_cons (sep s : string) (skip : nat) (piece : string) :
  ∃ p rest, Lib.split_from sep s skip piece = p :: rest.
Proof.
  revert skip piece. induction s as [|c s IH]; intros skip piece; [cbn; eauto|].
  cbn [Lib.split_from]. destruct skip; [|apply IH].
  destruct (String.prefix sep _); [eauto|apply IH].
Qed.

Lemma join_with_split_from (sep s : string) (skip : nat) (piece : string) :
  sep ≠ "" →
  join_with sep (Lib.split_from sep s skip piece) = piece +:+ Py.drop skip s.
Proof.
  intros Hsep. revert skip piece.
  induction s as [|c s IH]; intros skip piece.
  - cbn. rewrite str_drop_nil. reflexivity.
  - cbn [Lib.split_from]. destruct skip as [|skip]; [|apply IH].
    cbn [Py.drop]. destruct (String.prefix sep (String c s)) eqn:Hpre.
    + cbn [join_with].
      destruct (split_from_cons sep s (String.length sep - 1) "")
        as (p & rest & E).
      rewrite E, <- E, IH. f_equal.
      change ("" +:+ Py.drop (String.length sep - 1) s)
        with (Py.drop (String.length sep - 1) s).
      etransitivity; [|symmetry; apply (prefix_append _ _ Hpre)].
      destruct sep as [|a sep]; [done|]. cbn [String.length Py.drop].
      replace (S (String.length sep) - 1) with (String.length sep) by lia.
      reflexivity.
    + rewrite IH, str_append_assoc. reflexivity.
Qed.

Lemma split_absent (sep s piece : string) :
  Lib.contains s sep = false →
  Lib.split_from sep s 0 piece = [piece +:+ s].
Proof.
  revert piece. induction s as [|c s IH]; intros piece H.
  - cbn. rewrite str_append_nil_r. reflexivity.
  - cbn [Lib.contains] in H. apply orb_false_iff in H as [Hpre Hs].
    cbn [Lib.split_from]. rewrite Hpre, IH by exact Hs.
    rewrite str_append_assoc. reflexivity.
Qed.

(** X13: [splitBeans] with a separator that is not empty returns an
    [Arrays] whose size is the number of pieces and whose cells are the
    pieces, in order, as plain strings; the pieces joined by the separator
    give back the string; when the separator does not occur there is one
    cell, which holds the whole string.  The empty separator raises
    [ValueError]. *)
Theorem splitBeans_pieces (s sep : string) :
  sep ≠ "" →
  ∃ pieces,
    Lib.StringBeans_splitBeans (VStr s) (VStr sep)
    = Ok (Arrays (Z.of_nat (length pieces)) (VStr <$> pieces))
    ∧ Lib.Arrays_wf (Z.of_nat (length pieces)) (VStr <$> pieces)
    ∧ join_with sep pieces = s
    ∧ (Lib.contains s sep = false → pieces = [s])
    ∧ Lib.StringBeans_splitBeans (VStr s) (VStr "") = Raise ValueError.
Proof.
  intros Hsep. exists (Lib.split s sep). split_and!.
  - cbn [Lib.StringBeans_splitBeans].
    destruct (String.eqb_spec sep ""); [done|].
    cbn [Lib.Arrays_init mbind outcome_bind]. rewrite Nat2Z.id.
    exact (splitBeans_fill_spec (Lib.split s sep) []).
  - unfold Lib.Arrays_wf. rewrite length_fmap. reflexivity.
  - unfold Lib.split. rewrite join_with_split_from by exact Hsep. reflexivity.
  - intros H. unfold Lib.split. rewrite split_absent by exact H. reflexivity.
  - reflexivity.
Qed.

Lemma splitBeans_pieces_witness :
  "," ≠ ""
  ∧ Lib.StringBeans_splitBeans (VStr "a,b,,c") (VStr ",")
    = Ok (Arrays 4 [VStr "a"; VStr "b"; VStr ""; VStr "c"])
  ∧ ∃ pieces,
      Lib.StringBeans_splitBeans (VStr "a,b,,c") (VStr ",")
      = Ok (Arrays (Z.of_nat (length pieces)) (VStr <$> pieces))
      ∧ Lib.Arrays_wf (Z.of_nat (length pieces)) (VStr <$> pieces)
      ∧ join_with "," pieces = "a,b,,c"
      ∧ (Lib.contains "a,b,,c" "," = false → pieces = ["a,b,,c"])
      ∧ Lib.StringBeans_splitBeans (VStr "a,b,,c") (VStr "") = Raise ValueError.
Proof.
  split; [done|]. split; [reflexivity|].
  exact (splitBeans_pieces "a,b,,c" "," ltac:(done)).
Defined.

(** ** [Replace] and [splitBeans] as method calls *)

Lemma Replace_loop_more_fuel (fuel k : nat) (s old : string) (new : value)
    (i : nat) (result r : list value) :
  Lib.Replace_loop fuel s old new i result = Ok r →
  Lib.Replace_loop (fuel + k) s old new i result = Ok r.
Proof.
  revert i result. induction fuel as [|fuel IH]; intros i result H;
    [discriminate H|].
  change (S fuel + k) with (S (fuel + k)). rewrite Replace_loop_step in H |- *.
  destruct (Py.drop i s); [exact H|].
  destruct (String.prefix old _); apply IH, H.
Qed.

(** The fuel [call] gives to [Replace] decides it: more fuel gives the same
    answer. *)
Lemma Replace_fuel_decides (string_ old new : value) (fuel : nat) :
  Lib.Replace_fuel string_ ≤ fuel →
  Lib.StringBeans_Replace fuel string_ old new
  = Lib.StringBeans_Replace (Lib.Replace_fuel string_) string_ old new.
Proof.
  intros Hf. destruct string_ as [| | | |s| |]; try reflexivity.
  destruct old as [| | | |o| |]; try reflexivity.
  cbn [Lib.StringBeans_Replace Lib.Replace_fuel] in *.
  destruct (negb (Lib.contains s o)); [reflexivity|].
  destruct (String.eqb_spec o "") as [->|Ho].
  - destruct s as [|c s].
    + destruct fuel as [|fuel]; [cbn in Hf; lia|]. reflexivity.
    + rewrite !Replace_loop_empty_old by discriminate. reflexivity.
  - destruct (Replace_loop_returns s o new (S (String.length s)) Ho
                (S (String.length s)) 0 []) as [r Hr]; [lia|lia|].
    rewrite Hr.
    replace fuel with (S (String.length s) + (fuel - S (String.length s)))
      by lia.
    rewrite (Replace_loop_more_fuel _ _ _ _ _ _ _ _ Hr). reflexivity.
Qed.

(** X29: [Replace] and [splitBeans] called on a [StringBeans] instance whose
    field is a string.  [Replace] with an [old] that is not empty returns
    the new string and writes it into the instance, the same string its
    loop gives with any fuel above the length of the old one; with an
    [old] that does not occur it returns the string as it is.
    [splitBeans] with a separator that is not empty leaves the instance as
    it is and returns a new [Arrays] instance, at an address the heap did
    not hold, that satisfies the invariant of [Arrays]. *)
Theorem Replace_and_splitBeans_calls (h : list object) (l : nat)
    (s old new sep : string) :
  h !! l = Some (StringBeans (VStr s)) →
  old ≠ "" → sep ≠ "" →
  (∃ r,
     Lib.call h l "Replace" [VStr old; VStr new]
     = Ok (VStr r, <[l:=StringBeans (VStr r)]> h)
     ∧ (∀ fuel, String.length s < fuel →
          Lib.StringBeans_Replace fuel (VStr s) (VStr old) (VStr new)
          = Ok (VStr r, StringBeans (VStr r)))
     ∧ (Lib.contains s old = false → r = s))
  ∧ (∃ size array,
       Lib.call h l "splitBeans" [VStr sep]
       = Ok (VRef (length h), h ++ [Arrays size array])
       ∧ Lib.Arrays_wf size array
       ∧ h !! length h = None
       ∧ (h ++ [Arrays size array]) !! l = Some (StringBeans (VStr s)))
  ∧ (s ≠ "" →
     ∀ new', Lib.call h l "Replace" [VStr ""; new'] = OutOfFuel).
Proof.
  intros Hl Hold Hsep. split; [|split].
  - destruct (Replace_loop_strings s old new Hold (S (String.length s))
                (S (String.length s)) 0 [] "") as (r & joined & Hr & Hj);
      [lia|lia|reflexivity|].
    assert (E : Lib.StringBeans_Replace (S (String.length s)) (VStr s)
                  (VStr old) (VStr new)
                = Ok (VStr (if Lib.contains s old then joined else s),
                      StringBeans
                        (VStr (if Lib.contains s old then joined else s)))).
    { cbn [Lib.StringBeans_Replace].
      destruct (Lib.contains s old); cbn [negb]; [|reflexivity].
      rewrite Hr. cbn [mbind outcome_bind]. rewrite Hj. reflexivity. }
    exists (if Lib.contains s old then joined else s). split_and!.
    + unfold Lib.call. rewrite Hl. cbn [String.eqb Ascii.eqb Bool.eqb].
      change (Lib.Replace_fuel (VStr s)) with (S (String.length s)).
      rewrite E. reflexivity.
    + intros fuel Hf.
      rewrite (Replace_fuel_decides (VStr s) (VStr old) (VStr new) fuel)
        by (cbn; lia).
      exact E.
    + intros ->. reflexivity.
  - exists (Z.of_nat (length (Lib.split s sep))), (VStr <$> Lib.split s sep).
    assert (E : Lib.StringBeans_splitBeans (VStr s) (VStr sep)
                = Ok (Arrays (Z.of_nat (length (Lib.split s sep)))
                        (VStr <$> Lib.split s sep))).
    { cbn [Lib.StringBeans_splitBeans].
      destruct (String.eqb_spec sep ""); [done|].
      cbn [Lib.Arrays_init mbind outcome_bind]. rewrite Nat2Z.id.
      exact (splitBeans_fill_spec (Lib.split s sep) []). }
    split_and!.
    + unfold Lib.call. rewrite Hl. cbn [String.eqb Ascii.eqb Bool.eqb].
      rewrite E. reflexivity.
    + unfold Lib.Arrays_wf. rewrite length_fmap. reflexivity.
    + apply lookup_ge_None. lia.
    + rewrite lookup_app_l by (eapply lookup_lt_Some; exact Hl). exact Hl.
  - intros Hs new'. unfold Lib.call. rewrite Hl.
    cbn [String.eqb Ascii.eqb Bool.eqb Lib.StringBeans_Replace].
    rewrite contains_empty. cbn [negb].
    rewrite Replace_loop_empty_old by exact Hs. reflexivity.
Qed.

Lemma Replace_and_splitBeans_calls_witness :
  let h := [StringBeans (VStr "a,b")] in
  h !! 0 = Some (StringBeans (VStr "a,b"))
  ∧ "," ≠ ""
  ∧ Lib.call h 0 "Replace" [VStr ","; VStr "--"]
    = Ok (VStr "a--b", [StringBeans (VStr "a--b")])
  ∧ Lib.call h 0 "splitBeans" [VStr ","]
    = Ok (VRef 1, h ++ [Arrays 2 [VStr "a"; VStr "b"]])
  ∧ ∃ size array,
      Lib.call h 0 "splitBeans" [VStr ","]
      = Ok (VRef (length h), h ++ [Arrays size array])
      ∧ Lib.Arrays_wf size array
      ∧ h !! length h = None
      ∧ (h ++ [Arrays size array]) !! 0 = Some (StringBeans (VStr "a,b")).
Proof.
  intros h. split; [reflexivity|]. split; [discriminate|].
  split; [vm_compute; reflexivity|]. split; [vm_compute; reflexivity|].
  exact (proj1 (proj2 (Replace_and_splitBeans_calls h 0 "a,b" "," "--" ","
                         eq_refl ltac:(discriminate) ltac:(discriminate)))).
Defined.

(** ** The lexer: string literals *)

Lemma str_length_append (a b : string) :
  String.length (a +:+ b) = String.length a + String.length b.
Proof.
  induction a as [|x a IH]; [reflexivity|]. rewrite str_append_cons. cbn.
  rewrite IH. reflexivity.
Qed.

Lemma str_drop_append (a b : string) : Py.drop (String.length a) (a +:+ b) = b.
Proof. induction a as [|x a IH]; [reflexivity|]. exact IH. Qed.

Lemma str_substring_append (a b : string) :
  substring 0 (String.length a) (a +:+ b) = a.
Proof.
  induction a as [|x a IH]; [destruct b; reflexivity|].
  rewrite str_append_cons. cbn. rewrite IH. reflexivity.
Qed.

Lemma scan_string_closed (body rest : string) (pos : nat) :
  Py.char_in Py.dquote body = false →
  Lexer.scan_string (body +:+ String Py.dquote rest) pos
  = Ok (pos + String.length body + 1).
Proof.
  revert pos. induction body as [|c body IH]; intros pos H.
  - change ("" +:+ String Py.dquote rest) with (String Py.dquote rest).
    cbn [Lexer.scan_string String.length]. rewrite Ascii.eqb_refl.
    f_equal. lia.
  - cbn [Py.char_in] in H. apply orb_false_iff in H as [Hc Hb].
    rewrite str_append_cons. cbn [Lexer.scan_string String.length].
    rewrite Ascii.eqb_sym, Hc, IH by exact Hb. f_equal. lia.
Qed.

Lemma scan_string_open (body : string) (pos : nat) :
  Py.char_in Py.dquote body = false →
  Lexer.scan_string body pos = Raise RuntimeError.
Proof.
  revert pos. induction body as [|c body IH]; intros pos H; [reflexivity|].
  cbn [Py.char_in] in H. apply orb_false_iff in H as [Hc Hb].
  cbn [Lexer.scan_string]. rewrite Ascii.eqb_sym, Hc. apply IH, Hb.
Qed.

Lemma drop_quotes_none (l : list ascii) :
  Py.dquote ∉ l → PyVal.drop_quotes l = l.
Proof.
  destruct l as [|c l]; [reflexivity|]. intros H. cbn.
  destruct (Ascii.eqb_spec c Py.dquote) as [->|]; [|reflexivity].
  exfalso. apply H. left.
Qed.

Lemma char_in_list (c : ascii) (s : string) :
  Py.char_in c s = false → c ∉ list_ascii_of_string s.
Proof.
  induction s as [|d s IH]; cbn; intros H Hin; [inversion Hin|].
  apply orb_false_iff in H as [Hc Hs].
  apply elem_of_cons in Hin as [->|Hin]; [|exact (IH Hs Hin)].
  rewrite Ascii.eqb_refl in Hc. discriminate Hc.
Qed.

Lemma str_list_ascii_of_append (a b : string) :
  list_ascii_of_string (a +:+ b)
  = list_ascii_of_string a ++ list_ascii_of_string b.
Proof.
  induction a as [|x a IH]; [reflexivity|]. rewrite str_append_cons. cbn.
  rewrite IH. reflexivity.
Qed.

Lemma strip_quotes_literal (body : string) :
  Py.char_in Py.dquote body = false →
  PyVal.strip_quotes (body +:+ String Py.dquote "") = body.
Proof.
  intros H. apply char_in_list in H. unfold PyVal.strip_quotes.
  rewrite str_list_ascii_of_append. cbn [list_ascii_of_string].
  assert (E : PyVal.drop_quotes (list_ascii_of_string body ++ [Py.dquote])
              = match list_ascii_of_string body with
                | [] => []
                | _ => list_ascii_of_string body ++ [Py.dquote]
                end).
  { destruct (list_ascii_of_string body) as [|c l] eqn:El; [reflexivity|].
    cbn. destruct (Ascii.eqb_spec c Py.dquote) as [->|]; [|reflexivity].
    exfalso. apply H. left. }
  rewrite E. destruct (list_ascii_of_string body) as [|c l] eqn:El.
  - cbn. destruct body; [reflexivity|discriminate El].
  - rewrite <- El in *. clear El.
    rewrite rev_app_distr. change (rev [Py.dquote]) with [Py.dquote].
    cbn [app PyVal.drop_quotes].
    rewrite Ascii.eqb_refl. rewrite drop_quotes_none.
    + rewrite rev_involutive. apply string_of_list_ascii_of_string.
    + intros Hin. apply H. apply list_elem_of_In. apply in_rev.
      apply list_elem_of_In. exact Hin.
Qed.

(** X14: a string literal.  When the text between two QUOTE characters
    holds no QUOTE, the lexer makes one [CHAR] token of it, whose text is
    the body followed by the closing QUOTE, and leaves the position after
    the closing QUOTE; evaluating that token gives the body back.  Without a
    closing QUOTE the lexer raises [RuntimeError]. *)
Theorem string_literal_round_trip (pre body rest : string)
    (tokens : list token) (st : state) :
  Py.char_in Py.dquote body = false →
  Lexer.tokenize_char (pre +:+ String Py.dquote (body +:+ String Py.dquote rest))
    Py.dquote (S (String.length pre)) tokens
  = Ok (String.length pre + String.length body + 2,
        tokens ++ [("CHAR", body +:+ String Py.dquote "")])
  ∧ Interpreter.evaluate_expression (CHAR (body +:+ String Py.dquote "")) st
    = Ok (VStr body, st)
  ∧ Lexer.tokenize_char (pre +:+ String Py.dquote body)
      Py.dquote (S (String.length pre)) tokens
    = Raise RuntimeError.
Proof.
  intros H.
  assert (Hd : ∀ t, Py.drop (S (String.length pre)) (pre +:+ String Py.dquote t)
                    = t).
  { intros t. replace (S (String.length pre)) with (String.length pre + 1)
      by lia. rewrite str_drop_add, str_drop_append. reflexivity. }
  split_and!.
  - unfold Lexer.tokenize_char.
    change (Py.is_ascii Py.dquote) with true.
    change (Py.isspace Py.dquote) with false.
    change (Py.isalpha Py.dquote) with false.
    change (Lexer.starts_number _ Py.dquote _) with (Ok false : outcome bool).
    cbn [negb mbind outcome_bind]. rewrite Ascii.eqb_refl, Hd.
    rewrite scan_string_closed by exact H. cbn [mbind outcome_bind].
    f_equal. f_equal; [lia|]. f_equal. unfold Py.slice.
    rewrite str_substring_drop, Hd.
    replace (S (String.length pre) + String.length body + 1
             - S (String.length pre))
      with (String.length (body +:+ String Py.dquote "")).
    2:{ rewrite str_length_append. cbn. lia. }
    replace (body +:+ String Py.dquote rest)
      with ((body +:+ String Py.dquote "") +:+ rest)
      by (rewrite str_append_assoc; reflexivity).
    rewrite str_substring_append. reflexivity.
  - cbn [Interpreter.evaluate_expression].
    rewrite strip_quotes_literal by exact H. reflexivity.
  - unfold Lexer.tokenize_char.
    change (Py.is_ascii Py.dquote) with true.
    change (Py.isspace Py.dquote) with false.
    change (Py.isalpha Py.dquote) with false.
    change (Lexer.starts_number _ Py.dquote _) with (Ok false : outcome bool).
    cbn [negb mbind outcome_bind]. rewrite Ascii.eqb_refl, Hd.
    rewrite scan_string_open by exact H. reflexivity.
Qed.

Lemma string_literal_round_trip_witness :
  Py.char_in Py.dquote "hi" = false
  ∧ Lexer.tokenize_char
      ("x=" +:+ String Py.dquote ("hi" +:+ String Py.dquote "~"))
      Py.dquote (S (String.length "x=")) [("ID", "x"); ("ASSIGN", "=")]
    = Ok (String.length "x=" + String.length "hi" + 2,
          [("ID", "x"); ("ASSIGN", "=")]
          ++ [("CHAR", "hi" +:+ String Py.dquote "")])
  ∧ Interpreter.evaluate_expression (CHAR ("hi" +:+ String Py.dquote "")) init
    = Ok (VStr "hi", init).
Proof.
  split; [reflexivity|].
  destruct (string_literal_round_trip "x=" "hi" "~"
              [("ID", "x"); ("ASSIGN", "=")] init eq_refl) as (H1 & H2 & _).
  split; [exact H1|exact H2].
Defined.

(** ** The lexer: the end of the text *)

Lemma str_get_Some_lt (s : string) (p : nat) (c : ascii) :
  String.get p s = Some c → p < String.length s.
Proof.
  revert p. induction s as [|d s IH]; intros p H; [discriminate H|].
  destruct p as [|p]; cbn in *; [lia|]. apply IH in H. lia.
Qed.

Lemma str_get_None_ge (s : string) (p : nat) :
  String.get p s = None → String.length s ≤ p.
Proof.
  revert p. induction s as [|d s IH]; intros p H; [cbn; lia|].
  destruct p as [|p]; cbn in *; [discriminate H|]. apply IH in H. lia.
Qed.

Lemma str_get_drop_add (s : string) (i k : nat) :
  String.get k (Py.drop i s) = String.get (i + k) s.
Proof.
  revert s. induction i as [|i IH]; intros s; [reflexivity|].
  destruct s as [|c s]; cbn; [destruct k; reflexivity|apply IH].
Qed.

Lemma scan_while_bounds (P : ascii → bool) (rest : string) (pos q : nat) :
  Lexer.scan_while P rest pos = Ok q →
  pos ≤ q ≤ pos + String.length rest ∧ (q = pos → rest = "").
Proof.
  revert pos. induction rest as [|c rest IH]; intros pos H.
  - injection H as <-. cbn. split; [lia|reflexivity].
  - cbn [Lexer.scan_while] in H. destruct (negb (Py.is_ascii c));
      [discriminate H|]. cbn [String.length]. destruct (P c).
    + apply IH in H as [H _]. split; [lia|]. intros ->. lia.
    + injection H as <-. split; [lia|]. intros H. lia.
Qed.

Lemma scan_string_bounds (rest : string) (pos q : nat) :
  Lexer.scan_string rest pos = Ok q →
  pos < q ≤ pos + String.length rest
  ∧ String.get (q - pos - 1) rest = Some Py.dquote.
Proof.
  revert pos. induction rest as [|c rest IH]; intros pos H; [discriminate H|].
  cbn [Lexer.scan_string] in H. cbn [String.length].
  destruct (Ascii.eqb_spec c Py.dquote) as [->|].
  - injection H as <-. split; [lia|].
    replace (S pos - pos - 1) with 0 by lia. reflexivity.
  - apply IH in H as [H1 H2]. split; [lia|].
    replace (q - pos - 1) with (S (q - S pos - 1)) by lia. exact H2.
Qed.

Lemma isspace_not_isalnum (c : ascii) :
  Py.isspace c = true → Py.isalnum c = false.
Proof.
  destruct c as [[] [] [] [] [] [] [] []]; vm_compute; intros H;
    first [discriminate H | reflexivity].
Qed.

Lemma starts_number_false (code : string) (char : ascii) (pos : nat) :
  Lexer.starts_number code char pos = Ok false → Py.isdigit char = false.
Proof.
  unfold Lexer.starts_number. intros H.
  destruct (Py.isdigit char); [discriminate H|reflexivity].
Qed.

Lemma starts_number_true (code : string) (char : ascii) (pos : nat) :
  Lexer.starts_number code char pos = Ok true →
  Py.isdigit char = true
  ∨ ∃ d rest, Py.drop pos code = String d rest ∧ Py.is_ascii d = true
              ∧ Py.isdigit d = true.
Proof.
  unfold Lexer.starts_number. destruct (Py.isdigit char); [auto|].
  intros H. destruct (_ && _); [|discriminate H]. rewrite str_get_drop in H.
  destruct (Py.drop pos code) as [|d rest]; cbn [String.get] in H;
    [discriminate H|].
  destruct (Py.is_ascii d) eqn:Ha; [|discriminate H]. injection H as H.
  right. exists d, rest. auto.
Qed.

(** Where one turn of the main loop leaves the position. *)
Lemma tokenize_char_position (code : string) (p : nat) (char : ascii)
    (tokens : list token) (pos' : nat) (tokens' : list token) :
  String.get p code = Some char →
  Lexer.tokenize_char code char (S p) tokens = Ok (pos', tokens') →
  pos' ≤ String.length code
  ∧ (pos' = String.length code →
     ∃ c, String.get (String.length code - 1) code = Some c
          ∧ Py.isalnum c = false)
  ∧ (pos' ≤ p →
     S p = String.length code ∧ (Py.isalnum char = true ∨ char = "="%char)).
Proof.
  intros Hget H. pose proof (str_get_Some_lt _ _ _ Hget) as Hp.
  assert (Hlast : S p = String.length code →
                  String.get (String.length code - 1) code = Some char).
  { intros <-. rewrite <- Hget. f_equal. lia. }
  assert (Hone : ∀ c', (Py.isalnum char = false) →
                       S p ≤ String.length code
                       ∧ (S p = String.length code →
                          ∃ c, String.get (String.length code - 1) code = Some c
                               ∧ Py.isalnum c = false)
                       ∧ (S p ≤ p →
                          S p = String.length code
                          ∧ (Py.isalnum char = true ∨ char = c'))).
  { intros c' Hc. split_and!; [lia| |lia]. intros E. eauto. }
  unfold Lexer.tokenize_char in H.
  destruct (negb (Py.is_ascii char)); [discriminate H|].
  destruct (Py.isspace char) eqn:Hspace.
  { injection H as <- <-. apply (Hone "="%char).
    apply isspace_not_isalnum, Hspace. }
  pose proof (str_length_drop (S p) code) as Hlen.
  destruct (Py.isalpha char) eqn:Halpha.
  { destruct (Lexer.scan_while _ _ _) as [q| | |] eqn:Hq; try discriminate H.
    injection H as <- _. apply scan_while_bounds in Hq as [Hq Hq0].
    split_and!; [lia|lia|]. intros Hle.
    assert (q = S p) as -> by lia. specialize (Hq0 eq_refl).
    rewrite Hq0 in Hlen. cbn in Hlen. split; [lia|]. left.
    unfold Py.isalnum. rewrite Halpha. reflexivity. }
  destruct (Lexer.starts_number code char (S p)) as [[]| | |] eqn:Hnum;
    try discriminate H; cbn [mbind outcome_bind] in H.
  { destruct (Lexer.scan_while _ _ _) as [q| | |] eqn:Hq; try discriminate H.
    injection H as <- _.
    apply starts_number_true in Hnum as [Hdigit|(d & rest & Hd & Ha & Hdd)].
    - apply scan_while_bounds in Hq as [Hq Hq0].
      split_and!; [lia|lia|]. intros Hle.
      assert (q = S p) as -> by lia. specialize (Hq0 eq_refl).
      rewrite Hq0 in Hlen. cbn in Hlen. split; [lia|]. left.
      unfold Py.isalnum. rewrite Hdigit. apply orb_true_r.
    - rewrite Hd in Hq, Hlen. cbn [Lexer.scan_while String.length] in Hq, Hlen.
      rewrite Ha, Hdd in Hq. cbn [negb orb] in Hq.
      apply scan_while_bounds in Hq as [Hq _]. split_and!; lia. }
  apply starts_number_false in Hnum.
  assert (Hal : Py.isalnum char = false)
    by (unfold Py.isalnum; rewrite Halpha, Hnum; reflexivity).
  destruct (Ascii.eqb char Py.dquote).
  { destruct (Lexer.scan_string _ _) as [q| | |] eqn:Hq; try discriminate H.
    injection H as <- _. apply scan_string_bounds in Hq as [Hq Hq1].
    rewrite str_get_drop_add in Hq1. split_and!; [lia| |lia].
    intros ->. exists Py.dquote. split; [|reflexivity].
    rewrite <- Hq1. f_equal. lia. }
  assert (Htwo : ∀ c', Py.isalnum c' = false →
            ∀ d, String.get (S p) code = Some d → Ascii.eqb d c' = true →
                 S (S p) ≤ String.length code
                 ∧ (S (S p) = String.length code →
                    ∃ c, String.get (String.length code - 1) code = Some c
                         ∧ Py.isalnum c = false)
                 ∧ (S (S p) ≤ p →
                    S p = String.length code
                    ∧ (Py.isalnum char = true ∨ char = "="%char))).
  { intros c' Hc' d Hd Heq. apply Ascii.eqb_eq in Heq as ->.
    pose proof (str_get_Some_lt _ _ _ Hd). split_and!; [lia| |lia].
    intros E. exists c'. split; [|exact Hc']. rewrite <- Hd. f_equal. lia. }
  destruct (Py.char_in char _).
  2:{ destruct (Ascii.eqb char "."); [|discriminate H].
      injection H as <- _. apply (Hone "="%char), Hal. }
  destruct (Ascii.eqb char "^").
  { injection H as <- _. apply (Hone "="%char), Hal. }
  unfold Lexer.next_is in H.
  destruct (Ascii.eqb_spec char "=") as [->|_].
  { destruct (String.get (S p) code) as [d|] eqn:Hd.
    - destruct (Ascii.eqb d "=") eqn:Heq; injection H as <- _.
      + apply (Htwo "="%char eq_refl d eq_refl Heq).
      + pose proof (str_get_Some_lt _ _ _ Hd). split_and!; lia.
    - injection H as <- _. apply str_get_None_ge in Hd.
      split_and!; [lia|lia|]. intros _. split; [lia|]. right. reflexivity. }
  destruct (Ascii.eqb char "!").
  { destruct (String.get (S p) code) as [d|] eqn:Hd; [|discriminate H].
    destruct (Ascii.eqb d "=") eqn:Heq; [|discriminate H].
    injection H as <- _. apply (Htwo "="%char eq_refl d eq_refl Heq). }
  destruct (Ascii.eqb char "&").
  { destruct (String.get (S p) code) as [d|] eqn:Hd; [|discriminate H].
    destruct (Ascii.eqb d "&") eqn:Heq; [|discriminate H].
    injection H as <- _. apply (Htwo "&"%char eq_refl d eq_refl Heq). }
  destruct (Ascii.eqb char "|").
  { destruct (String.get (S p) code) as [d|] eqn:Hd; [|discriminate H].
    destruct (Ascii.eqb d "|") eqn:Heq; [|discriminate H].
    injection H as <- _. apply (Htwo "|"%char eq_refl d eq_refl Heq). }
  repeat match type of H with
         | (if ?b then _ else _) = _ =>
             destruct b;
             [injection H as <- _; apply (Hone "="%char), Hal|]
         end.
  discriminate H.
Qed.

Lemma scan_while_no_fuel (P : ascii → bool) (rest : string) (pos : nat) :
  Lexer.scan_while P rest pos ≠ OutOfFuel.
Proof.
  revert pos. induction rest as [|c rest IH]; intros pos; [discriminate|].
  cbn [Lexer.scan_while]. destruct (negb _); [discriminate|].
  destruct (P c); [apply IH|discriminate].
Qed.

Lemma scan_string_no_fuel (rest : string) (pos : nat) :
  Lexer.scan_string rest pos ≠ OutOfFuel.
Proof.
  revert pos. induction rest as [|c rest IH]; intros pos; [discriminate|].
  cbn [Lexer.scan_string]. destruct (Ascii.eqb _ _); [discriminate|apply IH].
Qed.

Lemma tokenize_char_no_fuel (code : string) (char : ascii) (pos : nat)
    (tokens : list token) :
  Lexer.tokenize_char code char pos tokens ≠ OutOfFuel.
Proof.
  unfold Lexer.tokenize_char, Lexer.starts_number, Lexer.next_is.
  pose proof (scan_while_no_fuel (λ c, Py.isalnum c || Ascii.eqb c "_")
                (Py.drop pos code) pos).
  pose proof (scan_while_no_fuel (λ c, Py.isdigit c || Ascii.eqb c ".")
                (Py.drop pos code) pos).
  pose proof (scan_string_no_fuel (Py.drop pos code) pos).
  repeat first
    [ discriminate
    | match goal with
      | |- context [Lexer.scan_while ?P ?r ?q] =>
          destruct (Lexer.scan_while P r q); [|try done..]
      | |- context [Lexer.scan_string ?r ?q] =>
          destruct (Lexer.scan_string r q); [|try done..]
      | |- context [if ?b then _ else _] => destruct b
      | |- context [match ?o with Some _ => _ | None => _ end] => destruct o
      end
    | progress cbn [mbind outcome_bind] ].
Qed.

Lemma tokenize_loop_stuck (code : string) (c : ascii) :
  String.get (String.length code - 1) code = Some c →
  Py.isalnum c = true →
  ∀ fuel pos tokens result,
    pos < String.length code →
    Lexer.tokenize_loop fuel code pos tokens ≠ Ok result.
Proof.
  intros Hlast Hc. induction fuel as [|fuel IH]; intros pos tokens result Hpos;
    [discriminate|].
  cbn [Lexer.tokenize_loop].
  destruct (String.get pos code) as [char|] eqn:Hget.
  2:{ apply str_get_None_ge in Hget. lia. }
  destruct (Lexer.tokenize_char code char (S pos) tokens)
    as [[pos' tokens']| | |] eqn:Hstep; try discriminate.
  cbn [mbind outcome_bind].
  apply tokenize_char_position in Hstep as (Hle & Hend & _); [|exact Hget].
  apply IH. destruct (decide (pos' = String.length code)) as [E|]; [|lia].
  destruct (Hend E) as (c' & Hc' & Hal). congruence.
Qed.

(** X15: a text whose last character is a letter or a digit is never
    tokenized: [tokenize] raises or runs for ever, for the identifier and
    number rules step back one position after reading up to the end of the
    text, where [get_next_char] did not advance. *)
Theorem tokenize_needs_a_closing_character (code : string) (c : ascii) :
  String.get (String.length code - 1) code = Some c →
  Py.isalnum c = true →
  ∀ fuel tokens, Lexer.tokenize fuel code ≠ Ok tokens.
Proof.
  intros Hlast Hc fuel tokens. apply (tokenize_loop_stuck code c Hlast Hc).
  apply str_get_Some_lt in Hlast. lia.
Qed.

Lemma tokenize_needs_a_closing_character_witness :
  String.get (String.length "x=1" - 1) "x=1" = Some "1"%char
  ∧ Py.isalnum "1" = true
  ∧ (∀ fuel tokens, Lexer.tokenize fuel "x=1" ≠ Ok tokens)
  ∧ Lexer.tokenize 5 "x=1~"
    = Ok [("ID", "x"); ("ASSIGN", "="); ("NUMBER", "1"); ("END", "~")].
Proof.
  split; [reflexivity|]. split; [reflexivity|]. split; [|reflexivity].
  exact (tokenize_needs_a_closing_character "x=1" "1" eq_refl eq_refl).
Defined.

Lemma ascii_text_get (s : string) (p : nat) (c : ascii) :
  ascii_text s = true → String.get p s = Some c → Py.is_ascii c = true.
Proof.
  unfold ascii_text. revert p.
  induction s as [|d s IH]; intros p Ha H; [discriminate H|].
  cbn [list_ascii_of_string forallb] in Ha. apply andb_true_iff in Ha as [Hd Hs].
  destruct p as [|p]; cbn [String.get] in H; [|exact (IH p Hs H)].
  injection H as <-. exact Hd.
Qed.

Lemma ascii_text_drop (s : string) (n : nat) :
  ascii_text s = true → ascii_text (Py.drop n s) = true.
Proof.
  unfold ascii_text. revert s.
  induction n as [|n IH]; intros s Ha; [exact Ha|].
  destruct s as [|d s]; [exact Ha|]. cbn [list_ascii_of_string forallb] in Ha.
  apply andb_true_iff in Ha as [_ Hs]. exact (IH s Hs).
Qed.

Lemma scan_while_ascii (P : ascii → bool) (rest : string) (pos : nat) :
  ascii_text rest = true → ∃ q, Lexer.scan_while P rest pos = Ok q.
Proof.
  unfold ascii_text. revert pos.
  induction rest as [|c rest IH]; intros pos Ha; [cbn; eauto|].
  cbn [list_ascii_of_string forallb] in Ha. apply andb_true_iff in Ha as [Hc Hrest].
  cbn [Lexer.scan_while]. rewrite Hc. cbn [negb].
  destruct (P c); [apply IH, Hrest|eauto].
Qed.

Lemma scan_string_result (rest : string) (pos : nat) :
  (∃ q, Lexer.scan_string rest pos = Ok q)
  ∨ Lexer.scan_string rest pos = Raise RuntimeError.
Proof.
  revert pos. induction rest as [|c rest IH]; intros pos; [right; reflexivity|].
  cbn [Lexer.scan_string]. destruct (Ascii.eqb c Py.dquote); [eauto|apply IH].
Qed.

Lemma starts_number_ascii (code : string) (char : ascii) (pos : nat) :
  ascii_text code = true → ∃ b, Lexer.starts_number code char pos = Ok b.
Proof.
  intros Ha. unfold Lexer.starts_number.
  destruct (Py.isdigit char); [eauto|].
  destruct (_ && _); [|eauto].
  destruct (String.get pos code) as [d|] eqn:Hd; [|eauto].
  rewrite (ascii_text_get _ _ _ Ha Hd). eauto.
Qed.

(** One turn of the main loop on a text of ASCII characters gives tokens or
    the error of the lexer. *)
Lemma tokenize_char_ascii (code : string) (char : ascii) (pos : nat)
    (tokens : list token) :
  ascii_text code = true → Py.is_ascii char = true →
  (∃ r, Lexer.tokenize_char code char pos tokens = Ok r)
  ∨ Lexer.tokenize_char code char pos tokens = Raise RuntimeError.
Proof.
  intros Ha Hc. unfold Lexer.tokenize_char. rewrite Hc. cbn [negb].
  destruct (Py.isspace char); [eauto|].
  destruct (Py.isalpha char).
  { destruct (scan_while_ascii (λ c, Py.isalnum c || Ascii.eqb c "_")
                (Py.drop pos code) pos (ascii_text_drop _ _ Ha)) as [q ->].
    cbn. eauto. }
  destruct (starts_number_ascii code char pos Ha) as [number ->].
  cbn [mbind outcome_bind]. destruct number.
  { destruct (scan_while_ascii (λ c, Py.isdigit c || Ascii.eqb c ".")
                (Py.drop pos code) pos (ascii_text_drop _ _ Ha)) as [q ->].
    cbn. eauto. }
  destruct (Ascii.eqb char Py.dquote).
  { destruct (scan_string_result (Py.drop pos code) pos) as [[q ->]| ->];
      cbn; eauto. }
  repeat match goal with
         | |- context [let '(_, _) := ?x in _] => destruct x
         | |- context [if ?b then _ else _] => destruct b
         end; eauto.
Qed.

Lemma tokenize_loop_lexes (code : string) :
  ascii_text code = true →
  (∀ c, String.get (String.length code - 1) code = Some c →
        Py.isalnum c = false ∧ c ≠ "="%char) →
  ∀ n fuel pos tokens,
    String.length code - pos < n → n ≤ fuel →
    (∃ result, Lexer.tokenize_loop fuel code pos tokens = Ok result)
    ∨ Lexer.tokenize_loop fuel code pos tokens = Raise RuntimeError.
Proof.
  intros Ha Hlast.
  induction n as [|n IH]; intros fuel pos tokens Hn Hf; [lia|].
  destruct fuel as [|fuel]; [lia|]. cbn [Lexer.tokenize_loop].
  destruct (String.get pos code) as [char|] eqn:Hget; [|eauto].
  destruct (tokenize_char_ascii code char (S pos) tokens Ha
              (ascii_text_get _ _ _ Ha Hget)) as [[[pos' tokens'] Hstep]|Hstep];
    rewrite Hstep; [|right; reflexivity].
  cbn [mbind outcome_bind].
  apply tokenize_char_position in Hstep as (Hle & _ & Hstay); [|exact Hget].
  pose proof (str_get_Some_lt _ _ _ Hget).
  apply IH; [|lia]. destruct (decide (pos' ≤ pos)) as [Hs|]; [|lia].
  destruct (Hstay Hs) as [E Hchar].
  destruct (Hlast char) as [Hal Hne].
  { rewrite <- Hget. f_equal. lia. }
  destruct Hchar; congruence.
Qed.

(** X16: a text of ASCII characters that is empty, or whose last character
    is neither a letter, a digit nor [=], is tokenized, or refused with the
    error of the lexer, within one turn of the main loop per character. *)
Theorem tokenize_ends_within_length (code : string) :
  ascii_text code = true →
  (∀ c, String.get (String.length code - 1) code = Some c →
        Py.isalnum c = false ∧ c ≠ "="%char) →
  ∀ fuel, String.length code < fuel →
    (∃ tokens, Lexer.tokenize fuel code = Ok tokens)
    ∨ Lexer.tokenize fuel code = Raise RuntimeError.
Proof.
  intros Ha Hlast fuel Hf.
  apply (tokenize_loop_lexes code Ha Hlast (S (String.length code))); lia.
Qed.

Lemma tokenize_ends_within_length_witness :
  ascii_text "x=1~" = true
  ∧ (∀ c, String.get (String.length "x=1~" - 1) "x=1~" = Some c →
          Py.isalnum c = false ∧ c ≠ "="%char)
  ∧ String.length "x=1~" < 5
  ∧ ((∃ tokens, Lexer.tokenize 5 "x=1~" = Ok tokens)
     ∨ Lexer.tokenize 5 "x=1~" = Raise RuntimeError)
  ∧ Lexer.tokenize 5 "x=1~"
    = Ok [("ID", "x"); ("ASSIGN", "="); ("NUMBER", "1"); ("END", "~")]
  ∧ Lexer.tokenize 3 "x=!" = Raise RuntimeError.
Proof.
  assert (H : ∀ c, String.get (String.length "x=1~" - 1) "x=1~" = Some c →
                   Py.isalnum c = false ∧ c ≠ "="%char).
  { intros c Hc. injection Hc as <-. split; [reflexivity|discriminate]. }
  split; [reflexivity|]. split; [exact H|]. split; [cbn; lia|].
  split; [|split; reflexivity].
  exact (tokenize_ends_within_length "x=1~" eq_refl H 5 ltac:(cbn; lia)).
Defined.

(** ** The parser: positions *)

Section ParserPositions.

Variable tokens : list token.

Lemma consume_position (kind : string) (pos : nat) (r : string * nat) :
  Parser.consume tokens kind pos = Ok r →
  r.2 = S pos ∧ pos < length tokens ∧ tokens !! pos = Some (kind, r.1).
Proof.
  unfold Parser.consume, Parser.current_token.
  destruct (tokens !! pos) as [[k t]|] eqn:E; [|discriminate].
  destruct (String.eqb_spec k kind) as [->|]; [|discriminate].
  intros H. injection H as <-. apply lookup_lt_Some in E. auto.
Qed.

Lemma current_token_strict_position (pos : nat) (t : token) :
  Parser.current_token_strict tokens pos = Ok t → pos < length tokens.
Proof.
  unfold Parser.current_token_strict, Parser.current_token.
  destruct (tokens !! pos) eqn:E; [|discriminate].
  intros _. apply lookup_lt_Some in E. exact E.
Qed.

Lemma not_at_close_position (pos : nat) (b : bool) :
  Parser.not_at_close tokens pos = Ok b → pos < length tokens.
Proof.
  unfold Parser.not_at_close.
  destruct (Parser.current_token_strict tokens pos) as [t| | |] eqn:E;
    try discriminate.
  intros _. apply current_token_strict_position in E. exact E.
Qed.

Lemma parse_positions (n : nat) :
  (∀ pos r,
     Parser.parse_expression tokens n pos = Ok r →
     pos < r.2 ≤ length tokens)
  ∧ (∀ l pos r,
       Parser.expression_loop tokens n l pos = Ok r →
       pos ≤ r.2 ∧ (pos ≤ length tokens → r.2 ≤ length tokens))
  ∧ (∀ pos r,
       Parser.parse_term tokens n pos = Ok r →
       pos < r.2 ≤ length tokens)
  ∧ (∀ l pos r,
       Parser.term_loop tokens n l pos = Ok r →
       pos ≤ r.2 ∧ (pos ≤ length tokens → r.2 ≤ length tokens))
  ∧ (∀ pos r,
       Parser.parse_factor tokens n pos = Ok r →
       pos < r.2 ≤ length tokens)
  ∧ (∀ pos r,
       Parser.parse_id_or_call tokens n pos = Ok r →
       pos < r.2 ≤ length tokens)
  ∧ (∀ g pos r,
       Parser.parse_args tokens n g pos = Ok r →
       pos ≤ r.2 ≤ length tokens)
  ∧ (∀ g a pos r,
       Parser.more_args tokens n g a pos = Ok r →
       pos ≤ r.2 ∧ (pos ≤ length tokens → r.2 ≤ length tokens))
  ∧ (∀ pos r,
       Parser.parse_function_call tokens n pos = Ok r →
       pos < r.2 ≤ length tokens)
  ∧ (∀ o pos r,
       Parser.parse_method_call tokens n o pos = Ok r →
       pos < r.2 ≤ length tokens)
  ∧ (∀ pos r,
       Parser.parse_class_instantiation tokens n pos = Ok r →
       pos < r.2 ≤ length tokens).
Proof.
  induction n as [|n IH]; [split_and!; intros; discriminate|].
  destruct IH as (IH1 & IH2 & IH3 & IH4 & IH5 & IH6 & IH7 & IH8 & IH9
                  & IH10 & IH11).
  split_and!; intros;
    match goal with H : _ = Ok _ |- _ =>
      first [ rewrite parse_expression_S in H
            | rewrite expression_loop_S in H
            | rewrite parse_term_S in H
            | rewrite term_loop_S in H
            | rewrite parse_factor_S in H
            | rewrite parse_id_or_call_S in H
            | rewrite parse_args_S in H
            | rewrite more_args_S in H
            | rewrite parse_function_call_S in H
            | rewrite parse_method_call_S in H
            | rewrite parse_class_instantiation_S in H ];
      follow_parse H
        ltac:(fun E =>
                first [ apply consume_position in E
                      | apply current_token_strict_position in E
                      | apply not_at_close_position in E
                      | apply IH1 in E | apply IH2 in E
                      | apply IH3 in E | apply IH4 in E
                      | apply IH5 in E | apply IH6 in E
                      | apply IH7 in E | apply IH8 in E
                      | apply IH9 in E | apply IH10 in E
                      | apply IH11 in E ]);
      try discriminate H;
      try (first [ apply IH1 in H | apply IH2 in H | apply IH3 in H
                 | apply IH4 in H | apply IH5 in H | apply IH6 in H
                 | apply IH7 in H | apply IH8 in H | apply IH9 in H
                 | apply IH10 in H | apply IH11 in H
                 | injection H as <- ]);
      cbn [fst snd] in *; try lia
    end.
Qed.

End ParserPositions.

(** X17: a successful [parse_expression] consumes at least one token
    and stops inside the token list or right after its end; so does
    [parse_factor], and an argument list never moves the position back. *)
Theorem parse_expression_consumes (tokens : list token) (fuel pos : nat)
    (expr : node) (pos' : nat) :
  Parser.parse_expression tokens fuel pos = Ok (expr, pos') →
  pos < pos' ≤ length tokens
  ∧ (∀ fuel' pos1 factor pos2,
       Parser.parse_factor tokens fuel' pos1 = Ok (factor, pos2) →
       pos1 < pos2 ≤ length tokens)
  ∧ (∀ fuel' guarded pos1 args pos2,
       Parser.parse_args tokens fuel' guarded pos1 = Ok (args, pos2) →
       pos1 ≤ pos2 ≤ length tokens).
Proof.
  intros H. split; [|split].
  - exact (proj1 (parse_positions tokens fuel) pos _ H).
  - intros fuel' pos1 factor pos2 H'.
    destruct (parse_positions tokens fuel') as (_ & _ & _ & _ & IH & _).
    exact (IH pos1 _ H').
  - intros fuel' guarded pos1 args pos2 H'.
    destruct (parse_positions tokens fuel')
      as (_ & _ & _ & _ & _ & _ & IH & _).
    exact (IH guarded pos1 _ H').
Qed.

Lemma parse_expression_consumes_witness :
  let tokens := [("NUMBER", "1"); ("OP", "+"); ("NUMBER", "2"); ("END", "~")] in
  Parser.parse_expression tokens 4 0
  = Ok (BINOP "+" (NUMBER "1") (NUMBER "2"), 3)
  ∧ 0 < 3 ≤ length tokens.
Proof.
  split; [reflexivity|].
  exact (proj1 (parse_expression_consumes
                  [("NUMBER", "1"); ("OP", "+"); ("NUMBER", "2"); ("END", "~")]
                  4 0 _ 3 eq_refl)).
Defined.

(** X18: an identifier that is not assigned to and has no method
    called on it.  As a whole statement before a terminator it is a parse
    error ([RuntimeError]); as the last token it makes the parser subscript
    [None] ([TypeError]); followed by an opening parenthesis inside an
    expression it is a parse error too, [parse_function_call] asking for a
    [FUNC] token where the parenthesis is. *)
Theorem identifier_alone_is_refused (tokens : list token) (pos : nat)
    (name : string) (fuel : nat) :
  tokens !! pos = Some ("ID", name) →
  (Parser.at_terminator tokens (S pos) = true →
   Parser.parse_statement tokens (4 + fuel) pos = Raise RuntimeError)
  ∧ (tokens !! S pos = None →
     Parser.parse_statement tokens (1 + fuel) pos = Raise TypeError
     ∧ Parser.parse_factor tokens (2 + fuel) pos = Raise TypeError)
  ∧ (tokens !! S pos = Some ("OP", "(") →
     Parser.parse_factor tokens (3 + fuel) pos = Raise RuntimeError).
Proof.
  intros Hid. split_and!.
  - intros Hterm. unfold Parser.at_terminator, Parser.current_token in Hterm.
    destruct (tokens !! S pos) as [[kind text]|] eqn:Hnext; [|discriminate].
    assert (Hk : kind = "END" ∨ kind = "SEMICOLON").
    { apply str_in_spec in Hterm. unfold Parser.terminators in Hterm.
      apply elem_of_cons in Hterm as [->|Hterm]; [auto|].
      apply list_elem_of_singleton in Hterm as ->. auto. }
    cbn [Nat.add Parser.parse_statement].
    unfold Parser.current_token_strict, Parser.consume, Parser.current_token.
    unfold token in *. rewrite Hid. cbn [mbind outcome_bind String.eqb].
    cbn. rewrite Hnext. cbn [mbind outcome_bind].
    destruct Hk as [-> | ->]; cbn;
      unfold Parser.current_token_strict, Parser.current_token;
      unfold token in *; rewrite Hnext; reflexivity.
  - intros Hnone. split.
    + cbn [Nat.add Parser.parse_statement].
      unfold Parser.current_token_strict, Parser.consume, Parser.current_token.
      unfold token in *. rewrite Hid. cbn. rewrite Hnone. reflexivity.
    + cbn [Nat.add Parser.parse_factor].
      unfold Parser.current_token_strict, Parser.current_token.
      unfold token in *. rewrite Hid. cbn.
      unfold Parser.current_token_strict, Parser.consume, Parser.current_token.
      unfold token in *. rewrite Hid. cbn. rewrite Hnone. reflexivity.
  - intros Hopen. cbn [Nat.add Parser.parse_factor].
    unfold Parser.current_token_strict, Parser.current_token.
    unfold token in *. rewrite Hid. cbn.
    unfold Parser.current_token_strict, Parser.consume, Parser.current_token.
    unfold token in *. rewrite Hid. cbn. rewrite Hopen. reflexivity.
Qed.

Lemma identifier_alone_is_refused_witness :
  let tokens := [("ID", "b"); ("END", "~")] in
  tokens !! 0 = Some ("ID", "b")
  ∧ Parser.at_terminator tokens 1 = true
  ∧ Parser.parse_statement tokens 4 0 = Raise RuntimeError
  ∧ Parser.parse tokens 5 = Raise RuntimeError.
Proof.
  split; [reflexivity|]. split; [reflexivity|]. split; [|reflexivity].
  exact (proj1 (identifier_alone_is_refused
                  [("ID", "b"); ("END", "~")] 0 "b" 0 eq_refl) eq_refl).
Defined.

(** ** The lower layer of binary operators *)

Lemma parse_factor_more_fuel (tokens : list token) (n k : nat) (pos : nat)
    (r : node * nat) :
  Parser.parse_factor tokens n pos = Ok r →
  Parser.parse_factor tokens (n + k) pos = Ok r.
Proof.
  intros H. induction k as [|k IH].
  - rewrite Nat.add_0_r. exact H.
  - rewrite Nat.add_succ_r. apply parse_one_more_fuel. exact IH.
Qed.

Lemma at_lower_op (tokens : list token) (pos : nat) (op : string) :
  tokens !! pos = Some ("OP", op) → op ∈ Parser.lower_ops →
  Parser.at_op_in tokens Parser.lower_ops pos = true
  ∧ Parser.consume tokens "OP" pos = Ok (op, S pos).
Proof.
  intros Htok Hop. unfold Parser.at_op_in, Parser.consume, Parser.current_token.
  unfold token in *. rewrite Htok. split; [|reflexivity].
  change (Py.str_in op Parser.lower_ops = true). apply str_in_spec. exact Hop.
Qed.

(** X19: the operators [*], [/] and [^] form one layer that groups to
    the left, whatever the two operators are: [^] binds no tighter than [*]
    and is not right-associative, so [2 * 3 ^ 2] is 36 and [2 ^ 3 ^ 2] is
    64. *)
Theorem lower_operators_group_left (tokens : list token) (fuel : nat)
    (p0 p1 p2 p3 : nat) (a b c : node) (op1 op2 : string) :
  Parser.parse_factor tokens fuel p0 = Ok (a, p1) →
  tokens !! p1 = Some ("OP", op1) → op1 ∈ Parser.lower_ops →
  Parser.parse_factor tokens fuel (S p1) = Ok (b, p2) →
  tokens !! p2 = Some ("OP", op2) → op2 ∈ Parser.lower_ops →
  Parser.parse_factor tokens fuel (S p2) = Ok (c, p3) →
  Parser.at_op_in tokens Parser.lower_ops p3 = false →
  (∀ k, Parser.parse_term tokens (4 + fuel + k) p0
        = Ok (BINOP op2 (BINOP op1 a b) c, p3))
  ∧ (∃ final, run 30 "x = 2 * 3 ^ 2~" = Ok final
              ∧ variables final !! "x" = Some (VInt 36))
  ∧ (∃ final, run 30 "x = 2 ^ 3 ^ 2~" = Ok final
              ∧ variables final !! "x" = Some (VInt 64)).
Proof.
  intros Ha Hop1 Hin1 Hb Hop2 Hin2 Hc Hend. split_and!.
  - intros k. apply (parse_term_more_fuel tokens (4 + fuel) k).
    destruct (at_lower_op tokens p1 op1 Hop1 Hin1) as [Hat1 Hcons1].
    destruct (at_lower_op tokens p2 op2 Hop2 Hin2) as [Hat2 Hcons2].
    change (4 + fuel) with (S (S (S (S fuel)))).
    rewrite parse_term_S.
    replace (S (S (S fuel))) with (fuel + 3) at 1 by lia.
    rewrite (parse_factor_more_fuel tokens fuel 3 p0 _ Ha).
    cbn [mbind outcome_bind].
    rewrite term_loop_S, Hat1, Hcons1. cbn [mbind outcome_bind].
    replace (S (S fuel)) with (fuel + 2) at 1 by lia.
    rewrite (parse_factor_more_fuel tokens fuel 2 (S p1) _ Hb).
    cbn [mbind outcome_bind].
    rewrite term_loop_S, Hat2, Hcons2. cbn [mbind outcome_bind].
    replace (S fuel) with (fuel + 1) at 1 by lia.
    rewrite (parse_factor_more_fuel tokens fuel 1 (S p2) _ Hc).
    cbn [mbind outcome_bind].
    rewrite term_loop_S, Hend. reflexivity.
  - eexists. split; [vm_compute; reflexivity|]. reflexivity.
  - eexists. split; [vm_compute; reflexivity|]. reflexivity.
Qed.

Lemma lower_operators_group_left_witness :
  let tokens :=
    [("NUMBER", "2"); ("OP", "*"); ("NUMBER", "3"); ("OP", "^");
     ("NUMBER", "2"); ("END", "~")] in
  Parser.parse_factor tokens 1 0 = Ok (NUMBER "2", 1)
  ∧ tokens !! 1 = Some ("OP", "*")
  ∧ "*" ∈ Parser.lower_ops
  ∧ Parser.parse_factor tokens 1 2 = Ok (NUMBER "3", 3)
  ∧ tokens !! 3 = Some ("OP", "^")
  ∧ "^" ∈ Parser.lower_ops
  ∧ Parser.parse_factor tokens 1 4 = Ok (NUMBER "2", 5)
  ∧ Parser.at_op_in tokens Parser.lower_ops 5 = false
  ∧ Parser.parse_term tokens 5 0
    = Ok (BINOP "^" (BINOP "*" (NUMBER "2") (NUMBER "3")) (NUMBER "2"), 5).
Proof.
  intros tokens.
  assert ("*" ∈ Parser.lower_ops) as Hin1
    by (apply str_in_spec; reflexivity).
  assert ("^" ∈ Parser.lower_ops) as Hin2
    by (apply str_in_spec; reflexivity).
  do 8 (split; [first [reflexivity|assumption]|]).
  exact (proj1 (lower_operators_group_left tokens 1 0 1 3 5
                  (NUMBER "2") (NUMBER "3") (NUMBER "2") "*" "^"
                  eq_refl eq_refl Hin1 eq_refl eq_refl Hin2 eq_refl eq_refl) 0).
Defined.

(** ** The logical operators *)

(** X20: [&&] and [||] evaluate both operands before they combine
    them: the result is the conjunction or disjunction of the two [to_bool]
    values, and an error of the right operand is raised whatever the left
    operand is. *)
Theorem logical_operators_are_strict (l r : node) (st st1 : state)
    (lv : value) :
  Interpreter.evaluate_expression l st = Ok (lv, st1) →
  (∀ rv st2,
     Interpreter.evaluate_expression r st1 = Ok (rv, st2) →
     Interpreter.evaluate_expression (BINOP "&&" l r) st
     = Ok (VBool (Interpreter.to_bool lv && Interpreter.to_bool rv), st2)
     ∧ Interpreter.evaluate_expression (BINOP "||" l r) st
       = Ok (VBool (Interpreter.to_bool lv || Interpreter.to_bool rv), st2))
  ∧ (∀ e,
       Interpreter.evaluate_expression r st1 = Raise e →
       Interpreter.evaluate_expression (BINOP "&&" l r) st = Raise e
       ∧ Interpreter.evaluate_expression (BINOP "||" l r) st = Raise e).
Proof.
  intros Hl.
  assert (Hand : Interpreter.evaluate_expression (BINOP "&&" l r) st
                 = '(rv, st) ← Interpreter.evaluate_expression r st1;
                   Ok (VBool (Interpreter.to_bool lv
                              && Interpreter.to_bool rv), st)).
  { change (Interpreter.evaluate_expression (BINOP "&&" l r) st)
      with ('(lv, st) ← Interpreter.evaluate_expression l st;
            '(rv, st) ← Interpreter.evaluate_expression r st;
            v ← Interpreter.apply_operator (Dict st) "&&"
                  (VBool (Interpreter.to_bool lv))
                  (VBool (Interpreter.to_bool rv));
            Ok (v, st)).
    rewrite Hl. cbn [mbind outcome_bind].
    destruct (Interpreter.evaluate_expression r st1) as [[rv st2]| | |];
      try reflexivity.
    cbn [mbind outcome_bind]. unfold Interpreter.apply_operator. cbn.
    unfold Math.And. cbn. destruct (Interpreter.to_bool lv); reflexivity. }
  assert (Hor : Interpreter.evaluate_expression (BINOP "||" l r) st
                = '(rv, st) ← Interpreter.evaluate_expression r st1;
                  Ok (VBool (Interpreter.to_bool lv
                             || Interpreter.to_bool rv), st)).
  { change (Interpreter.evaluate_expression (BINOP "||" l r) st)
      with ('(lv, st) ← Interpreter.evaluate_expression l st;
            '(rv, st) ← Interpreter.evaluate_expression r st;
            v ← Interpreter.apply_operator (Dict st) "||"
                  (VBool (Interpreter.to_bool lv))
                  (VBool (Interpreter.to_bool rv));
            Ok (v, st)).
    rewrite Hl. cbn [mbind outcome_bind].
    destruct (Interpreter.evaluate_expression r st1) as [[rv st2]| | |];
      try reflexivity.
    cbn [mbind outcome_bind]. unfold Interpreter.apply_operator. cbn.
    unfold Math.Or. cbn. destruct (Interpreter.to_bool lv); reflexivity. }
  rewrite Hand, Hor. split.
  - intros rv st2 ->. split; reflexivity.
  - intros e ->. split; reflexivity.
Qed.

Lemma logical_operators_are_strict_witness :
  Interpreter.evaluate_expression (BOOL "False") init = Ok (VBool false, init)
  ∧ Interpreter.evaluate_expression (NUMBER "1.5") init = Raise ValueError
  ∧ Interpreter.evaluate_expression
      (BINOP "&&" (BOOL "False") (NUMBER "1.5")) init = Raise ValueError.
Proof.
  split; [reflexivity|]. split; [reflexivity|].
  exact (proj1 (proj2 (logical_operators_are_strict
                         (BOOL "False") (NUMBER "1.5") init init (VBool false)
                         eq_refl) ValueError eq_refl)).
Defined.

(** ** What evaluating an expression leaves alone *)

Lemma node_expression_ind (P : node → Prop) :
  (∀ op l r, P l → P r → P (BINOP op l r)) →
  (∀ func_name args, Forall P args → P (CALL func_name args)) →
  (∀ obj_name method_name args,
     Forall P args → P (METHOD_CALL obj_name method_name args)) →
  (∀ n, match n with
        | BINOP _ _ _ | CALL _ _ | METHOD_CALL _ _ _ => True
        | _ => P n
        end) →
  ∀ n, P n.
Proof.
  intros Hbin Hcall Hmeth Hleaf. fix IH 1. intros n.
  destruct n;
    try (match goal with |- P ?n => exact (Hleaf n) end).
  - apply Hbin; apply IH.
  - apply Hcall. induction args as [|a args IHargs]; constructor;
      [apply IH|exact IHargs].
  - apply Hmeth. induction args as [|a args IHargs]; constructor;
      [apply IH|exact IHargs].
Qed.

Lemma evaluation_frame_refl (st : state) : evaluation_frame st st.
Proof. unfold evaluation_frame. split_and!; auto. Qed.

Lemma evaluation_frame_trans (st1 st2 st3 : state) :
  evaluation_frame st1 st2 → evaluation_frame st2 st3 →
  evaluation_frame st1 st3.
Proof.
  intros (HD & Hc & Hh & Hs & Hv) (HD' & Hc' & Hh' & Hs' & Hv').
  unfold evaluation_frame. split_and!; try congruence; [lia|auto|].
  intros x Hx. rewrite Hv', Hv; [reflexivity|exact Hx|].
  rewrite Hc. exact Hx.
Qed.

Lemma call_heap_length (h : list object) (l : nat) (name : string)
    (args : list value) (r : value) (h' : list object) :
  Lib.call h l name args = Ok (r, h') → length h ≤ length h'.
Proof.
  intros Hcall. unfold Lib.call in Hcall.
  assert (∀ o : object, length h ≤ length (<[l:=o]> h)) as Hset
    by (intros o; rewrite length_insert; lia).
  assert (∀ o : object, length h ≤ length (h ++ [o])) as Happ
    by (intros o; rewrite length_app; lia).
  repeat
    (match type of Hcall with
     | Ok _ = Ok _ => injection Hcall as <- <-
     | context [mbind _ ?m] => destruct m; simpl in Hcall
     | context [match ?x with _ => _ end] => destruct x; simpl in Hcall
     | context [if ?b then _ else _] => destruct b
     end; try discriminate);
    auto.
Qed.

Lemma set_heap_frame (st : state) (h : list object) :
  length (heap st) ≤ length h → evaluation_frame st (set_heap h st).
Proof. intros H. unfold evaluation_frame. cbn. split_and!; auto. Qed.

Lemma instantiate_frame (class_name : string) (vs : list value)
    (st st' : state) (v : value) :
  Interpreter.instantiate class_name vs st = Ok (v, st') →
  evaluation_frame st st'.
Proof.
  unfold Interpreter.instantiate. intros H.
  destruct (if String.eqb class_name "Shmuple" then _ else _) as [o| | |];
    try discriminate H.
  cbn in H. injection H as _ <-. apply set_heap_frame.
  rewrite length_app. lia.
Qed.

Lemma store_result_frame (result : value) (st : state) :
  evaluation_frame st (Interpreter.store_result result st).
Proof.
  unfold Interpreter.store_result.
  destruct (current_statement st) eqn:Hc; try apply evaluation_frame_refl.
  unfold evaluation_frame. cbn. split_and!; auto.
  - intros x Hx. destruct (decide (x = var_name)) as [->|].
    + rewrite lookup_insert_eq. eauto.
    + rewrite lookup_insert_ne by congruence. exact Hx.
  - intros x Hx. rewrite lookup_insert_ne; [reflexivity|].
    intros ->. apply (Hx _ Hc).
Qed.

Section Frame.

Variable ev : node → state → outcome (value * state).

Lemma evaluate_args_frame (args : list node) :
  Forall (keeps_frame ev) args →
  ∀ st vs st',
    Interpreter.evaluate_args ev args st = Ok (vs, st') →
    evaluation_frame st st'.
Proof.
  induction 1 as [|a args Ha _ IH]; intros st vs st' H; cbn in H.
  - injection H as _ <-. apply evaluation_frame_refl.
  - destruct (ev a st) as [[v st1]| | |] eqn:E1; try discriminate H.
    cbn in H.
    destruct (Interpreter.evaluate_args ev args st1) as [[vs' st2]| | |] eqn:E2;
      try discriminate H.
    cbn in H. injection H as _ <-.
    eapply evaluation_frame_trans; [exact (Ha _ _ _ E1)|exact (IH _ _ _ E2)].
Qed.

Lemma evaluate_first_frame (args : list node) (st st' : state) (v : value) :
  Forall (keeps_frame ev) args →
  Interpreter.evaluate_first ev args st = Ok (v, st') →
  evaluation_frame st st'.
Proof.
  intros Hargs H. destruct args as [|a args]; [discriminate H|].
  apply Forall_cons in Hargs as [Ha _]. exact (Ha _ _ _ H).
Qed.

Lemma evaluate_second_frame (args : list node) (st st' : state) (v : value) :
  Forall (keeps_frame ev) args →
  Interpreter.evaluate_second ev args st = Ok (v, st') →
  evaluation_frame st st'.
Proof.
  intros Hargs H. destruct args as [|a [|b args]]; try discriminate H.
  apply Forall_cons in Hargs as [_ Hargs].
  apply Forall_cons in Hargs as [Hb _]. exact (Hb _ _ _ H).
Qed.

Lemma execute_function_call_frame (func_name : string) (args : list node)
    (st st' : state) (v : value) :
  Forall (keeps_frame ev) args →
  Interpreter.execute_function_call ev func_name args st = Ok (v, st') →
  evaluation_frame st st'.
Proof.
  intros Hargs H. unfold Interpreter.execute_function_call in H.
  repeat match type of H with
         | (if ?b then _ else _) = _ => destruct b
         end; try discriminate H;
    repeat match type of H with
      | mbind _ (Interpreter.evaluate_args ev args ?s) = _ =>
          let E := fresh "E" in
          destruct (Interpreter.evaluate_args ev args s) as [[? ?]| | |] eqn:E;
          [apply (evaluate_args_frame _ Hargs) in E|discriminate H..];
          cbn [mbind outcome_bind] in H
      | mbind _ (Interpreter.evaluate_first ev args ?s) = _ =>
          let E := fresh "E" in
          destruct (Interpreter.evaluate_first ev args s) as [[? ?]| | |] eqn:E;
          [apply (evaluate_first_frame _ _ _ _ Hargs) in E|discriminate H..];
          cbn [mbind outcome_bind] in H
      | mbind _ (Interpreter.evaluate_second ev args ?s) = _ =>
          let E := fresh "E" in
          destruct (Interpreter.evaluate_second ev args s) as [[? ?]| | |] eqn:E;
          [apply (evaluate_second_frame _ _ _ _ Hargs) in E|discriminate H..];
          cbn [mbind outcome_bind] in H
      | mbind _ ?m = _ =>
          destruct m; [|discriminate H..]; cbn [mbind outcome_bind] in H
      end;
    try (apply instantiate_frame in H);
    try (injection H as _ <-);
    eauto using evaluation_frame_trans.
Qed.

Lemma execute_method_call_frame (obj_name method_name : string)
    (args : list node) (st st' : state) (v : value) :
  Forall (keeps_frame ev) args →
  Interpreter.execute_method_call ev obj_name method_name args st
  = Ok (v, st') →
  evaluation_frame st st'.
Proof.
  intros Hargs H. unfold Interpreter.execute_method_call in H.
  destruct (variables st !! obj_name) as [[]|]; try discriminate H.
  destruct (heap st !! l) as [o|]; [|discriminate H].
  destruct (Lib.getattr o method_name) as [|[]| |]; try discriminate H.
  - destruct (Interpreter.evaluate_args ev args st) as [[vs st1]| | |] eqn:E;
      try discriminate H.
    cbn [mbind outcome_bind] in H.
    destruct (Lib.call (heap st1) l method_name vs) as [[r h]| | |] eqn:Ec;
      try discriminate H.
    cbn [mbind outcome_bind] in H. injection H as _ <-.
    apply (evaluate_args_frame _ Hargs) in E. apply call_heap_length in Ec.
    eapply evaluation_frame_trans; [exact E|].
    eapply evaluation_frame_trans; [apply set_heap_frame, Ec|].
    apply store_result_frame.
  - destruct (Interpreter.evaluate_args ev args st) as [[vs st1]| | |];
      discriminate H.
Qed.

End Frame.

Lemma evaluate_expression_frame (expr : node) (st : state) (v : value)
    (st' : state) :
  Interpreter.evaluate_expression expr st = Ok (v, st') →
  evaluation_frame st st'.
Proof.
  revert expr st v st'.
  apply (node_expression_ind
           (λ expr, ∀ st v st',
              Interpreter.evaluate_expression expr st = Ok (v, st') →
              evaluation_frame st st')).
  - intros op l r IHl IHr st v st' H.
    change (Interpreter.evaluate_expression (BINOP op l r) st)
      with (if Py.str_in op Interpreter.logical_ops then
              '(lv, st) ← Interpreter.evaluate_expression l st;
              '(rv, st) ← Interpreter.evaluate_expression r st;
              v ← Interpreter.apply_operator (Dict st) op
                    (VBool (Interpreter.to_bool lv))
                    (VBool (Interpreter.to_bool rv));
              Ok (v, st)
            else if Py.str_in op Interpreter.binary_ops then
              '(lv, st) ← Interpreter.evaluate_expression l st;
              '(rv, st) ← Interpreter.evaluate_expression r st;
              v ← Interpreter.apply_operator (Dict st) op lv rv;
              Ok (v, st)
            else Unmodelled) in H.
    destruct (Py.str_in op Interpreter.logical_ops);
      [|destruct (Py.str_in op Interpreter.binary_ops); [|discriminate H]];
      (destruct (Interpreter.evaluate_expression l st) as [[lv st1]| | |] eqn:El;
         try discriminate H;
       cbn [mbind outcome_bind] in H;
       destruct (Interpreter.evaluate_expression r st1) as [[rv st2]| | |] eqn:Er;
         try discriminate H;
       cbn [mbind outcome_bind] in H;
       destruct (Interpreter.apply_operator _ _ _ _); try discriminate H;
       cbn [mbind outcome_bind] in H; injection H as _ <-;
       exact (evaluation_frame_trans _ _ _ (IHl _ _ _ El) (IHr _ _ _ Er))).
  - intros func_name args IH st v st' H.
    exact (execute_function_call_frame _ _ _ _ _ _ IH H).
  - intros obj_name method_name args IH st v st' H.
    exact (execute_method_call_frame _ _ _ _ _ _ _ IH H).
  - intros n. destruct n; try exact I; intros st v st' H; cbn in H;
      try (injection H as _ <-; apply evaluation_frame_refl).
    destruct (PyVal.int_of_string text); try discriminate H.
    injection H as _ <-. apply evaluation_frame_refl.
Qed.

(** X21: what evaluating an expression may change.  The helper's
    dictionary and [current_statement] stay as they are, no object leaves
    the heap, no variable becomes unbound, and the only variable whose value
    may change is the target of the assignment in [current_statement]
    (through the result a method call stores). *)
Theorem evaluate_expression_effects (expr : node) (st : state) (v : value)
    (st' : state) :
  Interpreter.evaluate_expression expr st = Ok (v, st') →
  Dict st' = Dict st
  ∧ current_statement st' = current_statement st
  ∧ length (heap st) ≤ length (heap st')
  ∧ (∀ x, is_Some (variables st !! x) → is_Some (variables st' !! x))
  ∧ (∀ x, (∀ e, current_statement st ≠ ASSIGN x e) →
          variables st' !! x = variables st !! x).
Proof.
  intros H. pose proof (evaluate_expression_frame _ _ _ _ H) as Hframe.
  exact Hframe.
Qed.

Lemma evaluate_expression_effects_witness :
  let st := State {["a" := VRef 0]} ∅ (ASSIGN "y" (NUMBER "7"))
              [Arrays 1 [VInt 0]] in
  let st' := State (<["y" := VNone]> {["a" := VRef 0]}) ∅
               (ASSIGN "y" (NUMBER "7")) [Arrays 2 [VInt 0; VInt 5]] in
  Interpreter.evaluate_expression (METHOD_CALL "a" "add" [NUMBER "5"]) st
  = Ok (VNone, st')
  ∧ Dict st' = Dict st
  ∧ current_statement st' = current_statement st
  ∧ length (heap st) ≤ length (heap st')
  ∧ (∀ x, is_Some (variables st !! x) → is_Some (variables st' !! x))
  ∧ (∀ x, (∀ e, current_statement st ≠ ASSIGN x e) →
          variables st' !! x = variables st !! x).
Proof.
  intros st st'.
  assert (H : Interpreter.evaluate_expression
                (METHOD_CALL "a" "add" [NUMBER "5"]) st = Ok (VNone, st'))
    by (vm_compute; reflexivity).
  split; [exact H|].
  exact (evaluate_expression_effects _ st VNone st' H).
Defined.

(** ** What executing a statement never undoes *)

Lemma statement_frame_refl (st : state) : statement_frame st st.
Proof. split; auto. Qed.

Lemma statement_frame_trans (st1 st2 st3 : state) :
  statement_frame st1 st2 → statement_frame st2 st3 → statement_frame st1 st3.
Proof. intros [H1 H2] [H3 H4]. split; [auto|lia]. Qed.

Lemma statement_frame_same (st st' : state) :
  Dict st' = Dict st → heap st' = heap st → statement_frame st st'.
Proof. intros HD Hh. split; [rewrite HD; auto|rewrite Hh; lia]. Qed.

Lemma evaluation_is_statement_frame (st st' : state) :
  evaluation_frame st st' → statement_frame st st'.
Proof. intros (HD & _ & Hh & _). split; [rewrite HD; auto|exact Hh]. Qed.

Lemma evaluate_expression_statement_frame (expr : node) (st st' : state)
    (v : value) :
  Interpreter.evaluate_expression expr st = Ok (v, st') →
  statement_frame st st'.
Proof.
  intros H. apply evaluation_is_statement_frame.
  exact (evaluate_expression_frame _ _ _ _ H).
Qed.

Lemma all_keep_frame (args : list node) :
  Forall (keeps_frame Interpreter.evaluate_expression) args.
Proof.
  apply Forall_forall. intros a _ st v st' H.
  exact (evaluate_expression_frame _ _ _ _ H).
Qed.

Lemma execute_class_instantiation_frame (class_name : string)
    (args : list node) (st st' : state) (v : value) :
  Interpreter.execute_class_instantiation Interpreter.evaluate_expression
    class_name args st = Ok (v, st') →
  evaluation_frame st st'.
Proof.
  unfold Interpreter.execute_class_instantiation. intros H.
  destruct (Interpreter.evaluate_args _ args st) as [[vs st1]| | |] eqn:E;
    try discriminate H.
  cbn [mbind outcome_bind] in H.
  apply (evaluate_args_frame _ _ (all_keep_frame args)) in E.
  apply instantiate_frame in H. exact (evaluation_frame_trans _ _ _ E H).
Qed.

Lemma store_assignment_frame (var_name : string) (v : value) (st : state) :
  statement_frame st (Interpreter.store_assignment var_name v st).
Proof.
  split.
  - intros x Hx. rewrite store_assignment_Dict.
    destruct (decide (x = var_name)) as [->|].
    + rewrite lookup_insert_eq. eauto.
    + rewrite lookup_insert_ne by congruence. exact Hx.
  - unfold Interpreter.store_assignment.
    destruct v; cbn; try lia.
    destruct (heap st !! l) as [[]|]; cbn; rewrite ?length_app; lia.
Qed.

Lemma execute_assignment_frame (var_name : string) (expr : node)
    (st st' : state) :
  Interpreter.execute_assignment var_name expr st = Ok st' →
  statement_frame st st'.
Proof.
  unfold Interpreter.execute_assignment. intros H.
  destruct (Interpreter.assignment_value expr st) as [[v st1]| | |] eqn:E;
    try discriminate H.
  cbn [mbind outcome_bind] in H. injection H as <-.
  eapply statement_frame_trans; [|apply store_assignment_frame].
  unfold Interpreter.assignment_value in E.
  destruct expr;
    try (apply evaluate_expression_statement_frame in E; exact E).
  - unfold Interpreter.lookup_variable in E.
    destruct (variables st !! name); [|discriminate E].
    injection E as _ <-. apply statement_frame_refl.
  - apply evaluation_is_statement_frame.
    exact (execute_class_instantiation_frame _ _ _ _ _ E).
Qed.

Lemma del_same (var_name : string) (st st' : state) :
  Interpreter.del var_name st = Ok st' →
  Dict st' = Dict st ∧ heap st' = heap st
  ∧ current_statement st' = current_statement st.
Proof.
  unfold Interpreter.del. destruct (variables st !! var_name); [|discriminate].
  intros H. injection H as <-. auto.
Qed.

Lemma del_each_same (names : list string) (st st' : state) :
  Interpreter.del_each names st = Ok st' →
  Dict st' = Dict st ∧ heap st' = heap st
  ∧ current_statement st' = current_statement st.
Proof.
  revert st. induction names as [|n names IH]; intros st H; cbn in H.
  - injection H as <-. auto.
  - destruct (Interpreter.del n st) as [st1| | |] eqn:E; try discriminate H.
    cbn in H. apply del_same in E as (E1 & E2 & E3).
    apply IH in H as (H1 & H2 & H3). split_and!; congruence.
Qed.

Lemma cleanup_same (names : list string) (other : gset string)
    (st st' : state) :
  Interpreter.cleanup names other st = Ok st' →
  Dict st' = Dict st ∧ heap st' = heap st.
Proof.
  revert st. induction names as [|n names IH]; intros st H; cbn in H.
  - injection H as <-. auto.
  - destruct (Interpreter.in_current_statement n st) as [used| | |];
      try discriminate H.
    cbn in H. destruct (negb used && _).
    + destruct (Interpreter.del n st) as [st1| | |] eqn:E; try discriminate H.
      cbn in H. apply del_same in E as (E1 & E2 & _).
      apply IH in H as (H1 & H2). split; congruence.
    + exact (IH _ H).
Qed.

Section StatementFrame.

Variable exec : node → state → outcome (value * state).
Hypothesis exec_frame :
  ∀ stmt st r st', exec stmt st = Ok (r, st') → statement_frame st st'.

Lemma run_branch_frame (body : list node) (assigned : gset string)
    (st : state) (early : option value) (assigned' : gset string)
    (st' : state) :
  Interpreter.run_branch exec body assigned st = Ok (early, assigned', st') →
  statement_frame st st'.
Proof.
  revert assigned st. induction body as [|stmt body IH]; intros assigned st H;
    cbn [Interpreter.run_branch] in H.
  - injection H as _ _ <-. apply statement_frame_refl.
  - destruct (exec stmt st) as [[r st1]| | |] eqn:E; try discriminate H.
    cbn [mbind outcome_bind] in H. apply exec_frame in E.
    destruct (_ || _).
    + injection H as _ _ <-. exact E.
    + apply IH in H. exact (statement_frame_trans _ _ _ E H).
Qed.

Lemma execute_if_else_frame (statement : node) (st st' : state) (r : value) :
  Interpreter.execute_if_else exec statement st = Ok (r, st') →
  statement_frame st st'.
Proof.
  unfold Interpreter.execute_if_else. intros H.
  destruct (match statement with
            | IF condition if_body => Some (condition, if_body, [])
            | IF_ELSE condition if_body else_body =>
                Some (condition, if_body, else_body)
            | _ => None
            end) as [[[condition if_body] else_body]|]; [|discriminate H].
  destruct (Interpreter.evaluate_expression condition st)
    as [[c st1]| | |] eqn:Ec; try discriminate H.
  cbn [mbind outcome_bind] in H.
  apply evaluate_expression_statement_frame in Ec.
  assert (∃ early vi ve st2,
            statement_frame st1 st2
            ∧ match early with
              | Some result => Ok (result, st2)
              | None =>
                  st ← Interpreter.cleanup (elements vi) ve st2;
                  st ← Interpreter.cleanup (elements ve) vi st;
                  Ok (VNone, st)
              end = Ok (r, st')) as (early & vi & ve & st2 & Hs & H').
  { destruct (PyVal.truthy c).
    - destruct (Interpreter.run_branch exec if_body ∅ st1)
        as [[[early vi] st2]| | |] eqn:Eb; try discriminate H.
      apply run_branch_frame in Eb. exists early, vi, ∅, st2. auto.
    - destruct (Interpreter.run_branch exec else_body ∅ st1)
        as [[[early ve] st2]| | |] eqn:Eb; try discriminate H.
      apply run_branch_frame in Eb. exists early, ∅, ve, st2. auto. }
  clear H. eapply statement_frame_trans; [exact Ec|].
  eapply statement_frame_trans; [exact Hs|].
  destruct early as [result|].
  - injection H' as _ <-. apply statement_frame_refl.
  - destruct (Interpreter.cleanup (elements vi) ve st2) as [st3| | |] eqn:E1;
      try discriminate H'.
    cbn [mbind outcome_bind] in H'.
    destruct (Interpreter.cleanup (elements ve) vi st3) as [st4| | |] eqn:E2;
      try discriminate H'.
    cbn [mbind outcome_bind] in H'. injection H' as _ <-.
    apply cleanup_same in E1 as [E1 E1'], E2 as [E2 E2'].
    apply statement_frame_same; congruence.
Qed.

Lemma while_body_frame (body : list node) (lv : gset string) (st : state)
    (s : Interpreter.signal) (lv' : gset string) (st' : state) :
  Interpreter.while_body exec body lv st = Ok (s, lv', st') →
  statement_frame st st'.
Proof.
  revert lv st. induction body as [|stmt body IH]; intros lv st H;
    cbn [Interpreter.while_body] in H.
  - injection H as _ _ <-. apply statement_frame_refl.
  - destruct stmt;
      try (injection H as _ _ <-; apply statement_frame_refl);
      try (exact (IH _ _ H));
      try (destruct (Interpreter.execute_if_else exec _ st)
             as [[r st1]| | |] eqn:E; try discriminate H;
           apply execute_if_else_frame in E);
      try (destruct (exec _ st) as [[r st1]| | |] eqn:E; try discriminate H;
           apply exec_frame in E);
      cbn [mbind outcome_bind] in H;
      (destruct (Interpreter.signal_of r);
       [apply IH in H; exact (statement_frame_trans _ _ _ E H)
       |injection H as _ _ <-; exact E..]).
Qed.

Lemma for_body_frame (body : list node) (lv : gset string) (st : state)
    (s : Interpreter.signal) (lv' : gset string) (st' : state) :
  Interpreter.for_body exec body lv st = Ok (s, lv', st') →
  statement_frame st st'.
Proof.
  revert lv st. induction body as [|stmt body IH]; intros lv st H;
    cbn [Interpreter.for_body] in H.
  - injection H as _ _ <-. apply statement_frame_refl.
  - destruct stmt;
      try (injection H as _ _ <-; apply statement_frame_refl);
      try (destruct (Interpreter.execute_if_else exec _ st)
             as [[r st1]| | |] eqn:E; try discriminate H;
           apply execute_if_else_frame in E);
      try (destruct (exec _ st) as [[r st1]| | |] eqn:E; try discriminate H;
           apply exec_frame in E);
      cbn [mbind outcome_bind] in H;
      (destruct (Interpreter.signal_of r);
       [apply IH in H; exact (statement_frame_trans _ _ _ E H)
       |injection H as _ _ <-; exact E..]).
Qed.

Lemma while_loop_frame (fuel : nat) (condition : node) (body : list node)
    (lv : gset string) (st : state) (lv' : gset string) (st' : state) :
  Interpreter.while_loop exec fuel condition body lv st = Ok (lv', st') →
  statement_frame st st'.
Proof.
  revert lv st. induction fuel as [|fuel IH]; intros lv st H; [discriminate H|].
  cbn [Interpreter.while_loop] in H.
  destruct (Interpreter.evaluate_expression condition st)
    as [[c st1]| | |] eqn:Ec; try discriminate H.
  cbn [mbind outcome_bind] in H.
  apply evaluate_expression_statement_frame in Ec.
  destruct (PyVal.truthy c).
  2:{ injection H as _ <-. exact Ec. }
  destruct (Interpreter.while_body exec body lv st1)
    as [[[s lv1] st2]| | |] eqn:Eb; try discriminate H.
  cbn [mbind outcome_bind] in H. apply while_body_frame in Eb.
  pose proof (statement_frame_trans _ _ _ Ec Eb) as Hs.
  destruct s; try (apply IH in H; exact (statement_frame_trans _ _ _ Hs H)).
  injection H as _ <-. exact Hs.
Qed.

Lemma for_loop_frame (fuel : nat) (condition increment : node)
    (body : list node) (lv : gset string) (st : state) (lv' : gset string)
    (st' : state) :
  Interpreter.for_loop exec fuel condition increment body lv st
  = Ok (lv', st') →
  statement_frame st st'.
Proof.
  revert lv st. induction fuel as [|fuel IH]; intros lv st H; [discriminate H|].
  cbn [Interpreter.for_loop] in H.
  destruct (Interpreter.evaluate_expression condition st)
    as [[c st1]| | |] eqn:Ec; try discriminate H.
  cbn [mbind outcome_bind] in H.
  apply evaluate_expression_statement_frame in Ec.
  destruct (PyVal.truthy c).
  2:{ injection H as _ <-. exact Ec. }
  destruct (Interpreter.for_body exec body lv st1)
    as [[[s lv1] st2]| | |] eqn:Eb; try discriminate H.
  cbn [mbind outcome_bind] in H. apply for_body_frame in Eb.
  pose proof (statement_frame_trans _ _ _ Ec Eb) as Hs.
  destruct s;
    try (destruct (exec increment st2) as [[r st3]| | |] eqn:Ei;
           try discriminate H;
         cbn [mbind outcome_bind] in H; apply exec_frame in Ei;
         apply IH in H;
         exact (statement_frame_trans _ _ _ Hs
                  (statement_frame_trans _ _ _ Ei H))).
  injection H as _ <-. exact Hs.
Qed.

Lemma execute_while_frame (fuel : nat) (condition : node) (body : list node)
    (st st' : state) :
  Interpreter.execute_while exec fuel condition body st = Ok st' →
  statement_frame st st'.
Proof.
  unfold Interpreter.execute_while. intros H.
  destruct (Interpreter.while_loop exec fuel condition body ∅ st)
    as [[lv st1]| | |] eqn:E; try discriminate H.
  cbn [mbind outcome_bind] in H. injection H as <-.
  apply while_loop_frame in E.
  eapply statement_frame_trans; [exact E|].
  apply statement_frame_same; reflexivity.
Qed.

Lemma execute_for_frame (fuel : nat) (init_ condition increment : node)
    (body : list node) (st st' : state) :
  Interpreter.execute_for exec fuel init_ condition increment body st
  = Ok st' →
  statement_frame st st'.
Proof.
  unfold Interpreter.execute_for. intros H.
  destruct init_; try discriminate H.
  destruct (exec (ASSIGN var_name init_) st) as [[r st1]| | |] eqn:Ei;
    try discriminate H.
  cbn [mbind outcome_bind] in H. apply exec_frame in Ei.
  destruct (Interpreter.for_loop exec fuel condition increment body ∅ st1)
    as [[lv st2]| | |] eqn:El; try discriminate H.
  cbn [mbind outcome_bind] in H. apply for_loop_frame in El.
  destruct (Interpreter.del_each (elements lv) st2) as [st3| | |] eqn:Ed;
    try discriminate H.
  cbn [mbind outcome_bind] in H. apply del_each_same in Ed as (D1 & D2 & _).
  eapply statement_frame_trans; [exact Ei|].
  eapply statement_frame_trans; [exact El|].
  destruct (Interpreter.defined var_name st).
  - injection H as <-. apply statement_frame_same; assumption.
  - apply del_same in H as (H1 & H2 & _).
    apply statement_frame_same; congruence.
Qed.

End StatementFrame.

Lemma set_current_statement_same (n : node) (st : state) :
  statement_frame st (set_current_statement n st).
Proof. apply statement_frame_same; reflexivity. Qed.

Lemma execute_statement_frame (fuel : nat) :
  ∀ statement st r st',
    Interpreter.execute_statement fuel statement st = Ok (r, st') →
    statement_frame st st'.
Proof.
  induction fuel as [|fuel IH]; intros statement st r st' H; [discriminate H|].
  cbn [Interpreter.execute_statement] in H.
  eapply statement_frame_trans; [apply (set_current_statement_same statement)|].
  set (st0 := set_current_statement statement st) in *. clearbody st0.
  destruct statement; try discriminate H;
    try (injection H as _ <-; apply statement_frame_refl).
  - unfold Interpreter.lookup_variable in H.
    destruct (variables st0 !! name); [|discriminate H].
    injection H as _ <-. apply statement_frame_refl.
  - apply evaluation_is_statement_frame.
    exact (execute_method_call_frame _ _ _ _ _ _ _
             (all_keep_frame args) H).
  - apply evaluation_is_statement_frame.
    exact (execute_class_instantiation_frame _ _ _ _ _ H).
  - destruct (Interpreter.execute_assignment var_name statement st0)
      as [st1| | |] eqn:E; try discriminate H.
    cbn [mbind outcome_bind] in H. injection H as _ <-.
    exact (execute_assignment_frame _ _ _ _ E).
  - destruct (Interpreter.execute_if_else _ _ st0) as [[r1 st1]| | |] eqn:E;
      try discriminate H.
    cbn [mbind outcome_bind] in H. injection H as _ <-.
    exact (execute_if_else_frame _ IH _ _ _ _ E).
  - destruct (Interpreter.execute_while _ _ _ _ st0) as [st1| | |] eqn:E;
      try discriminate H.
    cbn [mbind outcome_bind] in H. injection H as _ <-.
    exact (execute_while_frame _ IH _ _ _ _ _ E).
  - destruct (Interpreter.execute_for _ _ _ _ _ _ st0) as [st1| | |] eqn:E;
      try discriminate H.
    cbn [mbind outcome_bind] in H. injection H as _ <-.
    exact (execute_for_frame _ IH _ _ _ _ _ _ _ E).
Qed.

Lemma interpret_frame (fuel : nat) (ast : list node) (st st' : state) :
  Interpreter.interpret fuel ast st = Ok st' → statement_frame st st'.
Proof.
  revert st. induction ast as [|statement ast IH]; intros st H.
  - injection H as <-. apply statement_frame_refl.
  - cbn [Interpreter.interpret] in H.
    destruct statement; try exact (IH _ H);
      (destruct (Interpreter.execute_statement fuel _ st)
         as [[r st1]| | |] eqn:E; try discriminate H;
       cbn [mbind outcome_bind] in H;
       apply execute_statement_frame in E; apply IH in H;
       exact (statement_frame_trans _ _ _ E H)).
Qed.

(** X22: no statement removes a key from the helper's dictionary or
    an object from the heap: the clean-up of [if]/[else] and of the loops
    deletes from [self.variables] only, so a name deleted there is still a
    key of [self.math.Dict]. *)
Theorem statements_never_shrink_Dict_or_heap (fuel : nat) (statement : node)
    (st : state) (r : value) (st' : state) :
  Interpreter.execute_statement fuel statement st = Ok (r, st') →
  ((∀ x, is_Some (Dict st !! x) → is_Some (Dict st' !! x))
   ∧ length (heap st) ≤ length (heap st'))
  ∧ (∀ ast st0 final,
       Interpreter.interpret fuel ast st0 = Ok final →
       (∀ x, is_Some (Dict st0 !! x) → is_Some (Dict final !! x))
       ∧ length (heap st0) ≤ length (heap final)).
Proof.
  intros H. split; [exact (execute_statement_frame _ _ _ _ _ H)|].
  intros ast st0 final Hrun. exact (interpret_frame _ _ _ _ Hrun).
Qed.

Lemma statements_never_shrink_Dict_or_heap_witness :
  (∃ final,
     run 60 "x=5~ y=3~ if(x>y){z=x+y~ w=1~}else{z=x-y~}" = Ok final
     ∧ variables final !! "z" = None
     ∧ Dict final !! "z" = Some (VInt 8))
  ∧ let st := State {["z" := VInt 8]} {["z" := VInt 8]}
                (ASSIGN "w" (NUMBER "1")) [] in
    ∃ st',
      Interpreter.execute_statement 2
        (IF_ELSE (BOOL "True") [ASSIGN "z" (NUMBER "2"); ASSIGN "w" (NUMBER "1")]
           []) st = Ok (VNone, st')
      ∧ variables st' !! "z" = None
      ∧ (∀ x, is_Some (Dict st !! x) → is_Some (Dict st' !! x))
      ∧ length (heap st) ≤ length (heap st').
Proof.
  split.
  { eexists. split; [vm_compute; reflexivity|]. split; reflexivity. }
  intros st. eexists. split; [vm_compute; reflexivity|].
  split; [reflexivity|].
  refine (proj1 (statements_never_shrink_Dict_or_heap 2
                   (IF_ELSE (BOOL "True")
                      [ASSIGN "z" (NUMBER "2"); ASSIGN "w" (NUMBER "1")] [])
                   st VNone _ _)).
  vm_compute. reflexivity.
Defined.

(** ** [if] without [else] at the top level *)

Lemma set_current_statement_twice (n m : node) (st : state) :
  set_current_statement n (set_current_statement m st)
  = set_current_statement n st.
Proof. reflexivity. Qed.

Lemma execute_statement_overwrites (fuel : nat) (statement n : node)
    (st : state) :
  Interpreter.execute_statement fuel statement (set_current_statement n st)
  = Interpreter.execute_statement fuel statement st.
Proof. destruct fuel; reflexivity. Qed.

Lemma interpret_overwrites (fuel : nat) (ast : list node) (n m : node)
    (st : state) :
  set_current_statement m
    <$> Interpreter.interpret fuel ast (set_current_statement n st)
  = set_current_statement m <$> Interpreter.interpret fuel ast st.
Proof.
  induction ast as [|statement ast IH]; [reflexivity|].
  cbn [Interpreter.interpret].
  destruct statement; try exact IH; rewrite execute_statement_overwrites;
    reflexivity.
Qed.

(** X23: [execute_statement] has no branch for an [IF] tuple (an [if]
    without [else]), only for [IF_ELSE]: at the top level of a program such
    a statement evaluates neither its condition nor its body, and taking it
    out of the program changes nothing of the final state but
    [current_statement]. *)
Theorem top_level_if_is_skipped (fuel : nat) (pre post : list node)
    (condition : node) (if_body : list node) (st : state) (m : node) :
  set_current_statement m
    <$> Interpreter.interpret (S fuel) (pre ++ IF condition if_body :: post) st
  = set_current_statement m
      <$> Interpreter.interpret (S fuel) (pre ++ post) st.
Proof.
  revert st. induction pre as [|statement pre IH]; intros st.
  - cbn [app Interpreter.interpret Interpreter.execute_statement
           mbind outcome_bind].
    apply interpret_overwrites.
  - cbn [app Interpreter.interpret].
    destruct statement; try apply IH;
      (destruct (Interpreter.execute_statement (S fuel) _ st)
         as [[r st1]| | |]; [|reflexivity..];
       cbn [mbind outcome_bind]; apply IH).
Qed.

(** ** [break] under two levels of [if] *)

(** [execute_statement] returns [None] for every statement but a method
    call, an instantiation, a name, [break] and [continue]: what
    [execute_if_else] and the loops return is dropped. *)
Lemma execute_statement_returns_None (fuel : nat) (stmt : node)
    (st st' : state) (r : value) :
  returns_None stmt = true →
  Interpreter.execute_statement fuel stmt st = Ok (r, st') → r = VNone.
Proof.
  intros Hq H. destruct fuel as [|fuel]; [discriminate H|].
  cbn [Interpreter.execute_statement] in H.
  destruct stmt; try discriminate Hq; try discriminate H;
    cbn [mbind outcome_bind] in H;
    repeat match type of H with
           | Ok _ = Ok _ => injection H as <- _; reflexivity
           | context [mbind _ ?x] =>
               destruct x; cbn [mbind outcome_bind] in H; try discriminate H
           | context [match ?x with _ => _ end] =>
               destruct x; cbn [mbind outcome_bind] in H; try discriminate H
           end.
Qed.

(** A branch of such statements runs to its end. *)
Lemma run_branch_to_the_end (fuel : nat) (body : list node)
    (acc assigned : gset string) (st st' : state) (early : option value) :
  forallb returns_None body = true →
  Interpreter.run_branch (Interpreter.execute_statement fuel) body acc st
  = Ok (early, assigned, st') →
  early = None.
Proof.
  revert acc st. induction body as [|stmt body IH]; intros acc st Hq H.
  - injection H as <- _ _. reflexivity.
  - cbn [forallb] in Hq. apply andb_true_iff in Hq as [Hs Hq].
    cbn [Interpreter.run_branch] in H.
    destruct (Interpreter.execute_statement fuel stmt st)
      as [[result st1]| | |] eqn:E; try discriminate H.
    cbn [mbind outcome_bind] in H.
    rewrite (execute_statement_returns_None _ _ _ _ _ Hs E) in H.
    cbn [PyVal.is_str orb] in H. exact (IH _ _ Hq H).
Qed.

Lemma execute_if_else_returns_None (fuel : nat) (outer c : node)
    (b1 b2 : list node) (st st0 st1 : state) (v r : value) :
  (outer = IF c b1 ∧ b2 = []) ∨ outer = IF_ELSE c b1 b2 →
  Interpreter.evaluate_expression c st = Ok (v, st0) →
  forallb returns_None (if PyVal.truthy v then b1 else b2) = true →
  Interpreter.execute_if_else (Interpreter.execute_statement fuel) outer st
  = Ok (r, st1) →
  r = VNone.
Proof.
  intros Houter Hc Hq H.
  assert (H' :
    ('(early, if_variables, else_variables, st) ←
        (if PyVal.truthy v then
           '(early, if_variables, st) ←
             Interpreter.run_branch (Interpreter.execute_statement fuel)
               b1 ∅ st0;
           Ok (early, if_variables, ∅, st)
         else
           '(early, else_variables, st) ←
             Interpreter.run_branch (Interpreter.execute_statement fuel)
               b2 ∅ st0;
           Ok (early, ∅, else_variables, st));
      match early with
      | Some result => Ok (result, st)
      | None =>
          st ← Interpreter.cleanup (elements if_variables) else_variables st;
          st ← Interpreter.cleanup (elements else_variables) if_variables st;
          Ok (VNone, st)
      end) = Ok (r, st1)).
  { destruct Houter as [[-> ->]| ->];
      unfold Interpreter.execute_if_else in H; rewrite Hc in H; exact H. }
  clear H. destruct (PyVal.truthy v);
    match type of H' with
    | context [Interpreter.run_branch ?e ?b ?a ?s] =>
        destruct (Interpreter.run_branch e b a s)
          as [[[early assigned] st2]| | |] eqn:E; try discriminate H'
    end;
    apply (run_branch_to_the_end _ _ _ _ _ _ _ Hq) in E; subst early;
    cbn [mbind outcome_bind] in H';
    repeat match type of H' with
           | Ok _ = Ok _ => injection H' as <- _; reflexivity
           | context [mbind _ ?x] =>
               destruct x; cbn [mbind outcome_bind] in H'; try discriminate H'
           end.
Qed.

(** X24: [break] (or [continue]) under two levels of [if] does not stop
    the loop.  [execute_statement] returns [None] for an [if]/[else]
    statement, whatever [execute_if_else] returned, and does not run an
    [if] without [else] at all.  So when the branch that runs of an [if] or
    [if]/[else] of a loop body holds no [break], [continue], name, method
    call or instantiation of its own, whatever the statements nested in it
    are, the pass over the loop body goes on with the next statement; with
    [break] as a statement of that branch itself the pass stops. *)
Theorem nested_if_swallows_break (fuel : nat) (outer c : node)
    (b1 b2 rest : list node) (lv : gset string) (st st0 st1 : state)
    (v r : value) :
  (outer = IF c b1 ∧ b2 = []) ∨ outer = IF_ELSE c b1 b2 →
  Interpreter.evaluate_expression c st = Ok (v, st0) →
  forallb returns_None (if PyVal.truthy v then b1 else b2) = true →
  Interpreter.execute_if_else (Interpreter.execute_statement fuel) outer st
  = Ok (r, st1) →
  r = VNone
  ∧ Interpreter.for_body (Interpreter.execute_statement fuel)
      (outer :: rest) lv st
    = Interpreter.for_body (Interpreter.execute_statement fuel) rest lv st1
  ∧ Interpreter.while_body (Interpreter.execute_statement fuel)
      (outer :: rest) lv st
    = Interpreter.while_body (Interpreter.execute_statement fuel) rest lv st1
  ∧ (∀ stmt s s' r',
       returns_None stmt = true →
       Interpreter.execute_statement fuel stmt s = Ok (r', s') → r' = VNone)
  ∧ (∀ c' b e s s0 v',
       Interpreter.evaluate_expression c' s = Ok (v', s0) →
       PyVal.truthy v' = true →
       Interpreter.for_body (Interpreter.execute_statement (S fuel))
         (IF_ELSE c' (BREAK :: b) e :: rest) lv s
       = Ok (Interpreter.Break, lv, set_current_statement BREAK s0)
       ∧ Interpreter.while_body (Interpreter.execute_statement (S fuel))
           (IF_ELSE c' (BREAK :: b) e :: rest) lv s
         = Ok (Interpreter.Break, lv, set_current_statement BREAK s0)).
Proof.
  intros Houter Hc Hq H.
  pose proof (execute_if_else_returns_None _ _ _ _ _ _ _ _ _ _
                Houter Hc Hq H) as ->.
  split; [reflexivity|]. split; [|split; [|split]].
  - destruct Houter as [[-> ->]| ->]; cbn [Interpreter.for_body];
      rewrite H; reflexivity.
  - destruct Houter as [[-> ->]| ->]; cbn [Interpreter.while_body];
      rewrite H; reflexivity.
  - intros stmt s s' r'. apply execute_statement_returns_None.
  - intros c' b e s s0 v' Hc' Hv'.
    assert (E : Interpreter.execute_if_else
                  (Interpreter.execute_statement (S fuel))
                  (IF_ELSE c' (BREAK :: b) e) s
                = Ok (VStr "BREAK", set_current_statement BREAK s0)).
    { unfold Interpreter.execute_if_else. rewrite Hc'.
      cbn [mbind outcome_bind]. rewrite Hv'. reflexivity. }
    split; [cbn [Interpreter.for_body]|cbn [Interpreter.while_body]];
      rewrite E; reflexivity.
Qed.

Lemma nested_if_swallows_break_witness :
  let inner := IF_ELSE (BOOL "False") [] [ASSIGN "k" (NUMBER "2"); BREAK] in
  let outer := IF_ELSE (BOOL "True") [ASSIGN "m" (NUMBER "1"); inner] [] in
  let rest := [ASSIGN "n" (NUMBER "1")] in
  let st1 :=
    State {["k" := VInt 2]} (<["k":=VInt 2]> {["m" := VInt 1]}) BREAK [] in
  (outer = IF (BOOL "True") [ASSIGN "m" (NUMBER "1"); inner]
   ∧ @nil node = []
   ∨ outer = IF_ELSE (BOOL "True") [ASSIGN "m" (NUMBER "1"); inner] [])
  ∧ Interpreter.evaluate_expression (BOOL "True") init = Ok (VBool true, init)
  ∧ forallb returns_None [ASSIGN "m" (NUMBER "1"); inner] = true
  ∧ Interpreter.execute_if_else (Interpreter.execute_statement 3) outer init
    = Ok (VNone, st1)
  ∧ Interpreter.for_body (Interpreter.execute_statement 3)
      (outer :: rest) ∅ init
    = Ok (Interpreter.Running, {["n"]},
          State (<["n":=VInt 1]> {["k" := VInt 2]})
            (<["n":=VInt 1]> (<["k":=VInt 2]> {["m" := VInt 1]}))
            (ASSIGN "n" (NUMBER "1")) []).
Proof.
  intros inner outer rest st1.
  assert (H : Interpreter.execute_if_else (Interpreter.execute_statement 3)
                outer init = Ok (VNone, st1)) by (vm_compute; reflexivity).
  destruct (nested_if_swallows_break 3 outer (BOOL "True")
              [ASSIGN "m" (NUMBER "1"); inner] [] rest ∅ init init st1
              (VBool true) VNone (or_intror eq_refl) eq_refl eq_refl H)
    as (_ & H1 & _).
  split; [right; reflexivity|]. split; [reflexivity|]. split; [reflexivity|].
  split; [exact H|]. rewrite H1. vm_compute. reflexivity.
Defined.

(** ** The result of a method call and the last assignment *)

(** X25: [execute_method_call] stores its result under the name of the
    assignment in [current_statement], which is the last statement begun,
    not the statement the call belongs to: a method call in the condition
    of a loop overwrites the variable that the last statement of the body
    assigned. *)
Theorem method_call_overwrites_assigned_variable
    (obj_name method_name : string) (args : list node) (st st' : state)
    (result : value) (var_name : string) (expr : node) :
  current_statement st = ASSIGN var_name expr →
  Interpreter.execute_method_call Interpreter.evaluate_expression
    obj_name method_name args st = Ok (result, st') →
  variables st' !! var_name = Some result
  ∧ Interpreter.evaluate_expression (METHOD_CALL obj_name method_name args) st
    = Ok (result, st').
Proof.
  intros Hcs H. split; [|exact H].
  unfold Interpreter.execute_method_call in H.
  destruct (variables st !! obj_name) as [[]|]; try discriminate H.
  destruct (heap st !! l) as [o|]; [|discriminate H].
  destruct (Lib.getattr o method_name) as [|[]| |]; try discriminate H.
  - destruct (Interpreter.evaluate_args _ args st) as [[vs st1]| | |] eqn:E;
      try discriminate H.
    cbn [mbind outcome_bind] in H.
    destruct (Lib.call (heap st1) l method_name vs) as [[r h]| | |];
      try discriminate H.
    cbn [mbind outcome_bind] in H. injection H as <- <-.
    apply (evaluate_args_frame _ _ (all_keep_frame args)) in E
      as (_ & Hcs1 & _).
    unfold Interpreter.store_result. cbn [set_heap current_statement].
    rewrite Hcs1, Hcs. cbn. apply lookup_insert_eq.
  - destruct (Interpreter.evaluate_args _ args st) as [[vs st1]| | |];
      discriminate H.
Qed.

Lemma method_call_overwrites_assigned_variable_witness :
  (∃ final,
     run 40 "a=Arrays(2)~ y=5~ while(a.length()<3){a.add(1)~ y=7~}" = Ok final
     ∧ variables final !! "y" = Some (VInt 3))
  ∧ let st := State {["a" := VRef 0]} ∅ (ASSIGN "y" (NUMBER "7"))
                [Arrays 3 [VInt 0; VInt 0; VInt 1]] in
    current_statement st = ASSIGN "y" (NUMBER "7")
    ∧ ∃ st',
        Interpreter.execute_method_call Interpreter.evaluate_expression
          "a" "length" [] st = Ok (VInt 3, st')
        ∧ variables st' !! "y" = Some (VInt 3).
Proof.
  split.
  { eexists. split; [vm_compute; reflexivity|]. reflexivity. }
  split; [reflexivity|]. eexists. split; [reflexivity|].
  exact (proj1 (method_call_overwrites_assigned_variable
                  "a" "length" []
                  (State {["a" := VRef 0]} ∅ (ASSIGN "y" (NUMBER "7"))
                     [Arrays 3 [VInt 0; VInt 0; VInt 1]])
                  _ (VInt 3) "y" (NUMBER "7") eq_refl eq_refl)).
Defined.

(** ** [min] and [max] *)

(** X26: [min] and [max] of two integers are their minimum and
    maximum, arguments after the second are ignored, a call with one
    argument raises [IndexError], and an integer against a string raises
    [TypeError]. *)
Theorem Min_Max_of_integers (a b : Z) :
  Math.Min (VInt a) (VInt b) = Ok (VInt (Z.min a b))
  ∧ Math.Max (VInt a) (VInt b) = Ok (VInt (Z.max a b))
  ∧ (∀ s, Math.Min (VInt a) (VStr s) = Raise TypeError
          ∧ Math.Max (VStr s) (VInt b) = Raise TypeError)
  ∧ (∀ st e1 e2 more st1 st2,
       Interpreter.evaluate_expression e1 st = Ok (VInt a, st1) →
       Interpreter.evaluate_expression e2 st1 = Ok (VInt b, st2) →
       Interpreter.evaluate_expression (CALL "min" (e1 :: e2 :: more)) st
       = Ok (VInt (Z.min a b), st2)
       ∧ Interpreter.evaluate_expression (CALL "max" (e1 :: e2 :: more)) st
         = Ok (VInt (Z.max a b), st2)
       ∧ Interpreter.evaluate_expression (CALL "min" [e1]) st
         = Raise IndexError).
Proof.
  assert (Hmin : Math.Min (VInt a) (VInt b) = Ok (VInt (Z.min a b))).
  { unfold Math.Min, PyVal.lt. cbn. unfold Z.min.
    destruct (Z.compare_spec a b); subst; reflexivity. }
  assert (Hmax : Math.Max (VInt a) (VInt b) = Ok (VInt (Z.max a b))).
  { unfold Math.Max, PyVal.gt. cbn. unfold Z.max.
    destruct (Z.compare_spec a b); subst; reflexivity. }
  split_and!; try assumption.
  - intros s. split; reflexivity.
  - intros st e1 e2 more st1 st2 H1 H2.
    change (Interpreter.evaluate_expression (CALL "min" (e1 :: e2 :: more)) st)
      with ('(x, st) ← Interpreter.evaluate_expression e1 st;
            '(y, st) ← Interpreter.evaluate_expression e2 st;
            v ← Math.Min x y; Ok (v, st)).
    change (Interpreter.evaluate_expression (CALL "max" (e1 :: e2 :: more)) st)
      with ('(x, st) ← Interpreter.evaluate_expression e1 st;
            '(y, st) ← Interpreter.evaluate_expression e2 st;
            v ← Math.Max x y; Ok (v, st)).
    change (Interpreter.evaluate_expression (CALL "min" [e1]) st)
      with ('(x, st) ← Interpreter.evaluate_expression e1 st;
            '(y, st) ← (Raise IndexError : outcome (value * state));
            v ← Math.Min x y; Ok (v, st)).
    rewrite H1. cbn [mbind outcome_bind]. rewrite H2.
    cbn [mbind outcome_bind]. rewrite Hmin, Hmax. split_and!; reflexivity.
Qed.

(** ** The clean-up of the two loops *)

Lemma forget_lookup (names : list string) (st : state) (x : string) :
  variables (Interpreter.forget names st) !! x
  = if decide (x ∈ names) then None else variables st !! x.
Proof.
  unfold Interpreter.forget. cbn [variables set_variables].
  induction names as [|n names IH]; cbn [foldr].
  - rewrite decide_False by (intros H; inversion H). reflexivity.
  - destruct (decide (x = n)) as [->|Hne].
    + rewrite lookup_delete_eq, decide_True by left. reflexivity.
    + rewrite lookup_delete_ne by congruence. rewrite IH.
      apply decide_ext. rewrite elem_of_cons. tauto.
Qed.

Lemma del_each_defined (names : list string) (st : state) :
  NoDup names →
  (∀ x, x ∈ names → is_Some (variables st !! x)) →
  ∃ st', Interpreter.del_each names st = Ok st'
         ∧ Dict st' = Dict st ∧ heap st' = heap st
         ∧ current_statement st' = current_statement st
         ∧ ∀ x, variables st' !! x
                = if decide (x ∈ names) then None else variables st !! x.
Proof.
  intros Hnd. revert st. induction Hnd as [|n names Hn Hnd IH]; intros st Hdef.
  - exists st. split_and!; reflexivity.
  - cbn [Interpreter.del_each]. unfold Interpreter.del.
    destruct (Hdef n ltac:(left)) as [v Hv]. rewrite Hv.
    cbn [mbind outcome_bind].
    destruct (IH (set_variables (delete n) st)) as (st' & E & HD & Hh & Hc & Hl).
    { intros x Hx. cbn. rewrite lookup_delete_ne by (intros ->; contradiction).
      apply Hdef. right. exact Hx. }
    exists st'. split_and!; try assumption. intros x. rewrite Hl. cbn.
    destruct (decide (x = n)) as [->|Hne].
    + rewrite decide_False by exact Hn. rewrite lookup_delete_eq.
      rewrite decide_True by left. reflexivity.
    + rewrite lookup_delete_ne by congruence.
      apply decide_ext. rewrite elem_of_cons. tauto.
Qed.

Lemma del_each_missing (names : list string) (st : state) (x : string) :
  x ∈ names → variables st !! x = None →
  Interpreter.del_each names st = Raise KeyError.
Proof.
  revert st. induction names as [|n names IH]; intros st Hx Hnone;
    [inversion Hx|].
  cbn [Interpreter.del_each]. unfold Interpreter.del.
  destruct (variables st !! n) as [v|] eqn:Hv; [|reflexivity].
  cbn [mbind outcome_bind]. apply IH.
  - apply elem_of_cons in Hx as [->|Hx]; [congruence|exact Hx].
  - cbn. destruct (decide (x = n)) as [->|Hne]; [apply lookup_delete_eq|].
    rewrite lookup_delete_ne by congruence. exact Hnone.
Qed.

(** X27: the clean-up of [execute_for].  It deletes every collected
    name without a test, so a collected name that is no longer bound when
    the loop ends (an [if]/[else] of the body has deleted it) makes the
    statement raise [KeyError]; otherwise the collected names are deleted,
    and the counter with them when it was not bound before the loop, which
    raises [KeyError] again when the counter is itself collected or no
    longer bound. *)
Theorem execute_for_cleanup
    (exec : node → state → outcome (value * state)) (fuel : nat)
    (loop_counter : string) (init_expr condition increment : node)
    (body : list node) (st st1 st2 : state) (r : value) (lv : gset string) :
  exec (ASSIGN loop_counter init_expr) st = Ok (r, st1) →
  Interpreter.for_loop exec fuel condition increment body ∅ st1
  = Ok (lv, st2) →
  let result :=
    Interpreter.execute_for exec fuel (ASSIGN loop_counter init_expr)
      condition increment body st in
  (∀ x, x ∈ lv → variables st2 !! x = None → result = Raise KeyError)
  ∧ ((∀ x, x ∈ lv → is_Some (variables st2 !! x)) →
     (Interpreter.defined loop_counter st = true →
      ∃ st', result = Ok st'
             ∧ ∀ x, variables st' !! x
                    = if decide (x ∈ lv) then None else variables st2 !! x)
     ∧ (Interpreter.defined loop_counter st = false →
        loop_counter ∉ lv → is_Some (variables st2 !! loop_counter) →
        ∃ st', result = Ok st'
               ∧ ∀ x, variables st' !! x
                      = if decide (x = loop_counter ∨ x ∈ lv) then None
                        else variables st2 !! x)
     ∧ (Interpreter.defined loop_counter st = false →
        loop_counter ∈ lv ∨ variables st2 !! loop_counter = None →
        result = Raise KeyError)).
Proof.
  intros Hinit Hloop result. subst result.
  unfold Interpreter.execute_for. rewrite Hinit. cbn [mbind outcome_bind].
  rewrite Hloop. cbn [mbind outcome_bind]. split.
  - intros x Hx Hnone.
    rewrite (del_each_missing (elements lv) st2 x); [reflexivity| |exact Hnone].
    apply elem_of_elements, Hx.
  - intros Hdef.
    destruct (del_each_defined (elements lv) st2) as (st3 & -> & _ & _ & _ & Hl).
    { apply NoDup_elements. }
    { intros x Hx. apply Hdef, elem_of_elements, Hx. }
    cbn [mbind outcome_bind].
    assert (Hl' : ∀ x, variables st3 !! x
                       = if decide (x ∈ lv) then None else variables st2 !! x).
    { intros x. rewrite Hl. apply decide_ext, elem_of_elements. }
    split_and!.
    + intros ->. exists st3. split; [reflexivity|exact Hl'].
    + intros -> Hnot [v Hv]. unfold Interpreter.del.
      rewrite Hl', decide_False, Hv by exact Hnot.
      eexists. split; [reflexivity|]. intros x. cbn.
      destruct (decide (x = loop_counter)) as [->|Hne].
      * rewrite lookup_delete_eq, decide_True by (left; reflexivity).
        reflexivity.
      * rewrite lookup_delete_ne by congruence. rewrite Hl'.
        apply decide_ext. tauto.
    + intros -> Hbad. unfold Interpreter.del. rewrite Hl'.
      destruct (decide (loop_counter ∈ lv)); [reflexivity|].
      destruct Hbad as [Hin| ->]; [contradiction|reflexivity].
Qed.

Lemma execute_for_cleanup_witness :
  run 60 "for(i=0;i<1;i=i+1){t=1~ if(True){t=2~ k=1~}else{}}" = Raise KeyError
  ∧ (∃ final,
      run 60 "c=0~ while(c<1){c=1~ t=1~ if(True){t=2~ k=1~}else{}}" = Ok final
      ∧ variables final = <["c":=VInt 1]> {["k" := VInt 1]})
  ∧ let exec := Interpreter.execute_statement 1 in
    let st1 := State {["i" := VInt 0]} {["i" := VInt 0]}
                 (ASSIGN "i" (NUMBER "0")) [] in
    exec (ASSIGN "i" (NUMBER "0")) init = Ok (VNone, st1)
    ∧ Interpreter.for_loop exec 1 (BOOL "False") (ASSIGN "i" (NUMBER "1")) []
        ∅ st1 = Ok (∅, st1)
    ∧ Interpreter.defined "i" init = false
    ∧ ∃ st',
        Interpreter.execute_for exec 1 (ASSIGN "i" (NUMBER "0")) (BOOL "False")
          (ASSIGN "i" (NUMBER "1")) [] init = Ok st'
        ∧ variables st' !! "i" = None.
Proof.
  split; [vm_compute; reflexivity|].
  split; [eexists; split; [vm_compute; reflexivity|reflexivity]|].
  intros exec st1.
  assert (Hinit : exec (ASSIGN "i" (NUMBER "0")) init = Ok (VNone, st1))
    by reflexivity.
  assert (Hloop : Interpreter.for_loop exec 1 (BOOL "False")
                    (ASSIGN "i" (NUMBER "1")) [] ∅ st1 = Ok (∅, st1))
    by reflexivity.
  split; [exact Hinit|]. split; [exact Hloop|]. split; [reflexivity|].
  destruct (proj1 (proj2 (proj2 (execute_for_cleanup
              exec 1 "i" (NUMBER "0") (BOOL "False") (ASSIGN "i" (NUMBER "1"))
              [] init st1 st1 VNone ∅ Hinit Hloop)
              (λ x Hx, False_ind _ (not_elem_of_empty x Hx))))
              eq_refl (not_elem_of_empty "i")
              (ex_intro _ (VInt 0) eq_refl)) as (st' & E & Hl).
  exists st'. split; [exact E|]. rewrite Hl.
  rewrite decide_True by (left; reflexivity). reflexivity.
Defined.

(** ** Loops whose body consists of assignments *)

Section Scope.

Variable bound : string → Prop.

Lemma scope_invariant_frame (lv : gset string) (st st' : state) :
  scope_invariant bound lv st → evaluation_frame st st' →
  scope_invariant bound lv st'.
Proof.
  intros (HA & HB & HC & HD) (_ & Hcs & _ & Hmono & Hsame).
  split_and!.
  - intros x Hx. apply Hmono, HA, Hx.
  - intros x Hx.
    destruct (current_statement st) as
      [| | | | | | | | | | | |var e| | | |] eqn:Ecs;
      try (apply HB; rewrite <- Hsame; [exact Hx|discriminate]).
    destruct (decide (x = var)) as [->|Hne]; [exact (HD _ _ eq_refl)|].
    apply HB. rewrite <- Hsame; [exact Hx|]. intros e' [=]. congruence.
  - exact HC.
  - intros y e Hy. rewrite Hcs in Hy. exact (HD _ _ Hy).
Qed.

Lemma assignment_value_frame (expr : node) (st st' : state) (v : value) :
  Interpreter.assignment_value expr st = Ok (v, st') →
  evaluation_frame st st'.
Proof.
  intros E. unfold Interpreter.assignment_value in E.
  destruct expr; try exact (evaluate_expression_frame _ _ _ _ E).
  - unfold Interpreter.lookup_variable in E.
    destruct (variables st !! name); [|discriminate E].
    injection E as _ <-. apply evaluation_frame_refl.
  - exact (execute_class_instantiation_frame _ _ _ _ _ E).
Qed.

Lemma store_assignment_lookup (var_name : string) (v : value) (st : state)
    (x : string) :
  current_statement (Interpreter.store_assignment var_name v st)
  = current_statement st
  ∧ (x ≠ var_name →
     variables (Interpreter.store_assignment var_name v st) !! x
     = variables st !! x).
Proof.
  unfold Interpreter.store_assignment.
  destruct v; cbn; try (split; [reflexivity|];
    intros Hne; apply lookup_insert_ne; congruence).
  destruct (heap st !! l) as [[]|]; cbn; (split; [reflexivity|];
    intros Hne; apply lookup_insert_ne; congruence).
Qed.

(** An assignment statement, with the name it makes the loop collect. *)
Lemma assignment_keeps_scope (m : nat) (y : string) (e : node)
    (lv : gset string) (st st' : state) (r : value) :
  scope_invariant bound lv st →
  Interpreter.execute_statement m (ASSIGN y e) st = Ok (r, st') →
  scope_invariant bound (Interpreter.track (ASSIGN y e) lv st) st'
  ∧ (∀ x, x ∈ Interpreter.track (ASSIGN y e) lv st → x ∈ lv ∨ x = y)
  ∧ is_Some (variables st' !! y)
  ∧ (∀ x, is_Some (variables st !! x) → is_Some (variables st' !! x))
  ∧ current_statement st' = ASSIGN y e
  ∧ r = VNone.
Proof.
  intros (HA & HB & HC & HD) H. destruct m as [|m]; [discriminate H|].
  cbn [Interpreter.execute_statement] in H.
  unfold Interpreter.execute_assignment in H.
  set (st1 := set_current_statement (ASSIGN y e) st) in *.
  destruct (Interpreter.assignment_value e st1) as [[v st2]| | |] eqn:E;
    try discriminate H.
  cbn [mbind outcome_bind] in H. injection H as <- <-.
  apply assignment_value_frame in E.
  set (lv' := Interpreter.track (ASSIGN y e) lv st).
  assert (Hlv' : ∀ x, x ∈ lv' ↔ x ∈ lv ∨ (x = y ∧ variables st !! y = None)).
  { intros x. unfold lv', Interpreter.track, Interpreter.defined.
    destruct (variables st !! y) as [w|] eqn:Hy.
    - rewrite bool_decide_eq_true_2 by eauto. split; [auto|].
      intros [?|[_ [=]]]. assumption.
    - rewrite bool_decide_eq_false_2 by (intros [? [=]]).
      rewrite elem_of_union, elem_of_singleton. tauto. }
  assert (H1 : scope_invariant bound lv' st1).
  { split_and!.
    - exact HA.
    - intros x Hx. destruct (HB x Hx); [auto|]. right. apply Hlv'. auto.
    - intros x Hx Hb. apply Hlv' in Hx as [Hx|[-> Hnone]].
      + exact (HC x Hx Hb).
      + destruct (HA y Hb) as [w Hw]. cbn in Hw. congruence.
    - intros y' e' [= -> ->].
      destruct (variables st !! y') as [w|] eqn:Hy.
      + destruct (HB y' ltac:(eauto)); [auto|]. right. apply Hlv'. auto.
      + right. apply Hlv'. auto. }
  pose proof (scope_invariant_frame _ _ _ H1 E) as (HA2 & HB2 & HC2 & HD2).
  destruct E as (_ & Hcs2 & _ & Hmono & _).
  assert (Hy3 : is_Some (variables (Interpreter.store_assignment y v st2) !! y))
    by apply store_assignment_variables.
  assert (Hkeep : ∀ x, is_Some (variables st2 !! x) →
            is_Some (variables (Interpreter.store_assignment y v st2) !! x)).
  { intros x Hx. destruct (decide (x = y)) as [->|Hne]; [exact Hy3|].
    rewrite (proj2 (store_assignment_lookup y v st2 x) Hne). exact Hx. }
  split_and!; try reflexivity; try exact Hy3.
  - split_and!.
    + intros x Hx. apply Hkeep, HA2, Hx.
    + intros x Hx. destruct (decide (x = y)) as [->|Hne].
      * apply (HD2 y e). rewrite Hcs2. reflexivity.
      * apply HB2.
        rewrite <- (proj2 (store_assignment_lookup y v st2 x) Hne). exact Hx.
    + exact HC2.
    + intros y' e' Hy'.
      rewrite (proj1 (store_assignment_lookup y v st2 y')) in Hy'.
      exact (HD2 _ _ Hy').
  - intros x Hx. apply Hlv' in Hx. tauto.
  - intros x Hx. apply Hkeep, Hmono. exact Hx.
  - rewrite (proj1 (store_assignment_lookup y v st2 y)), Hcs2. reflexivity.
Qed.


Lemma loop_invariant_frame (lv : gset string) (st st' : state) :
  loop_invariant bound lv st → evaluation_frame st st' → loop_invariant bound lv st'.
Proof.
  intros [Hs He] Hf. split; [exact (scope_invariant_frame _ _ _ Hs Hf)|].
  destruct Hf as (_ & _ & _ & Hmono & _). intros x Hx. apply Hmono, He, Hx.
Qed.

Lemma assignment_keeps_loop (m : nat) (y : string) (e : node)
    (lv : gset string) (st st' : state) (r : value) :
  loop_invariant bound lv st →
  Interpreter.execute_statement m (ASSIGN y e) st = Ok (r, st') →
  loop_invariant bound (Interpreter.track (ASSIGN y e) lv st) st' ∧ r = VNone.
Proof.
  intros [Hs He] H.
  destruct (assignment_keeps_scope m y e lv st st' r Hs H)
    as (Hs' & Hsub & Hy & Hmono & _ & ->).
  split; [|reflexivity]. split; [exact Hs'|].
  intros x Hx. destruct (Hsub x Hx) as [Hin| ->]; [|exact Hy].
  apply Hmono, He, Hin.
Qed.

Variable m : nat.

Lemma while_body_keeps_loop (body : list node) (lv : gset string)
    (st : state) (s : Interpreter.signal) (lv' : gset string) (st' : state) :
  Forall is_assignment body →
  loop_invariant bound lv st →
  Interpreter.while_body (Interpreter.execute_statement m) body lv st
  = Ok (s, lv', st') →
  loop_invariant bound lv' st'.
Proof.
  intros Hbody. revert lv st.
  induction Hbody as [|stmt body Hstmt _ IH]; intros lv st Hinv H.
  - injection H as _ <- <-. exact Hinv.
  - destruct stmt; try contradiction. cbn [Interpreter.while_body] in H.
    destruct (Interpreter.execute_statement m _ st) as [[r st1]| | |] eqn:E;
      try discriminate H.
    cbn [mbind outcome_bind] in H.
    destruct (assignment_keeps_loop _ _ _ _ _ _ _ Hinv E) as [Hinv1 ->].
    exact (IH _ _ Hinv1 H).
Qed.

Lemma for_body_keeps_loop (body : list node) (lv : gset string)
    (st : state) (s : Interpreter.signal) (lv' : gset string) (st' : state) :
  Forall is_assignment body →
  loop_invariant bound lv st →
  Interpreter.for_body (Interpreter.execute_statement m) body lv st
  = Ok (s, lv', st') →
  loop_invariant bound lv' st'.
Proof.
  intros Hbody. revert lv st.
  induction Hbody as [|stmt body Hstmt _ IH]; intros lv st Hinv H.
  - injection H as _ <- <-. exact Hinv.
  - destruct stmt; try contradiction. cbn [Interpreter.for_body] in H.
    destruct (Interpreter.execute_statement m _ st) as [[r st1]| | |] eqn:E;
      try discriminate H.
    cbn [mbind outcome_bind] in H.
    destruct (assignment_keeps_loop _ _ _ _ _ _ _ Hinv E) as [Hinv1 ->].
    exact (IH _ _ Hinv1 H).
Qed.

Lemma while_loop_keeps_loop (fuel : nat) (condition : node)
    (body : list node) (lv : gset string) (st : state) (lv' : gset string)
    (st' : state) :
  Forall is_assignment body →
  loop_invariant bound lv st →
  Interpreter.while_loop (Interpreter.execute_statement m) fuel condition
    body lv st = Ok (lv', st') →
  loop_invariant bound lv' st'.
Proof.
  intros Hbody. revert lv st.
  induction fuel as [|fuel IH]; intros lv st Hinv H; [discriminate H|].
  cbn [Interpreter.while_loop] in H.
  destruct (Interpreter.evaluate_expression condition st)
    as [[c st1]| | |] eqn:Ec; try discriminate H.
  cbn [mbind outcome_bind] in H. apply evaluate_expression_frame in Ec.
  pose proof (loop_invariant_frame _ _ _ Hinv Ec) as Hinv1.
  destruct (PyVal.truthy c).
  2:{ injection H as <- <-. exact Hinv1. }
  destruct (Interpreter.while_body _ body lv st1)
    as [[[s lv1] st2]| | |] eqn:Eb; try discriminate H.
  cbn [mbind outcome_bind] in H.
  pose proof (while_body_keeps_loop _ _ _ _ _ _ Hbody Hinv1 Eb) as Hinv2.
  destruct s; try exact (IH _ _ Hinv2 H).
  injection H as <- <-. exact Hinv2.
Qed.

Lemma for_loop_keeps_loop (fuel : nat) (condition : node) (i : string)
    (incr_expr : node) (body : list node) (lv : gset string) (st : state)
    (lv' : gset string) (st' : state) :
  Forall is_assignment body →
  bound i →
  loop_invariant bound lv st →
  Interpreter.for_loop (Interpreter.execute_statement m) fuel condition
    (ASSIGN i incr_expr) body lv st = Ok (lv', st') →
  loop_invariant bound lv' st'.
Proof.
  intros Hbody Hi. revert lv st.
  induction fuel as [|fuel IH]; intros lv st Hinv H; [discriminate H|].
  cbn [Interpreter.for_loop] in H.
  destruct (Interpreter.evaluate_expression condition st)
    as [[c st1]| | |] eqn:Ec; try discriminate H.
  cbn [mbind outcome_bind] in H. apply evaluate_expression_frame in Ec.
  pose proof (loop_invariant_frame _ _ _ Hinv Ec) as Hinv1.
  destruct (PyVal.truthy c).
  2:{ injection H as <- <-. exact Hinv1. }
  destruct (Interpreter.for_body _ body lv st1)
    as [[[s lv1] st2]| | |] eqn:Eb; try discriminate H.
  cbn [mbind outcome_bind] in H.
  pose proof (for_body_keeps_loop _ _ _ _ _ _ Hbody Hinv1 Eb) as Hinv2.
  assert (Hstep : ∀ r st3,
            Interpreter.execute_statement m (ASSIGN i incr_expr) st2
            = Ok (r, st3) → loop_invariant bound lv1 st3).
  { intros r st3 E.
    destruct (assignment_keeps_loop _ _ _ _ _ _ _ Hinv2 E) as [Hinv3 _].
    unfold Interpreter.track, Interpreter.defined in Hinv3.
    rewrite bool_decide_eq_true_2 in Hinv3; [exact Hinv3|].
    destruct Hinv2 as [(HA & _) _]. apply HA, Hi. }
  destruct s;
    try (destruct (Interpreter.execute_statement m _ st2)
           as [[r st3]| | |] eqn:Ei; try discriminate H;
         cbn [mbind outcome_bind] in H;
         exact (IH _ _ (Hstep _ _ eq_refl) H)).
  injection H as <- <-. exact Hinv2.
Qed.

End Scope.

Lemma loop_invariant_initial (st : state) :
  (∀ y e, current_statement st = ASSIGN y e → is_Some (variables st !! y)) →
  loop_invariant (λ x, is_Some (variables st !! x)) ∅ st.
Proof.
  intros Hcs. split; [split_and!|].
  - intros x Hx. exact Hx.
  - intros x Hx. left. exact Hx.
  - intros x Hx. destruct (not_elem_of_empty (C:=gset string) x Hx).
  - intros y e Hy. left. exact (Hcs y e Hy).
  - intros x Hx. destruct (not_elem_of_empty (C:=gset string) x Hx).
Qed.

(** X28: a loop whose body consists of assignments leaves the scope as
    it found it: after a [while] statement, or a [for] statement whose
    increment assigns the counter, the variables that are bound are exactly
    those that were bound before it. *)
Theorem loops_of_assignments_keep_scope (fuel : nat) (condition : node)
    (body : list node) (st : state) :
  Forall is_assignment body →
  (∀ r st',
     Interpreter.execute_statement fuel (WHILE condition body) st
     = Ok (r, st') →
     ∀ x, is_Some (variables st' !! x) ↔ is_Some (variables st !! x))
  ∧ (∀ i init_expr incr_expr r st',
       Interpreter.execute_statement fuel
         (FOR (ASSIGN i init_expr) condition (ASSIGN i incr_expr) body) st
       = Ok (r, st') →
       ∀ x, is_Some (variables st' !! x) ↔ is_Some (variables st !! x)).
Proof.
  intros Hbody. split.
  - intros r st' H. destruct fuel as [|fuel]; [discriminate H|].
    cbn [Interpreter.execute_statement] in H.
    unfold Interpreter.execute_while in H.
    set (st0 := set_current_statement (WHILE condition body) st) in *.
    destruct (Interpreter.while_loop _ fuel condition body ∅ st0)
      as [[lv st1]| | |] eqn:E; try discriminate H.
    cbn [mbind outcome_bind] in H. injection H as _ <-.
    set (bound := λ x, is_Some (variables st !! x)).
    assert (Hinv0 : loop_invariant bound ∅ st0).
    { refine (loop_invariant_initial st0 _). intros y e [=]. }
    destruct (while_loop_keeps_loop bound fuel fuel condition body ∅ st0 lv st1
                Hbody Hinv0 E) as [(HA & HB & HC & _) _].
    intros x. rewrite forget_lookup.
    destruct (decide (x ∈ elements lv)) as [Hin|Hnot].
    + apply elem_of_elements in Hin. split; [intros [? [=]]|].
      intros Hx. destruct (HC x Hin Hx).
    + split; [|apply HA]. intros Hx. destruct (HB x Hx) as [?|Hin]; [auto|].
      destruct Hnot. apply elem_of_elements, Hin.
  - intros i init_expr incr_expr r st' H.
    destruct fuel as [|fuel]; [discriminate H|].
    cbn [Interpreter.execute_statement] in H.
    unfold Interpreter.execute_for in H.
    set (st0 := set_current_statement _ st) in *.
    destruct (Interpreter.execute_statement fuel (ASSIGN i init_expr) st0)
      as [[r1 st1]| | |] eqn:Ei; try discriminate H.
    cbn [mbind outcome_bind] in H.
    destruct (Interpreter.for_loop _ fuel condition _ body ∅ st1)
      as [[lv st2]| | |] eqn:El; try discriminate H.
    cbn [mbind outcome_bind] in H.
    set (bound0 := λ x, is_Some (variables st !! x)).
    assert (Hinv0 : scope_invariant bound0 ∅ st0).
    { refine (proj1 (loop_invariant_initial st0 _)). intros y e [=]. }
    destruct (assignment_keeps_scope bound0 fuel i init_expr ∅ st0 st1 r1
                Hinv0 Ei) as ((_ & HB1 & _) & Hsub & Hi1 & Hmono & Hcs1 & _).
    set (bound := λ x, is_Some (variables st1 !! x)).
    assert (Hinv1 : loop_invariant bound ∅ st1).
    { refine (loop_invariant_initial st1 _). intros y e Hy.
      rewrite Hcs1 in Hy.
      injection Hy as <- _. exact Hi1. }
    destruct (for_loop_keeps_loop bound fuel fuel condition i incr_expr body
                ∅ st1 lv st2 Hbody Hi1 Hinv1 El)
      as [(HA & HB & HC & _) He].
    destruct (del_each_defined (elements lv) st2) as (st3 & E3 & _ & _ & _ & Hl).
    { apply NoDup_elements. }
    { intros x Hx. apply He, elem_of_elements, Hx. }
    rewrite E3 in H. cbn [mbind outcome_bind] in H.
    assert (H3 : ∀ x, is_Some (variables st3 !! x) ↔ bound x).
    { intros x. rewrite Hl. destruct (decide (x ∈ elements lv)) as [Hin|Hnot].
      - apply elem_of_elements in Hin. split; [intros [? [=]]|].
        intros Hx. destruct (HC x Hin Hx).
      - split; [|apply HA]. intros Hx. destruct (HB x Hx) as [?|Hin]; [auto|].
        destruct Hnot. apply elem_of_elements, Hin. }
    assert (Hb : ∀ x, bound x ↔ bound0 x ∨ x = i).
    { intros x. split.
      - intros Hx. destruct (HB1 x Hx) as [?|Hin]; [auto|].
        destruct (Hsub x Hin) as [Hin'|?]; [|auto].
        destruct (not_elem_of_empty (C:=gset string) x Hin').
      - intros [Hx| ->]; [apply Hmono, Hx|exact Hi1]. }
    destruct (Interpreter.defined i st0) eqn:Hdef.
    + injection H as _ <-. intros x. rewrite H3, Hb.
      apply bool_decide_eq_true in Hdef. split; [|auto].
      intros [?| ->]; [assumption|exact Hdef].
    + apply bool_decide_eq_false in Hdef. unfold Interpreter.del in H.
      destruct (variables st3 !! i) as [w|] eqn:Hw.
      2:{ destruct (proj2 (H3 i) Hi1) as [? Hs]. congruence. }
      cbn [mbind outcome_bind] in H. injection H as _ <-.
      intros x. cbn. destruct (decide (x = i)) as [->|Hne].
      * rewrite lookup_delete_eq. split; [intros [? [=]]|].
        intros Hx. destruct (Hdef Hx).
      * rewrite lookup_delete_ne by congruence. rewrite H3, Hb.
        split; [|auto]. intros [?|?]; [assumption|contradiction].
Qed.

Lemma loops_of_assignments_keep_scope_witness :
  let body := [ASSIGN "q" (NUMBER "7"); ASSIGN "y" (NUMBER "1")] in
  let condition := BINOP "<" (ID "y") (NUMBER "1") in
  let st := State {["y" := VInt 0]} ∅ PyNone [] in
  Forall is_assignment body
  ∧ ∃ st',
      Interpreter.execute_statement 3 (WHILE condition body) st
      = Ok (VNone, st')
      ∧ variables st' = {["y" := VInt 1]}
      ∧ ∀ x, is_Some (variables st' !! x) ↔ is_Some (variables st !! x).
Proof.
  intros body condition st.
  assert (Hbody : Forall is_assignment body)
    by (repeat constructor).
  split; [exact Hbody|]. eexists. split; [vm_compute; reflexivity|].
  split; [reflexivity|].
  refine (proj1 (loops_of_assignments_keep_scope 3 condition body st Hbody)
            VNone _ _).
  vm_compute. reflexivity.
Defined.
